(** * bokeh/document.py: the document graph, its events and its patches

    A shallow embedding of [src/bokeh/document.py].  Python objects are
    values of records and inductive types, object identity is a number,
    [dict] and [set] are stdpp's [gmap] and [gset], an exception is the
    [Raise] branch of a result, and a method that mutates [self] is a
    function from the state before to the state after.

    Embedded: [_MultiValuedDict], the events and their [dispatch], the
    session callback handles, and of [Document] the roots and the table of
    all models, the title, the listeners, the session callbacks, the JSON
    of a document, the patch generator, the queries by name, the change
    notification, and the move of the content of a document into another
    one.  The theme, the validation and the patch applier are left out: no
    property below is about them.  What the document calls in
    modules that are not at hand ([bokeh.model], [bokeh.io], [bokeh.query],
    the JSON encoder) is modelled from the specification and marked so. *)

From Stdlib Require Import ZArith Lia.
From stdpp Require Import base option list gmap sets strings.

Set Warnings "-register-all,-clear-no-such-hyp".

Open Scope string_scope.
Open Scope list_scope.
Open Scope nat_scope.

(** ** Exceptions *)

Inductive exn :=
  | ValueError
  | KeyError
  | RuntimeError
  | AttributeError.

Inductive result (A : Type) :=
  | Ok (a : A)
  | Raise (e : exn).
Arguments Ok {A} a.
Arguments Raise {A} e.

Definition rbind {A B} (r : result A) (f : A -> result B) : result B :=
  match r with
  | Ok a => f a
  | Raise e => Raise e
  end.

(** ** _MultiValuedDict *)

Module MultiValuedDict.
Section mvd.
Context {K V : Type} `{Countable K} `{Countable V}.

(** What a caller can hand over as [value]: [None], a [set], or any other
    object.  Only objects of the last kind are ever stored. *)
Inductive pyvalue :=
  | PyNone
  | PySet (s : gset V)
  | PyObj (v : V).

(** What [_dict] holds under a key: the value itself, or a [set] of
    values once there was more than one. *)
Inductive slot :=
  | One (v : V)
  | Many (s : gset V).

(** [__init__] *)
Definition init : gmap K slot := ∅.

(** [existing == value] for a stored scalar *)
Definition eq_value (existing : V) (value : pyvalue) : bool :=
  match value with
  | PyObj v => bool_decide (existing = v)
  | _ => false
  end.

(** [existing.discard(value)] *)
Definition discard (value : pyvalue) (s : gset V) : gset V :=
  match value with
  | PyObj v => s ∖ {[v]}
  | _ => s
  end.

Definition add_value (key : option K) (value : pyvalue) (d : gmap K slot)
  : result (gmap K slot) :=
  match key with
  | None => Raise ValueError
  | Some k =>
    match value with
    | PyNone => Raise ValueError
    | PySet _ => Raise ValueError
    | PyObj v =>
      match d !! k with
      | None => Ok (<[k := One v]> d)
      | Some (Many existing) => Ok (<[k := Many ({[v]} ∪ existing)]> d)
      | Some (One existing) => Ok (<[k := Many {[existing; v]}]> d)
      end
    end
  end.

Definition remove_value (key : option K) (value : pyvalue) (d : gmap K slot)
  : result (gmap K slot) :=
  match key with
  | None => Raise ValueError
  | Some k =>
    match d !! k with
    | Some (Many existing) =>
      let existing' := discard value existing in
      if bool_decide (size existing' = 0)
      then Ok (delete k d)
      else Ok (<[k := Many existing']> d)
    | Some (One existing) =>
      if eq_value existing value then Ok (delete k d) else Ok d
    | None =>
      (* [existing] is [None]: it equals [value] only when [value] is
         [None] too, and then [del] finds no key *)
      match value with
      | PyNone => Raise KeyError
      | _ => Ok d
      end
    end
  end.

Definition dict_get (k : option K) (d : gmap K slot) : option slot :=
  match k with
  | None => None
  | Some k => d !! k
  end.

Definition get_one (k : option K) (d : gmap K slot) : result (option V) :=
  match dict_get k d with
  | Some (Many existing) =>
    match elements existing with
    | [v] => Ok (Some v)
    | _ => Raise ValueError
    end
  | Some (One existing) => Ok (Some existing)
  | None => Ok None
  end.

Definition get_all (k : option K) (d : gmap K slot) : list V :=
  match dict_get k d with
  | None => []
  | Some (Many existing) => elements existing
  | Some (One existing) => [existing]
  end.

(** [add_value] then [remove_value] of the same pair, as one step *)
Definition add_then_remove (k : K) (v : V) (d : gmap K slot)
  : result (gmap K slot) :=
  rbind (add_value (Some k) (PyObj v) d) (remove_value (Some k) (PyObj v)).

End mvd.
Arguments pyvalue V {_ _}.
Arguments slot V {_ _}.
End MultiValuedDict.

(** ** Objects of the program *)

(** Object identity: of a model, of a document, of a callable. *)
Abbreviation Model := positive.
Abbreviation DocRef := nat.
Abbreviation Callable := nat.

(** A reference [{id, type[, subtype]}], as [Model.ref] gives it. *)
Record Ref := mkRef {
  ref_id : string;
  ref_type : string;
  ref_subtype : option string
}.

#[global] Instance Ref_eq_dec : EqDecision Ref.
Proof. solve_decision. Defined.

(** Python values that properties and JSON hold: scalars, sequences, maps,
    model objects, and the reference a model is written as in JSON. *)
Inductive Value :=
  | VNone
  | VStr (s : string)
  | VInt (z : Z)
  | VModel (m : Model)
  | VRef (r : Ref)
  | VList (l : list Value)
  | VDict (l : list (string * Value)).

(** [event.model != value]: a model equals a value only when the value is
    that very object. *)
Definition model_ne_value (m : Model) (value : Value) : bool :=
  match value with
  | VModel m' => negb (bool_decide (m = m'))
  | _ => true
  end.

(** The models that occur in a value. *)
Fixpoint value_models (v : Value) : gset Model :=
  match v with
  | VModel m => {[m]}
  | VList l => ⋃ (map value_models l)
  | VDict l => ⋃ (map (λ kv, value_models kv.2) l)
  | _ => ∅
  end.

(** ** Session callback handles *)

(** The closure [_wrap_with_self_as_curdoc] returns: it remembers the
    document and the wrapped callable. *)
Record Wrapper := mkWrapper {
  wrapper_doc : DocRef;
  wrapper_f : Callable
}.

Inductive SessionCallbackKind :=
  | PeriodicCallback (_period : Z)
  | TimeoutCallback (_timeout : Z).

(** The instance attributes [SessionCallback.__init__] and the two
    subclasses set. *)
Record SessionCallback := mkSessionCallback {
  sc_id : string;            (* [_id] *)
  sc_document : DocRef;      (* [_document] *)
  sc_callback : Wrapper;     (* [_callback] *)
  sc_kind : SessionCallbackKind
}.

#[global] Instance Wrapper_eq_dec : EqDecision Wrapper.
Proof. solve_decision. Defined.
#[global] Instance SessionCallbackKind_eq_dec : EqDecision SessionCallbackKind.
Proof. solve_decision. Defined.
#[global] Instance SessionCallback_eq_dec : EqDecision SessionCallback.
Proof. solve_decision. Defined.

(** ** Events *)

Inductive Event :=
  | DocumentChangedEvent (document : DocRef)
  | DocumentPatchedEvent (document : DocRef)
  | ModelChangedEvent (document : DocRef) (model : Model) (attr : string)
                      (old new : Value)
  | TitleChangedEvent (document : DocRef) (title : string)
  | RootAddedEvent (document : DocRef) (model : Model)
  | RootRemovedEvent (document : DocRef) (model : Model)
  | SessionCallbackAdded (document : DocRef) (callback : SessionCallback)
  | SessionCallbackRemoved (document : DocRef) (callback : SessionCallback).

Definition event_document (e : Event) : DocRef :=
  match e with
  | DocumentChangedEvent d | DocumentPatchedEvent d
  | ModelChangedEvent d _ _ _ _ | TitleChangedEvent d _
  | RootAddedEvent d _ | RootRemovedEvent d _
  | SessionCallbackAdded d _ | SessionCallbackRemoved d _ => d
  end.

(** *** dispatch

    A receiver is any object; what matters to [dispatch] is which
    attributes [hasattr] finds on it.  Calling a method of the receiver is
    recorded; calling one it does not have raises [AttributeError]. *)
Module Dispatch.

Record Receiver := mkReceiver { receiver_attrs : gset string }.

Record Call := mkCall { call_method : string; call_event : Event }.

(** The calls made so far, and the exception that ended them, if any. *)
Definition run : Type := list Call * option exn.

Definition hasattr (receiver : Receiver) (name : string) : bool :=
  bool_decide (name ∈ receiver_attrs receiver).

Definition skip : run := ([], None).

Definition call (receiver : Receiver) (name : string) (e : Event) : run :=
  if hasattr receiver name then ([mkCall name e], None)
  else ([], Some AttributeError).

Definition andthen (a b : run) : run :=
  match a.2 with
  | None => (a.1 ++ b.1, b.2)
  | Some _ => a
  end.

Definition DocumentChangedEvent_dispatch (self : Event) (receiver : Receiver)
  : run :=
  if hasattr receiver "_document_changed"
  then call receiver "_document_changed" self
  else skip.

Definition DocumentPatchedEvent_dispatch (self : Event) (receiver : Receiver)
  : run :=
  andthen (DocumentChangedEvent_dispatch self receiver)
    (if hasattr receiver "_document_patched"
     then call receiver "_document_patched" self
     else skip).

Definition ModelChangedEvent_dispatch (self : Event) (receiver : Receiver)
  : run :=
  andthen (DocumentPatchedEvent_dispatch self receiver)
    (if hasattr receiver "_document_model_changed"
     then call receiver "_document_patched" self
     else skip).

Definition SessionCallbackAdded_dispatch (self : Event) (receiver : Receiver)
  : run :=
  andthen (DocumentChangedEvent_dispatch self receiver)
    (if hasattr receiver "_session_callback_added"
     then call receiver "_session_callback_added" self
     else skip).

Definition SessionCallbackRemoved_dispatch (self : Event)
  (receiver : Receiver) : run :=
  andthen (DocumentChangedEvent_dispatch self receiver)
    (if hasattr receiver "_session_callback_removed"
     then call receiver "_session_callback_removed" self
     else skip).

(** Method resolution: the class of the event picks the [dispatch] that
    runs; [TitleChangedEvent], [RootAddedEvent] and [RootRemovedEvent]
    inherit the one of [DocumentPatchedEvent]. *)
Definition dispatch (self : Event) (receiver : Receiver) : run :=
  match self with
  | DocumentChangedEvent _ => DocumentChangedEvent_dispatch self receiver
  | DocumentPatchedEvent _ | TitleChangedEvent _ _
  | RootAddedEvent _ _ | RootRemovedEvent _ _ =>
    DocumentPatchedEvent_dispatch self receiver
  | ModelChangedEvent _ _ _ _ _ => ModelChangedEvent_dispatch self receiver
  | SessionCallbackAdded _ _ => SessionCallbackAdded_dispatch self receiver
  | SessionCallbackRemoved _ _ =>
    SessionCallbackRemoved_dispatch self receiver
  end.

Definition methods_called (r : run) : list string := map call_method r.1.

End Dispatch.

(** ** The Model capability

    [bokeh/model.py] is not part of the sources at hand; the document only
    uses what the specification calls the Model capability. *)

(** Modelled from the spec: the class of a model, without the class
    hierarchy: its type tag, its optional subtype, and its writeable
    properties, each flagged when its values contain model references. *)
Record ModelClass := mkModelClass {
  class_type : string;
  class_subtype : option string;
  class_properties : gmap string bool
}.

(** Modelled from the spec: a model object without its property
    descriptors: its [id], its class, and the value of its properties.  The
    [document] back-pointer is kept in the state, apart from the object. *)
Record ModelObj := mkModelObj {
  model_id : string;
  model_class : ModelClass;
  model_attrs : gmap string Value
}.

#[global] Instance ModelClass_inhabited : Inhabited ModelClass :=
  populate (mkModelClass "" None ∅).
#[global] Instance ModelObj_inhabited : Inhabited ModelObj :=
  populate (mkModelObj "" inhabitant ∅).

Module ModelCap.

(** Modelled from the spec: [name], an optional string; it is the
    property called [name]. *)
Definition name (o : ModelObj) : option string :=
  match model_attrs o !! "name" with
  | Some (VStr s) => Some s
  | _ => None
  end.

(** Modelled from the spec: [ref], the reference [{id, type[, subtype]}]. *)
Definition ref (o : ModelObj) : Ref :=
  mkRef (model_id o) (class_type (model_class o))
        (class_subtype (model_class o)).

(** Modelled from the spec: [properties()], the names of the writeable
    attributes. *)
Definition properties (o : ModelObj) : gset string :=
  dom (class_properties (model_class o)).

(** Modelled from the spec: [properties_with_refs()], the subset of the
    properties whose values contain model references. *)
Definition properties_with_refs (o : ModelObj) : gset string :=
  dom (filter (λ kv, kv.2 = true) (class_properties (model_class o))).

(** Modelled from the spec: the references of a model, one step at a time.
    The models one step away are those in the value of a property with
    references. *)
Definition immediate_references (o : ModelObj) : gset Model :=
  ⋃ (map (λ kv, value_models kv.2)
         (map_to_list
            (filter (λ kv, kv.1 ∈ properties_with_refs o) (model_attrs o)))).

Definition successors (store : gmap Model ModelObj) (m : Model)
  : gset Model :=
  match store !! m with
  | Some o => immediate_references o
  | None => ∅
  end.

Definition reach_step (store : gmap Model ModelObj) (X : gset Model)
  : gset Model :=
  X ∪ set_bind (successors store) X.

(** Modelled from the spec: [references()], the transitive closure of the
    models reachable through the properties with references, the model
    itself included.  No path without a repeated model is longer than
    the store. *)
Definition references (store : gmap Model ModelObj) (m : Model)
  : gset Model :=
  Nat.iter (size store) (reach_step store) {[m]}.

(** Modelled from the spec: [_to_json_like(include_defaults=True)], the
    attribute snapshot. *)
Definition _to_json_like (o : ModelObj) : gmap string Value :=
  model_attrs o.

(** Modelled from the spec: [update(attrs)] assigns the attributes, with
    no event. *)
Definition update (attrs : gmap string Value) (o : ModelObj) : ModelObj :=
  mkModelObj (model_id o) (model_class o) (attrs ∪ model_attrs o).

End ModelCap.

(** ** Values in JSON *)

(** Modelled from the spec: [serialize_json] followed by [loads]: the JSON
    encoder writes a model as its reference and leaves the rest of a value
    as it is. *)
Fixpoint json_of_value (ref_of : Model -> Ref) (v : Value) : Value :=
  match v with
  | VModel m => VRef (ref_of m)
  | VList l => VList (map (json_of_value ref_of) l)
  | VDict l => VDict (map (λ kv, (kv.1, json_of_value ref_of kv.2)) l)
  | _ => v
  end.

(** [f] over a list, up to the first error. *)
Fixpoint result_map {A B} (f : A -> result B) (l : list A)
  : result (list B) :=
  match l with
  | [] => Ok []
  | x :: l =>
    rbind (f x) (λ y, rbind (result_map f l) (λ l', Ok (y :: l')))
  end.

(** Modelled from the spec: the property descriptor's
    [from_json(value, models)]: a reference is resolved through [models],
    by its id; an id that is not there is an error. *)
Fixpoint from_json_value (models : gmap string Model) (v : Value)
  : result Value :=
  match v with
  | VRef r =>
    match models !! ref_id r with
    | Some m => Ok (VModel m)
    | None => Raise KeyError
    end
  | VList l =>
    rbind (result_map (from_json_value models) l) (λ l', Ok (VList l'))
  | VDict l =>
    rbind (result_map
             (λ kv, rbind (from_json_value models kv.2)
                          (λ x, Ok (kv.1, x))) l)
          (λ l', Ok (VDict l'))
  | _ => Ok v
  end.

(** A value with other models in the place of its models. *)
Fixpoint rename_value (φ : Model -> Model) (v : Value) : Value :=
  match v with
  | VModel m => VModel (φ m)
  | VList l => VList (map (rename_value φ) l)
  | VDict l => VDict (map (λ kv, (kv.1, rename_value φ kv.2)) l)
  | _ => v
  end.

(** A value that holds no written reference: the values of a model's
    properties hold the models themselves. *)
Fixpoint no_written_refs (v : Value) : bool :=
  match v with
  | VRef _ => false
  | VList l => forallb no_written_refs l
  | VDict l => forallb (λ kv, no_written_refs kv.2) l
  | _ => true
  end.

(** ** Python dictionaries that are iterated

    A [dict] keeps its entries in insertion order; it is a list of pairs
    with no key twice. *)
Module PyDict.
Section pydict.
Context {K V : Type} `{EqDecision K}.

Fixpoint get (k : K) (d : list (K * V)) : option V :=
  match d with
  | [] => None
  | (k', v) :: d => if decide (k = k') then Some v else get k d
  end.

Definition contains (k : K) (d : list (K * V)) : bool :=
  match get k d with
  | Some _ => true
  | None => false
  end.

(** [d[k] = v] *)
Fixpoint set (k : K) (v : V) (d : list (K * V)) : list (K * V) :=
  match d with
  | [] => [(k, v)]
  | (k', v') :: d =>
    if decide (k = k') then (k', v) :: d else (k', v') :: set k v d
  end.

(** [del d[k]], for a key that is there *)
Fixpoint del (k : K) (d : list (K * V)) : list (K * V) :=
  match d with
  | [] => []
  | (k', v') :: d =>
    if decide (k = k') then d else (k', v') :: del k d
  end.

Definition values (d : list (K * V)) : list V := map snd d.

End pydict.
End PyDict.

(** ** The document and the state around it *)

(** Keys of [_session_callbacks]: the callable the user handed over; a
    handle is an object too and can be asked for. *)
Inductive SessionKey :=
  | KeyCallable (f : Callable)
  | KeyHandle (h : SessionCallback).

#[global] Instance SessionKey_eq_dec : EqDecision SessionKey.
Proof. solve_decision. Defined.

(** The attributes [Document.__init__] sets, without [_theme], and the
    identity of the object. *)
Record Document := mkDocument {
  doc_ref : DocRef;
  _roots : gset Model;
  _title : option string;
  _all_models_freeze_count : Z;
  _all_models : gmap string Model;
  _all_models_by_name : gmap string (MultiValuedDict.slot Model);
  _callbacks : list (Callable * Callable);
  _session_callbacks : list (SessionKey * SessionCallback)
}.

Definition DEFAULT_TITLE : string := "Bokeh Application".

(** One listener call: the callable, the event, and the current document
    at the time of the call. *)
Record Invocation := mkInvocation {
  inv_callable : Callable;
  inv_event : Event;
  inv_curdoc : DocRef
}.

(** The state a method of a document runs in: the document itself, the
    model objects and their [document] back-pointers, and [bokeh.io]'s
    current document.  Two more fields only record what happened: the
    events handed to [_trigger_on_change] and the listener calls made,
    oldest first. *)
Record State := mkState {
  self : Document;
  models : gmap Model ModelObj;
  document_of : gmap Model DocRef;
  io_curdoc : DocRef;
  emitted : list Event;
  invoked : list Invocation
}.

Definition with_self (f : Document -> Document) (s : State) : State :=
  mkState (f (self s)) (models s) (document_of s) (io_curdoc s)
          (emitted s) (invoked s).

Definition with_models (f : gmap Model ModelObj -> gmap Model ModelObj)
  (s : State) : State :=
  mkState (self s) (f (models s)) (document_of s) (io_curdoc s)
          (emitted s) (invoked s).

Definition with_document_of (f : gmap Model DocRef -> gmap Model DocRef)
  (s : State) : State :=
  mkState (self s) (models s) (f (document_of s)) (io_curdoc s)
          (emitted s) (invoked s).

Definition with_io_curdoc (d : DocRef) (s : State) : State :=
  mkState (self s) (models s) (document_of s) d (emitted s) (invoked s).

Definition record_emitted (e : Event) (s : State) : State :=
  mkState (self s) (models s) (document_of s) (io_curdoc s)
          (emitted s ++ [e]) (invoked s).

Definition record_invoked (i : Invocation) (s : State) : State :=
  mkState (self s) (models s) (document_of s) (io_curdoc s)
          (emitted s) (invoked s ++ [i]).

Definition set_roots (r : gset Model) (d : Document) : Document :=
  mkDocument (doc_ref d) r (_title d) (_all_models_freeze_count d)
             (_all_models d) (_all_models_by_name d) (_callbacks d)
             (_session_callbacks d).

Definition set_title (t : option string) (d : Document) : Document :=
  mkDocument (doc_ref d) (_roots d) t (_all_models_freeze_count d)
             (_all_models d) (_all_models_by_name d) (_callbacks d)
             (_session_callbacks d).

Definition set_freeze_count (n : Z) (d : Document) : Document :=
  mkDocument (doc_ref d) (_roots d) (_title d) n
             (_all_models d) (_all_models_by_name d) (_callbacks d)
             (_session_callbacks d).

Definition set_all_models (a : gmap string Model)
  (b : gmap string (MultiValuedDict.slot Model)) (d : Document) : Document :=
  mkDocument (doc_ref d) (_roots d) (_title d) (_all_models_freeze_count d)
             a b (_callbacks d) (_session_callbacks d).

Definition set_callbacks (c : list (Callable * Callable)) (d : Document)
  : Document :=
  mkDocument (doc_ref d) (_roots d) (_title d) (_all_models_freeze_count d)
             (_all_models d) (_all_models_by_name d) c
             (_session_callbacks d).

Definition set_session_callbacks (c : list (SessionKey * SessionCallback))
  (d : Document) : Document :=
  mkDocument (doc_ref d) (_roots d) (_title d) (_all_models_freeze_count d)
             (_all_models d) (_all_models_by_name d) (_callbacks d) c.

(** *** What a call does

    A call returns a value, raises an exception, or is still running when
    the steps granted to a [while] loop are used up.  Each carries the state
    the call leaves. *)
Inductive outcome (A : Type) :=
  | Returned (a : A) (s : State)
  | Raised (e : exn) (s : State)
  | OutOfFuel (s : State).
Arguments Returned {A} a s.
Arguments Raised {A} e s.
Arguments OutOfFuel {A} s.

Definition state_of {A} (o : outcome A) : State :=
  match o with
  | Returned _ s | Raised _ s | OutOfFuel s => s
  end.

Definition M (A : Type) : Type := State -> outcome A.

Definition ret {A} (a : A) : M A := λ s, Returned a s.

Definition raise {A} (e : exn) : M A := λ s, Raised e s.

Definition bind {A B} (m : M A) (f : A -> M B) : M B := λ s,
  match m s with
  | Returned a s' => f a s'
  | Raised e s' => Raised e s'
  | OutOfFuel s' => OutOfFuel s'
  end.

Definition modify (f : State -> State) : M unit := λ s, Returned tt (f s).

(** [try: body finally: final] *)
Definition try_finally {A} (body : M A) (final : M unit) : M A := λ s,
  match body s with
  | Returned a s' =>
    match final s' with
    | Returned _ s'' => Returned a s''
    | Raised e s'' => Raised e s''
    | OutOfFuel s'' => OutOfFuel s''
    end
  | Raised e s' =>
    match final s' with
    | Returned _ s'' => Raised e s''
    | Raised e' s'' => Raised e' s''
    | OutOfFuel s'' => OutOfFuel s''
    end
  | OutOfFuel s' => OutOfFuel s'
  end.

(** An exception of a pure step becomes one of the call. *)
Definition lift {A} (r : result A) : M A :=
  match r with
  | Ok a => ret a
  | Raise e => raise e
  end.

Declare Scope py_scope.
Delimit Scope py_scope with py.
Notation "x <- m ;; k" := (bind m (λ x, k))
  (at level 100, m at next level, right associativity) : py_scope.
Notation "m ;; k" := (bind m (λ _, k))
  (at level 100, right associativity) : py_scope.
Open Scope py_scope.

(** [for x in l: body(x)] *)
Fixpoint for_each {A} (l : list A) (body : A -> M unit) : M unit :=
  match l with
  | [] => ret tt
  | x :: l => body x ;; for_each l body
  end.

(** ** bokeh.io *)

(** Modelled from the spec: [curdoc()], the process-wide current
    document. *)
Definition curdoc : M DocRef := λ s, Returned (io_curdoc s) s.

(** Modelled from the spec: [set_curdoc(doc)]. *)
Definition set_curdoc (doc : DocRef) : M unit := modify (with_io_curdoc doc).

(** ** Model lifecycle hooks *)

(** Modelled from the spec: [_attach_document(doc)] sets the back-pointer
    of the model. *)
Definition _attach_document (m : Model) (doc : DocRef) : M unit :=
  modify (with_document_of (λ b, <[m := doc]> b)).

(** Modelled from the spec: [_detach_document()] clears the back-pointer
    of the model. *)
Definition _detach_document (m : Model) : M unit :=
  modify (with_document_of (λ b, delete m b)).

(** [m._id] and [m.name], read through the store *)
Definition id_of (store : gmap Model ModelObj) (m : Model) : string :=
  model_id (store !!! m).

Definition name_of (store : gmap Model ModelObj) (m : Model)
  : option string :=
  ModelCap.name (store !!! m).

Definition ref_of (store : gmap Model ModelObj) (m : Model) : Ref :=
  ModelCap.ref (store !!! m).

(** ** Document *)

(** [Document.__init__]: [title] is the keyword argument of that name when
    there is one (it may be [None]); [ref] is the identity of the new
    object. *)
Definition Document_init (ref : DocRef) (title : option (option string))
  : Document :=
  mkDocument ref ∅ (default (Some DEFAULT_TITLE) title) 0 ∅
             MultiValuedDict.init [] [].

Section methods.

(** What a callable registered with [on_change] does when it is called
    with an event: user code, which may do anything to the state. *)
Variable call_listener : Callable -> Event -> M unit.

(** Whether [_check_callback(callback, ('event',))] accepts a callable. *)
Variable check_callback : Callable -> bool.

(** *** The set of all models *)

Definition _push_all_models_freeze : M unit :=
  modify (with_self (λ d,
    set_freeze_count (_all_models_freeze_count d + 1) d)).

(** The loop of [_recompute_all_models] that fills [recomputed] and
    [recomputed_by_name], one model at a time. *)
Definition recompute_step (store : gmap Model ModelObj)
  (acc : result (gmap string Model * gmap string (MultiValuedDict.slot Model)))
  (m : Model)
  : result (gmap string Model * gmap string (MultiValuedDict.slot Model)) :=
  rbind acc (λ acc,
    let recomputed := <[id_of store m := m]> acc.1 in
    match name_of store m with
    | Some n =>
      rbind (MultiValuedDict.add_value (Some n) (MultiValuedDict.PyObj m)
               acc.2)
            (λ by_name, Ok (recomputed, by_name))
    | None => Ok (recomputed, acc.2)
    end).

Definition _recompute_all_models : M unit := λ s,
  let new_all_models_set :=
    foldl (λ acc r, acc ∪ ModelCap.references (models s) r) ∅
          (elements (_roots (self s))) in
  let old_all_models_set : gset Model := map_img (_all_models (self s)) in
  let to_detach := old_all_models_set ∖ new_all_models_set in
  let to_attach := new_all_models_set ∖ old_all_models_set in
  (recomputed <- lift (foldl (recompute_step (models s))
                             (Ok (∅, MultiValuedDict.init))
                             (elements new_all_models_set)) ;;
   for_each (elements to_detach) _detach_document ;;
   for_each (elements to_attach)
            (λ a, _attach_document a (doc_ref (self s))) ;;
   modify (with_self (set_all_models recomputed.1 recomputed.2))) s.

Definition _pop_all_models_freeze : M unit :=
  modify (with_self (λ d,
    set_freeze_count (_all_models_freeze_count d - 1) d)) ;;
  (λ s, if bool_decide (_all_models_freeze_count (self s) = 0%Z)
        then _recompute_all_models s
        else Returned tt s).

Definition _invalidate_all_models : M unit := λ s,
  if bool_decide (_all_models_freeze_count (self s) = 0%Z)
  then _recompute_all_models s
  else Returned tt s.

(** *** Listeners *)

Definition on_change (callbacks : list Callable) : M unit :=
  for_each callbacks (λ callback s,
    if PyDict.contains callback (_callbacks (self s)) then Returned tt s
    else if check_callback callback
    then Returned tt
           (with_self (λ d,
              set_callbacks (PyDict.set callback callback (_callbacks d)) d)
              s)
    else Raised ValueError s).

Definition remove_on_change (callbacks : list Callable) : M unit :=
  for_each callbacks (λ callback s,
    if PyDict.contains callback (_callbacks (self s))
    then Returned tt
           (with_self (λ d,
              set_callbacks (PyDict.del callback (_callbacks d)) d) s)
    else Raised KeyError s).

Definition _with_self_as_curdoc (f : M unit) : M unit := λ s,
  (old_doc <- curdoc ;;
   try_finally (set_curdoc (doc_ref (self s)) ;; f)
               (set_curdoc old_doc)) s.

(** [cb(event)]: the call is recorded, then the callable runs. *)
Definition call_callback (cb : Callable) (event : Event) : M unit := λ s,
  call_listener cb event
    (record_invoked (mkInvocation cb event (io_curdoc s)) s).

(** [for cb in self._callbacks.values(): cb(event)].  In Python 3 the
    view is live (in Python 2 [values()] was a copy of the values):
    each step of the iterator first compares the size of the dictionary
    with the size it had when the loop began, and raises [RuntimeError]
    when they differ; otherwise it yields the value at its position
    ([used - remaining]), until the position reaches the end.  When a
    callback replaces keys and keeps the size, what the loop still visits
    depends on the layout of the dictionary, and CPython may raise
    [RuntimeError] for the changed keys; here the loop goes on by
    position.  The properties below are about tables that the callbacks
    leave alone or whose size they change, where there is no such
    difference. *)
Fixpoint invoke_callbacks_from (remaining used : nat) (event : Event)
  : M unit := λ s,
  let d := _callbacks (self s) in
  if bool_decide (length d = used) then
    match remaining with
    | 0 => Returned tt s
    | S remaining' =>
      match PyDict.values d !! (used - remaining) with
      | Some cb =>
        (call_callback cb event ;;
         invoke_callbacks_from remaining' used event) s
      | None => Returned tt s
      end
    end
  else Raised RuntimeError s.

Definition invoke_callbacks (event : Event) : M unit := λ s,
  let used := length (_callbacks (self s)) in
  invoke_callbacks_from used used event s.

Definition _trigger_on_change (event : Event) : M unit :=
  modify (record_emitted event) ;;
  _with_self_as_curdoc (invoke_callbacks event).

Definition _wrap_with_self_as_curdoc (doc : DocRef) (f : Callable)
  : Wrapper :=
  mkWrapper doc f.

(** *** Title *)

Definition title (s : State) : option string := _title (self s).

(** the setter of [title] *)
Definition title_setter (title : option string) : M unit := λ s,
  match title with
  | None => Raised ValueError s
  | Some t =>
    if bool_decide (_title (self s) ≠ Some t)
    then (modify (with_self (set_title (Some t))) ;;
          _trigger_on_change (TitleChangedEvent (doc_ref (self s)) t)) s
    else Returned tt s
  end.

(** *** Roots *)

Definition add_root (model : Model) : M unit := λ s,
  if bool_decide (model ∈ _roots (self s)) then Returned tt s
  else
    (_push_all_models_freeze ;;
     try_finally
       (modify (with_self (λ d, set_roots ({[model]} ∪ _roots d) d)))
       _pop_all_models_freeze ;;
     _trigger_on_change (RootAddedEvent (doc_ref (self s)) model)) s.

Definition remove_root (model : Model) : M unit := λ s,
  if bool_decide (model ∉ _roots (self s)) then Returned tt s
  else
    (_push_all_models_freeze ;;
     try_finally
       (modify (with_self (λ d, set_roots (_roots d ∖ {[model]}) d)))
       _pop_all_models_freeze ;;
     _trigger_on_change (RootRemovedEvent (doc_ref (self s)) model)) s.

(** [while len(self._roots) > 0: r = next(iter(self._roots));
    self.remove_root(r)], for at most [fuel] rounds *)
Fixpoint clear_loop (fuel : nat) : M unit := λ s,
  match elements (_roots (self s)) with
  | [] => Returned tt s
  | r :: _ =>
    match fuel with
    | 0 => OutOfFuel s
    | S fuel' => (remove_root r ;; clear_loop fuel') s
    end
  end.

Definition clear (fuel : nat) : M unit :=
  _push_all_models_freeze ;;
  try_finally (clear_loop fuel) _pop_all_models_freeze.

Definition get_model_by_id (model_id : string) (s : State)
  : option Model :=
  _all_models (self s) !! model_id.

End methods.

(** ** Session callbacks *)

(** What looking up an attribute of a handle gives. *)
Inductive AttrValue :=
  | AttrStr (s : string)
  | AttrDocument (d : DocRef)
  | AttrWrapper (w : Wrapper)
  | AttrInt (z : Z)
  | AttrMethod (name : string).

(** [SessionCallback.__init__]: [uuid] is what [str(uuid.uuid4())] gives
    when it is asked. *)
Definition SessionCallback_init (uuid : string) (document : DocRef)
  (callback : Wrapper) (id : option string) (kind : SessionCallbackKind)
  : SessionCallback :=
  mkSessionCallback (default uuid id) document callback kind.

(** Attribute lookup on a handle: the instance attributes [__init__] sets,
    then the properties and methods of its classes; any other name raises
    [AttributeError]. *)
Definition SessionCallback_getattr (h : SessionCallback) (name : string)
  : result AttrValue :=
  if bool_decide (name = "_id") then Ok (AttrStr (sc_id h))
  else if bool_decide (name = "_document") then Ok (AttrDocument (sc_document h))
  else if bool_decide (name = "_callback") then Ok (AttrWrapper (sc_callback h))
  else if bool_decide (name = "id") then Ok (AttrStr (sc_id h))
  else if bool_decide (name = "callback") then Ok (AttrWrapper (sc_callback h))
  else if bool_decide (name = "remove") then Ok (AttrMethod "remove")
  else
    match sc_kind h with
    | PeriodicCallback p =>
      if bool_decide (name = "_period") then Ok (AttrInt p)
      else if bool_decide (name = "period") then Ok (AttrInt p)
      else Raise AttributeError
    | TimeoutCallback t =>
      if bool_decide (name = "_timeout") then Ok (AttrInt t)
      else if bool_decide (name = "timeout") then Ok (AttrInt t)
      else Raise AttributeError
    end.

Section session_callbacks.

Variable call_listener : Callable -> Event -> M unit.

Definition session_callbacks (s : State) : list SessionCallback :=
  PyDict.values (_session_callbacks (self s)).

Definition add_periodic_callback (uuid : string) (callback : Callable)
  (period : Z) (id : option string) : M SessionCallback := λ s,
  let cb :=
    SessionCallback_init uuid (doc_ref (self s))
      (_wrap_with_self_as_curdoc (doc_ref (self s)) callback) id
      (PeriodicCallback period) in
  (modify (with_self (λ d,
     set_session_callbacks
       (PyDict.set (KeyCallable callback) cb (_session_callbacks d)) d)) ;;
   _trigger_on_change call_listener
     (SessionCallbackAdded (doc_ref (self s)) cb) ;;
   ret cb) s.

Definition add_timeout_callback (uuid : string) (callback : Callable)
  (timeout : Z) (id : option string) : M SessionCallback := λ s,
  let cb :=
    SessionCallback_init uuid (doc_ref (self s))
      (_wrap_with_self_as_curdoc (doc_ref (self s)) callback) id
      (TimeoutCallback timeout) in
  (modify (with_self (λ d,
     set_session_callbacks
       (PyDict.set (KeyCallable callback) cb (_session_callbacks d)) d)) ;;
   _trigger_on_change call_listener
     (SessionCallbackAdded (doc_ref (self s)) cb) ;;
   ret cb) s.

(** [cb = self._session_callbacks.pop(callback)], then the event *)
Definition _remove_session_callback (callback : SessionKey) : M unit := λ s,
  match PyDict.get callback (_session_callbacks (self s)) with
  | None => Raised KeyError s
  | Some cb =>
    (modify (with_self (λ d,
       set_session_callbacks
         (PyDict.del callback (_session_callbacks d)) d)) ;;
     _trigger_on_change call_listener
       (SessionCallbackRemoved (doc_ref (self s)) cb)) s
  end.

Definition remove_periodic_callback (callback : Callable) : M unit :=
  _remove_session_callback (KeyCallable callback).

Definition remove_timeout_callback (callback : Callable) : M unit :=
  _remove_session_callback (KeyCallable callback).

(** [SessionCallback.remove]:
    [self.document._remove_session_callback(self)].  The attribute
    [document] is looked up first; the call on the document it names comes
    after, with the handle itself as the key. *)
Definition SessionCallback_remove (h : SessionCallback) : M unit :=
  match SessionCallback_getattr h "document" with
  | Raise e => raise e
  | Ok (AttrDocument _) => _remove_session_callback (KeyHandle h)
  | Ok _ => raise AttributeError
  end.

End session_callbacks.

(** ** JSON of a document *)

(** A model record: the reference of the model and its attributes. *)
Record ReferenceJson := mkReferenceJson {
  rj_ref : Ref;
  rj_attributes : gmap string Value
}.

Record DocJson := mkDocJson {
  json_title : option string;
  json_root_ids : list string;
  json_references : list ReferenceJson;
  json_version : string
}.

Definition _references_json (store : gmap Model ModelObj)
  (references : list Model) : list ReferenceJson :=
  map (λ r, mkReferenceJson (ref_of store r)
              (ModelCap._to_json_like (store !!! r)))
      references.

(** Modelled from the spec: what [serialize_json] does to the model
    records: every value is written by the encoder. *)
Definition serialize_references (store : gmap Model ModelObj)
  (l : list ReferenceJson) : list ReferenceJson :=
  map (λ r, mkReferenceJson (rj_ref r)
              (json_of_value (ref_of store) <$> rj_attributes r))
      l.

Section json.

Variable call_listener : Callable -> Event -> M unit.

(** [Model.get_class]: the class registered under a type tag, when there
    is one. *)
Variable get_class : string -> option ModelClass.

(** [__version__] *)
Variable version : string.

(** [to_json_string], read back by [loads] as [to_json] does: the JSON
    object rather than its text. *)
Definition to_json (s : State) : DocJson :=
  let root_ids := map (id_of (models s)) (elements (_roots (self s))) in
  let root_references := (map_to_list (_all_models (self s))).*2 in
  mkDocJson (title s) root_ids
    (serialize_references (models s)
       (_references_json (models s) root_references))
    version.

(** One round of the loop of [_instantiate_references_json]: the class is
    looked up, an instance with the id and no property set is created as
    a new object of the store, and it is entered under its id. *)
Definition instantiate_step (obj : ReferenceJson)
  (acc : gmap string Model) : M (gmap string Model) := λ s,
  let obj_id := ref_id (rj_ref obj) in
  let obj_type :=
    default (ref_type (rj_ref obj)) (ref_subtype (rj_ref obj)) in
  match get_class obj_type with
  | None => Raised KeyError s
  | Some cls =>
    let instance := fresh (dom (models s)) in
    Returned (<[obj_id := instance]> acc)
      (with_models (λ st, <[instance := mkModelObj obj_id cls ∅]> st) s)
  end.

Fixpoint instantiate_loop (references_json : list ReferenceJson)
  (acc : gmap string Model) : M (gmap string Model) :=
  match references_json with
  | [] => ret acc
  | obj :: rest =>
    acc' <- instantiate_step obj acc ;; instantiate_loop rest acc'
  end.

Definition _instantiate_references_json
  (references_json : list ReferenceJson) : M (gmap string Model) :=
  instantiate_loop references_json ∅.

(** [for p in instance.properties_with_refs(): if p in obj_attrs: ...] *)
Definition decode_step (references : gmap string Model)
  (acc : result (gmap string Value)) (p : string)
  : result (gmap string Value) :=
  rbind acc (λ obj_attrs,
    match obj_attrs !! p with
    | Some v =>
      rbind (from_json_value references v)
            (λ v', Ok (<[p := v']> obj_attrs))
    | None => Ok obj_attrs
    end).

Definition initialize_step (references : gmap string Model)
  (obj : ReferenceJson) : M unit := λ s,
  let obj_id := ref_id (rj_ref obj) in
  let obj_attrs := rj_attributes obj in
  match references !! obj_id with
  | None => Raised KeyError s
  | Some instance =>
    let o := models s !!! instance in
    match foldl (decode_step references) (Ok obj_attrs)
                (elements (ModelCap.properties_with_refs o)) with
    | Raise e => Raised e s
    | Ok obj_attrs =>
      let obj_attrs :=
        filter (λ kv, kv.1 ∈ ModelCap.properties o) obj_attrs in
      Returned tt
        (with_models (λ st, <[instance := ModelCap.update obj_attrs o]> st)
           s)
    end
  end.

Definition _initialize_references_json
  (references_json : list ReferenceJson) (references : gmap string Model)
  : M unit :=
  for_each references_json (initialize_step references).

(** [from_json]: [doc] is the identity of the document [Document()]
    creates; the state returned has it as [self]. *)
Definition from_json (doc : DocRef) (json : DocJson) : M unit :=
  let root_ids := json_root_ids json in
  let references_json := json_references json in
  references <- _instantiate_references_json references_json ;;
  _initialize_references_json references_json references ;;
  modify (with_self (λ _, Document_init doc None)) ;;
  for_each root_ids (λ r,
    match references !! r with
    | Some m => add_root call_listener m
    | None => raise KeyError
    end) ;;
  title_setter call_listener (json_title json).

End json.

(** ** Patches *)

Inductive JsonEvent :=
  | JsonModelChanged (model : Ref) (attr : string) (new : Value)
  | JsonRootAdded (model : Ref)
  | JsonRootRemoved (model : Ref)
  | JsonTitleChanged (title : string).

Record Patch := mkPatch {
  patch_events : list JsonEvent;
  patch_references : list ReferenceJson
}.

(** Modelled from the spec: what [serialize_json] does to an event record:
    the new value is written by the encoder. *)
Definition serialize_event (store : gmap Model ModelObj) (e : JsonEvent)
  : JsonEvent :=
  match e with
  | JsonModelChanged model attr new =>
    JsonModelChanged model attr (json_of_value (ref_of store) new)
  | _ => e
  end.

Section patch.

(** [Model.collect_models]: the models found in a value; it reads the
    model objects. *)
Variable collect_models : gmap Model ModelObj -> Value -> gset Model.

(** One round of the loop of [create_json_patch_string] over the events:
    [acc] holds [references] and [json_events]. *)
Definition patch_step (s : State) (acc : gset Model * list JsonEvent)
  (event : Event) : result (gset Model * list JsonEvent) :=
  let references := acc.1 in
  let json_events := acc.2 in
  if bool_decide (event_document event ≠ doc_ref (self s))
  then Raise ValueError
  else
    match event with
    | ModelChangedEvent _ model attr _ new =>
      let value := new in
      let value_refs := collect_models (models s) value in
      let value_refs :=
        if model_ne_value model value then value_refs ∖ {[model]}
        else value_refs in
      Ok (references ∪ value_refs,
          json_events ++
            [JsonModelChanged (ref_of (models s) model) attr value])
    | RootAddedEvent _ model =>
      Ok (references ∪ ModelCap.references (models s) model,
          json_events ++ [JsonRootAdded (ref_of (models s) model)])
    | RootRemovedEvent _ model =>
      Ok (references,
          json_events ++ [JsonRootRemoved (ref_of (models s) model)])
    | TitleChangedEvent _ title =>
      Ok (references, json_events ++ [JsonTitleChanged title])
    | _ => Ok (references, json_events)
    end.

(** The loop over the events, from given values of [references] and
    [json_events]. *)
Fixpoint patch_loop (s : State) (events : list Event)
  (acc : gset Model * list JsonEvent)
  : result (gset Model * list JsonEvent) :=
  match events with
  | [] => Ok acc
  | event :: events =>
    rbind (patch_step s acc event) (patch_loop s events)
  end.

(** [create_json_patch_string], as the JSON object its text stands
    for. *)
Definition create_json_patch_string (events : list Event) (s : State)
  : result Patch :=
  rbind (patch_loop s events (∅, [])) (λ acc,
    Ok (mkPatch
          (map (serialize_event (models s)) acc.2)
          (serialize_references (models s)
             (_references_json (models s) (elements acc.1))))).

(** The events [create_json_patch_string] has a branch for. *)
Definition patched_kind (event : Event) : bool :=
  match event with
  | ModelChangedEvent _ _ _ _ _ | RootAddedEvent _ _
  | RootRemovedEvent _ _ | TitleChangedEvent _ _ => true
  | _ => false
  end.

End patch.

(** ** Notions the properties are stated with *)

(** Listeners that only look: a call returns and leaves the state as it
    found it. *)
Definition observers (call_listener : Callable -> Event -> M unit) : Prop :=
  ∀ cb e s, call_listener cb e s = Returned tt s.


(** The calls of the callables [cbs], in order, with one event and one
    current document. *)
Definition invocations (e : Event) (d : DocRef) (cbs : list Callable)
  : list Invocation :=
  map (λ cb, mkInvocation cb e d) cbs.

(** The state after an event went to listeners that only look: the event
    and one call per listener are on record, nothing else changed. *)
Definition after_trigger (e : Event) (s : State) : State :=
  mkState (self s) (models s) (document_of s) (io_curdoc s)
          (emitted s ++ [e])
          (invoked s ++
             invocations e (doc_ref (self s))
               (PyDict.values (_callbacks (self s)))).

(** Following the specification's words, not the code: the emission that
    iterates over a snapshot of the callbacks taken at emission time. *)
Definition _trigger_on_change_over_snapshot
  (call_listener : Callable -> Event -> M unit) (event : Event) : M unit :=
  λ s,
    (modify (record_emitted event) ;;
     _with_self_as_curdoc
       (for_each (PyDict.values (_callbacks (self s)))
                 (λ cb, call_callback call_listener cb event))) s.

(** The values the locals of [_recompute_all_models] take in a state: the
    models reachable from the roots, the new table by id, and the new
    back-pointers. *)
Definition new_all_models_set (s : State) : gset Model :=
  foldl (λ acc r, acc ∪ ModelCap.references (models s) r) ∅
        (elements (_roots (self s))).

Definition recomputed (s : State) : gmap string Model :=
  foldl (λ acc m, <[id_of (models s) m := m]> acc) ∅
        (elements (new_all_models_set s)).

Definition reattached (s : State) : gmap Model DocRef :=
  foldl (λ b a, <[a := doc_ref (self s)]> b)
    (foldl (λ b d, delete d b) (document_of s)
       (elements
          ((map_img (_all_models (self s)) : gset Model)
             ∖ new_all_models_set s)))
    (elements
       (new_all_models_set s
          ∖ (map_img (_all_models (self s)) : gset Model))).

(** The state [_recompute_all_models] leaves, given the index by name it
    built. *)
Definition recomputed_state
  (by_name : gmap string (MultiValuedDict.slot Model)) (s : State) : State :=
  mkState (set_all_models (recomputed s) by_name (self s)) (models s)
          (reattached s) (io_curdoc s) (emitted s) (invoked s).

(** The closure invariant of a document: the table by id holds exactly the
    models in the references of the roots, each under its id, and every
    model of the table points back to the document. *)
Definition closure_invariant (s : State) : Prop :=
  (∀ i m, _all_models (self s) !! i = Some m ↔
          (∃ r, r ∈ _roots (self s) ∧
                m ∈ ModelCap.references (models s) r) ∧
          id_of (models s) m = i) ∧
  (∀ i m, _all_models (self s) !! i = Some m →
          document_of s !! m = Some (doc_ref (self s))).

(** No two models in the references of the models [R] have the same id. *)
Definition distinct_ids (store : gmap Model ModelObj) (R : gset Model)
  : Prop :=
  ∀ r r' a b,
    r ∈ R → r' ∈ R →
    a ∈ ModelCap.references store r → b ∈ ModelCap.references store r' →
    id_of store a = id_of store b → a = b.

(** A store in which every reference leads to an object of the store. *)
Definition closed_store (store : gmap Model ModelObj) : Prop :=
  ∀ x o, store !! x = Some o →
         ModelCap.immediate_references o ⊆ dom store.

(** The record [to_json] writes for a model. *)
Definition record_of (store : gmap Model ModelObj) (m : Model)
  : ReferenceJson :=
  mkReferenceJson (ref_of store m)
    (json_of_value (ref_of store) <$> ModelCap._to_json_like (store !!! m)).

(** The ids of the roots of a document, and the ids of the models reachable
    from its roots. *)
Definition root_ids (s : State) : gset string :=
  set_map (id_of (models s)) (_roots (self s)).

Definition reachable_ids (s : State) : gset string :=
  set_map (id_of (models s)) (new_all_models_set s).

(** The class of every model of the store is the one [Model.get_class]
    gives for its type tag (its subtype, when it has one). *)
Definition registered (get_class : string -> option ModelClass)
  (store : gmap Model ModelObj) : Prop :=
  ∀ m o, store !! m = Some o →
    get_class (default (class_type (model_class o))
                       (class_subtype (model_class o)))
      = Some (model_class o).

(** The properties with references of every model of the store hold the
    models themselves, not written references. *)
Definition holds_models (store : gmap Model ModelObj) : Prop :=
  ∀ m o p v, store !! m = Some o → model_attrs o !! p = Some v →
    p ∈ ModelCap.properties_with_refs o → no_written_refs v = true.

(** A document that can be written and read back: its table is the
    closure of its roots, its title is set, its models are objects of a
    closed store and have ids of their own, classes [get_class] knows, and
    properties that hold models. *)
Definition well_formed (get_class : string -> option ModelClass) (s : State)
  : Prop :=
  closure_invariant s ∧
  is_Some (_title (self s)) ∧
  closed_store (models s) ∧
  _roots (self s) ⊆ dom (models s) ∧
  distinct_ids (models s) (_roots (self s)) ∧
  registered get_class (models s) ∧
  holds_models (models s).

(** The values that can be read back with the instances [instances]: they
    hold no written reference, and every model in them has its instance,
    [φ] of the model, entered under its id. *)
Definition readable (store : gmap Model ModelObj)
  (instances : gmap string Model) (φ : Model -> Model) (v : Value) : Prop :=
  no_written_refs v = true ∧
  ∀ x, x ∈ value_models v → instances !! id_of store x = Some (φ x).

(** ** Inputs the properties are tried on *)

(** A receiver with the three methods a [ModelChangedEvent] can reach. *)
Definition full_receiver : Dispatch.Receiver :=
  Dispatch.mkReceiver {[ "_document_changed"; "_document_patched";
                         "_document_model_changed" ]}.

(** A class with one property that holds references, [child], and the
    property [name]. *)
Definition Plot : ModelClass :=
  mkModelClass "Plot" None {[ "child" := true; "name" := false ]}.

(** Two models that refer to each other: [1] with id [a], [2] with id [b]. *)
Definition two_models : gmap Model ModelObj :=
  {[ 1%positive := mkModelObj "a" Plot {[ "child" := VModel 2%positive ]};
     2%positive := mkModelObj "b" Plot {[ "child" := VModel 1%positive ]} ]}.

(** A new document, with identity [0], next to the two models; the current
    document is another one. *)
Definition new_document_state : State :=
  mkState (Document_init 0 None) two_models ∅ 7 [] [].

(** The new document after [add_root] of model [1]: both models are in its
    table and point back to it. *)
Definition cycle_document_state : State :=
  mkState
    (mkDocument 0 {[1%positive]} (Some DEFAULT_TITLE) 0
       {[ "a" := 1%positive; "b" := 2%positive ]} MultiValuedDict.init [] [])
    two_models {[ 1%positive := 0; 2%positive := 0 ]} 7
    [RootAddedEvent 0 1%positive] [].

(** A listener table with two listeners, [1] and [2], on a new document. *)
Definition two_listeners_state : State :=
  mkState (set_callbacks [(1, 1); (2, 2)] (Document_init 0 None))
          two_models ∅ 7 [] [].

(** A listener that only looks. *)
Definition observer : Callable -> Event -> M unit := λ _ _, ret tt.




(** [Model.collect_models] for the examples: the models inside the value. *)
Definition collect_in_value (store : gmap Model ModelObj) (v : Value)
  : gset Model :=
  value_models v.

(** [Model.get_class] for the examples: it knows the class [Plot]. *)
Definition get_class_Plot (type : string) : option ModelClass :=
  if decide (type = "Plot") then Some Plot else None.

(** A handle of document [0], and events of that document of several
    kinds. *)
Definition a_handle : SessionCallback :=
  mkSessionCallback "u" 0 (mkWrapper 0 5) (PeriodicCallback 1000).

Definition mixed_events : list Event :=
  [SessionCallbackAdded 0 a_handle; TitleChangedEvent 0 "X";
   SessionCallbackRemoved 0 a_handle].

(** The property [child] of model [1] was set to a list of two models,
    model [1] itself and model [2]. *)
Definition children_changed : Event :=
  ModelChangedEvent 0 1%positive "child" VNone
    (VList [VModel 1%positive; VModel 2%positive]).

(** ** Queries and change notification *)

(** What a selector holds under a key: a string, or an object of another
    kind (a class, a predicate, ...), known here by its identity only. *)
Inductive SelectorValue :=
  | SelString (s : string)
  | SelOther (obj : nat).

Section queries.

Variable call_listener : Callable -> Event -> M unit.

(** [find(objs, selector)] of [bokeh.query]: the objects that match the
    selector; it reads the objects, and may raise. *)
Variable find :
  gmap Model ModelObj -> list Model -> gmap string SelectorValue ->
  result (list Model).

(** [get_model_by_name]: [name] is [None] or a string. *)
Definition get_model_by_name (name : option string) (s : State)
  : result (option Model) :=
  MultiValuedDict.get_one name (_all_models_by_name (self s)).

Definition _is_single_string_selector (selector : gmap string SelectorValue)
  (field : string) : bool :=
  if bool_decide (size selector ≠ 1) then false
  else
    match selector !! field with
    | None => false
    | Some (SelString _) => true
    | Some (SelOther _) => false
    end.

(** [select]: the list is that of [get_all], or what [find] yields. *)
Definition select (selector : gmap string SelectorValue) (s : State)
  : result (list Model) :=
  if _is_single_string_selector selector "name"
  then
    match selector !! "name" with
    | Some (SelString name) =>
      Ok (MultiValuedDict.get_all (Some name) (_all_models_by_name (self s)))
    | Some (SelOther _) | None =>
      (* not reached: the test above found a string under ["name"] *)
      Ok []
    end
  else find (models s) (map_to_list (_all_models (self s))).*2 selector.

Definition select_one (selector : gmap string SelectorValue) (s : State)
  : result (option Model) :=
  rbind (select selector s) (λ found,
    if bool_decide (1 < length found) then Raise ValueError
    else
      match found with
      | [] => Ok None
      | m :: _ => Ok (Some m)
      end).

(** A step on the index by name that may raise. *)
Definition update_by_name
  (f : gmap string (MultiValuedDict.slot Model) ->
       result (gmap string (MultiValuedDict.slot Model))) : M unit := λ s,
  match f (_all_models_by_name (self s)) with
  | Ok by_name =>
    Returned tt
      (with_self (λ d, set_all_models (_all_models d) by_name d) s)
  | Raise e => Raised e s
  end.

(** [_notify_change].  The index by name has strings for keys: the
    property [name] holds [None] or a string (modelled from the spec, where
    [name] is an optional string).  A value of another kind is not a name
    here and is passed over; the properties below are about names. *)
Definition _notify_change (model : Model) (attr : string) (old new : Value)
  : M unit := λ s,
  ((if bool_decide (attr = "name")
    then
      (match old with
       | VStr old =>
         update_by_name
           (MultiValuedDict.remove_value (Some old)
              (MultiValuedDict.PyObj model))
       | _ => ret tt
       end ;;
       match new with
       | VStr new =>
         update_by_name
           (MultiValuedDict.add_value (Some new)
              (MultiValuedDict.PyObj model))
       | _ => ret tt
       end)
    else ret tt) ;;
   _trigger_on_change call_listener
     (ModelChangedEvent (doc_ref (self s)) model attr old new)) s.

(** [add], deprecated: [add_root] on each object.  The decorator only
    warns. *)
Definition add (objects : list Model) : M unit :=
  for_each objects (add_root call_listener).

End queries.

(** ** More notions the properties are stated with *)

(** The dictionaries a [_MultiValuedDict] can hold: the empty one of
    [__init__], and what [add_value] and [remove_value] make of one it can
    hold when they return. *)
Inductive mvd_reachable {K V : Type} `{Countable K} `{Countable V}
  : gmap K (MultiValuedDict.slot V) -> Prop :=
  | mvd_reachable_init : mvd_reachable MultiValuedDict.init
  | mvd_reachable_add key value d d' :
      mvd_reachable d -> MultiValuedDict.add_value key value d = Ok d' ->
      mvd_reachable d'
  | mvd_reachable_remove key value d d' :
      mvd_reachable d -> MultiValuedDict.remove_value key value d = Ok d' ->
      mvd_reachable d'.

(** No key holds an empty [set]. *)
Definition no_empty_set {K V : Type} `{Countable K} `{Countable V}
  (d : gmap K (MultiValuedDict.slot V)) : Prop :=
  ∀ k, d !! k ≠ Some (MultiValuedDict.Many ∅).

(** The methods the [dispatch] of the class of an event looks for on the
    receiver, the one of the base class first. *)
Definition dispatch_chain (e : Event) : list string :=
  match e with
  | DocumentChangedEvent _ => ["_document_changed"]
  | DocumentPatchedEvent _ | TitleChangedEvent _ _
  | RootAddedEvent _ _ | RootRemovedEvent _ _ =>
    ["_document_changed"; "_document_patched"]
  | ModelChangedEvent _ _ _ _ _ =>
    ["_document_changed"; "_document_patched"; "_document_model_changed"]
  | SessionCallbackAdded _ _ =>
    ["_document_changed"; "_session_callback_added"]
  | SessionCallbackRemoved _ _ =>
    ["_document_changed"; "_session_callback_removed"]
  end.

Definition is_ModelChangedEvent (e : Event) : bool :=
  match e with
  | ModelChangedEvent _ _ _ _ _ => true
  | _ => false
  end.

(** An index by name agrees with a set of models and their names: under
    a name it lists the models of the set that have the name, and no
    other. *)
Definition name_index_agrees
  (by_name : gmap string (MultiValuedDict.slot Model)) (A : gset Model)
  (names : Model -> option string) : Prop :=
  ∀ n x, x ∈ MultiValuedDict.get_all (Some n) by_name ↔
         x ∈ A ∧ names x = Some n.

(** The index by name of a document is that of the models reachable from
    its roots, with the names they have. *)
Definition name_index_invariant (s : State) : Prop :=
  no_empty_set (_all_models_by_name (self s)) ∧
  name_index_agrees (_all_models_by_name (self s)) (new_all_models_set s)
    (name_of (models s)).

(** The value of the property [name] for a name, or for none. *)
Definition name_value (name : option string) : Value :=
  match name with
  | Some n => VStr n
  | None => VNone
  end.

(** The names of the models when model [m] had the name [old]. *)
Definition names_before (store : gmap Model ModelObj) (m : Model)
  (old : option string) (x : Model) : option string :=
  if decide (x = m) then old else name_of store x.

(** A state with another index by name. *)
Definition with_by_name (by_name : gmap string (MultiValuedDict.slot Model))
  (s : State) : State :=
  with_self (λ d, set_all_models (_all_models d) by_name d) s.

(** The models one event brings into the references of a patch, and the
    records it brings into its events. *)
Definition event_references
  (collect_models : gmap Model ModelObj -> Value -> gset Model)
  (s : State) (e : Event) : gset Model :=
  match e with
  | ModelChangedEvent _ model _ _ new =>
    if model_ne_value model new
    then collect_models (models s) new ∖ {[model]}
    else collect_models (models s) new
  | RootAddedEvent _ model => ModelCap.references (models s) model
  | _ => ∅
  end.

Definition event_records (store : gmap Model ModelObj) (e : Event)
  : list JsonEvent :=
  match e with
  | ModelChangedEvent _ model attr _ new =>
    [JsonModelChanged (ref_of store model) attr new]
  | RootAddedEvent _ model => [JsonRootAdded (ref_of store model)]
  | RootRemovedEvent _ model => [JsonRootRemoved (ref_of store model)]
  | TitleChangedEvent _ title => [JsonTitleChanged title]
  | _ => []
  end.

(** ** More inputs the properties are tried on *)

(** The dictionary [_MultiValuedDict] holds after [1] and [2] were added
    under ["p"] and [1] was removed again: a set with one value. *)
Definition one_left : gmap string (MultiValuedDict.slot nat) :=
  {[ "p" := MultiValuedDict.Many {[ 2 ]} ]}.

(** [_check_callback] for the examples: it rejects the callable [4]. *)
Definition rejecting_check (callback : Callable) : bool :=
  negb (bool_decide (callback = 4)).

(** Two models with the name ["p"]: [1] with id [a], [2] with id [b]. *)
Definition named_models : gmap Model ModelObj :=
  {[ 1%positive := mkModelObj "a" Plot {[ "name" := VStr "p" ]};
     2%positive := mkModelObj "b" Plot {[ "name" := VStr "p" ]} ]}.

(** A new document with model [1] of them as its root, and the document
    with both as roots, as [add_root] leaves them. *)
Definition one_named_state : State :=
  mkState
    (mkDocument 0 {[1%positive]} (Some DEFAULT_TITLE) 0
       {[ "a" := 1%positive ]}
       {[ "p" := MultiValuedDict.One 1%positive ]} [] [])
    named_models {[ 1%positive := 0 ]} 7 [RootAddedEvent 0 1%positive] [].

Definition named_document_state : State :=
  mkState
    (mkDocument 0 {[1%positive; 2%positive]} (Some DEFAULT_TITLE) 0
       {[ "a" := 1%positive; "b" := 2%positive ]}
       {[ "p" := MultiValuedDict.Many {[1%positive; 2%positive]} ]} [] [])
    named_models {[ 1%positive := 0; 2%positive := 0 ]} 7
    [RootAddedEvent 0 1%positive; RootAddedEvent 0 2%positive] [].

(** The same document after model [2] was given the name ["q"] and before
    the document is told. *)
Definition renamed_models : gmap Model ModelObj :=
  {[ 1%positive := mkModelObj "a" Plot {[ "name" := VStr "p" ]};
     2%positive := mkModelObj "b" Plot {[ "name" := VStr "q" ]} ]}.

Definition renamed_document_state : State :=
  mkState (self named_document_state) renamed_models
    (document_of named_document_state) 7 (emitted named_document_state) [].

(** The selector [{'name': 'p'}], and a [find] that finds nothing. *)
Definition name_p_selector : gmap string SelectorValue :=
  {[ "name" := SelString "p" ]}.

Definition find_nothing (store : gmap Model ModelObj) (objs : list Model)
  (selector : gmap string SelectorValue) : result (list Model) :=
  Ok [].

(** ** Two documents

    [_destructively_move] and [replace_with_json] work on two documents.
    The state has one [self]; the other document is kept beside it, and a
    method of the other document runs with the two exchanged.  The models,
    their back-pointers, the current document and the records are shared.
    What a listener does while the other document is [self] it does to
    that state: it has no hand on the document kept beside. *)
Record Docs := mkDocs {
  this : State;
  dest_doc : Document
}.

Inductive outcome2 (A : Type) :=
  | Returned2 (a : A) (w : Docs)
  | Raised2 (e : exn) (w : Docs)
  | OutOfFuel2 (w : Docs).
Arguments Returned2 {A} a w.
Arguments Raised2 {A} e w.
Arguments OutOfFuel2 {A} w.

Definition docs_of {A} (o : outcome2 A) : Docs :=
  match o with
  | Returned2 _ w | Raised2 _ w | OutOfFuel2 w => w
  end.

Definition bind2 {A B} (m : Docs -> outcome2 A) (f : A -> Docs -> outcome2 B)
  : Docs -> outcome2 B := λ w,
  match m w with
  | Returned2 a w' => f a w'
  | Raised2 e w' => Raised2 e w'
  | OutOfFuel2 w' => OutOfFuel2 w'
  end.

(** A method of [self]. *)
Definition on_this {A} (m : M A) : Docs -> outcome2 A := λ w,
  match m (this w) with
  | Returned a s => Returned2 a (mkDocs s (dest_doc w))
  | Raised e s => Raised2 e (mkDocs s (dest_doc w))
  | OutOfFuel s => OutOfFuel2 (mkDocs s (dest_doc w))
  end.

(** The two documents exchanged. *)
Definition switch (w : Docs) : Docs :=
  mkDocs (with_self (λ _, dest_doc w) (this w)) (self (this w)).

(** A method of [dest_doc]. *)
Definition on_dest {A} (m : M A) : Docs -> outcome2 A := λ w,
  match on_this m (switch w) with
  | Returned2 a w' => Returned2 a (switch w')
  | Raised2 e w' => Raised2 e (switch w')
  | OutOfFuel2 w' => OutOfFuel2 (switch w')
  end.

Section destructive_move.

Variable call_listener : Callable -> Event -> M unit.
Variable get_class : string -> option ModelClass.

(** [while self.roots: r = next(iter(self.roots)); self.remove_root(r);
    roots.append(r)], for at most [fuel] rounds *)
Fixpoint move_loop (fuel : nat) (roots : list Model) : M (list Model) := λ s,
  match elements (_roots (self s)) with
  | [] => Returned roots s
  | r :: _ =>
    match fuel with
    | 0 => OutOfFuel s
    | S fuel' =>
      (remove_root call_listener r ;; move_loop fuel' (roots ++ [r])) s
    end
  end.

(** [for r in roots: if r.document is not None: raise RuntimeError] *)
Definition check_detached (roots : list Model) : M unit :=
  for_each roots (λ r s,
    match document_of s !! r with
    | Some _ => Raised RuntimeError s
    | None => Returned tt s
    end).

(** [if len(self._all_models) != 0: raise RuntimeError] *)
Definition check_no_models : M unit := λ s,
  if bool_decide (size (_all_models (self s)) ≠ 0)
  then Raised RuntimeError s
  else Returned tt s.

(** [_destructively_move]: [dest_doc is self] compares the identities. *)
Definition _destructively_move (fuel : nat) : Docs -> outcome2 unit := λ w,
  if bool_decide (doc_ref (dest_doc w) = doc_ref (self (this w)))
  then Raised2 RuntimeError w
  else
    bind2 (on_dest (clear call_listener fuel)) (λ _,
    bind2 (on_this (_push_all_models_freeze ;;
                    try_finally (move_loop fuel []) _pop_all_models_freeze))
          (λ roots,
    bind2 (on_this (check_detached roots)) (λ _,
    bind2 (on_this check_no_models) (λ _,
    bind2 (on_dest (for_each roots (add_root call_listener))) (λ _,
    bind2 (on_this (λ s, Returned (title s) s)) (λ title,
    on_dest (title_setter call_listener title))))))) w.

(** [replace_with_json]: [doc] is the identity of the document
    [from_json] creates.  The document read is dropped in the end; [self]
    is the document the method was called on. *)
Definition replace_with_json (fuel : nat) (doc : DocRef) (json : DocJson)
  : M unit := λ s,
  match from_json call_listener get_class doc json s with
  | Returned _ s1 =>
    match _destructively_move fuel (mkDocs s1 (self s)) with
    | Returned2 _ w => Returned tt (this (switch w))
    | Raised2 e w => Raised e (this (switch w))
    | OutOfFuel2 w => OutOfFuel (this (switch w))
    end
  | Raised e s1 => Raised e (with_self (λ _, self s) s1)
  | OutOfFuel s1 => OutOfFuel (with_self (λ _, self s) s1)
  end.

End destructive_move.

(** ** Notions and inputs for documents read and moved *)

(** Two states that differ in the model objects at most. *)
Definition same_but_models (s s' : State) : Prop :=
  self s' = self s ∧ document_of s' = document_of s ∧
  io_curdoc s' = io_curdoc s ∧ emitted s' = emitted s ∧
  invoked s' = invoked s.

(** The type tag [_instantiate_references_json] looks up for a record. *)
Definition record_type (obj : ReferenceJson) : string :=
  default (ref_type (rj_ref obj)) (ref_subtype (rj_ref obj)).

(** The document whose root is model [1], beside a new document with
    identity [1]; and the same with a source that was created with
    [title=None]. *)
Definition two_documents : Docs :=
  mkDocs cycle_document_state (Document_init 1 None).

Definition untitled_documents : Docs :=
  mkDocs (with_self (set_title None) cycle_document_state)
         (Document_init 1 None).

(** The state [from_json] leaves when it reads the JSON of that document
    into a new document with identity [1]. *)
Definition read_back_state : State :=
  state_of (from_json observer get_class_Plot 1
              (to_json "0.11" cycle_document_state) cycle_document_state).

(** * Properties *)

(** ** _MultiValuedDict *)

Section mvd_facts.
Context {K V : Type} `{Countable K} `{Countable V}.
Import MultiValuedDict.

Lemma get_all_unfold (k : K) (d : gmap K (slot V)) :
  get_all (Some k) d =
  match d !! k with
  | None => []
  | Some (Many existing) => elements existing
  | Some (One existing) => [existing]
  end.
Proof. reflexivity. Qed.

(** Adding a value and removing it again always succeeds, and leaves
    under the key exactly the other values that were there. *)
Lemma add_then_remove_get_all (k : K) (v : V) (d : gmap K (slot V)) :
  ∃ d', add_then_remove k v d = Ok d' ∧
        ∀ x, x ∈ get_all (Some k) d' ↔ x ∈ get_all (Some k) d ∧ x ≠ v.
Proof.
  unfold add_then_remove, add_value. rewrite !get_all_unfold.
  destruct (d !! k) as [[e|s]|] eqn:Hk; cbn [rbind remove_value].
  - rewrite lookup_insert_eq. cbn [discard].
    case_bool_decide as Hsz.
    + eexists; split; [done|]. intros x.
      rewrite get_all_unfold, lookup_delete_eq.
      apply size_empty_inv in Hsz.
      split; [by intros ?%elem_of_nil|].
      intros [->%list_elem_of_singleton Hne]. set_solver.
    + eexists; split; [done|]. intros x.
      rewrite get_all_unfold, lookup_insert_eq, elem_of_elements.
      rewrite list_elem_of_singleton. set_solver.
  - rewrite lookup_insert_eq. cbn [discard].
    case_bool_decide as Hsz.
    + eexists; split; [done|]. intros x.
      rewrite get_all_unfold, lookup_delete_eq, elem_of_elements.
      apply size_empty_inv in Hsz.
      split; [by intros ?%elem_of_nil|]. set_solver.
    + eexists; split; [done|]. intros x.
      rewrite get_all_unfold, lookup_insert_eq, !elem_of_elements.
      set_solver.
  - rewrite lookup_insert_eq. cbn [eq_value].
    rewrite bool_decide_eq_true_2 by done.
    eexists; split; [done|]. intros x.
    rewrite get_all_unfold, lookup_delete_eq.
    split; [by intros ?%elem_of_nil|]. by intros [?%elem_of_nil _].
Qed.

(** C9 (as amended): when the key holds no value other than [v], adding
    [v] under it and removing it again leaves [get_all] empty. *)
Theorem add_then_remove_get_all_empty (k : K) (v : V) (d : gmap K (slot V)) :
  (∀ x, x ∈ get_all (Some k) d → x = v) →
  ∃ d', add_then_remove k v d = Ok d' ∧ get_all (Some k) d' = [].
Proof.
  intros Honly.
  destruct (add_then_remove_get_all k v d) as (d' & Hd' & Hall).
  exists d'. split; [done|].
  apply elem_of_nil_inv. intros x Hx.
  apply Hall in Hx as [Hx Hne]. by apply Hne, Honly.
Qed.

End mvd_facts.

(** A key that holds only the value added: [2] under ["p"]. *)
Lemma add_then_remove_get_all_empty_witness :
  ∃ d', MultiValuedDict.add_then_remove "p" 2%nat
          ({["p" := MultiValuedDict.One 2%nat]} : gmap string _) = Ok d' ∧
        MultiValuedDict.get_all (Some "p") d' = [].
Proof.
  apply (add_then_remove_get_all_empty "p" 2%nat {["p" := MultiValuedDict.One 2%nat]}).
  intros x Hx. rewrite get_all_unfold, lookup_singleton_eq in Hx.
  by apply list_elem_of_singleton in Hx.
Defined.

(** C9 (as stated) fails when the key already holds another value: with
    [1] under ["p"], adding [2] and removing it leaves [1] there. *)
Lemma add_then_remove_keeps_other_values :
  ∃ d', MultiValuedDict.add_then_remove "p" 2%nat
          ({["p" := MultiValuedDict.One 1%nat]} : gmap string _) = Ok d' ∧
        MultiValuedDict.get_all (Some "p") d' = [1%nat].
Proof. eexists. split; [vm_compute; reflexivity | vm_compute; reflexivity]. Qed.

(** ** Events *)

Section dispatch_facts.
Import Dispatch.

Lemma andthen_methods (a b : run) :
  ∀ n, n ∈ methods_called (andthen a b) →
       n ∈ methods_called a ∨ n ∈ methods_called b.
Proof.
  intros n. unfold andthen, methods_called.
  destruct a as [ca [e|]]; cbn; [by left|].
  rewrite map_app, elem_of_app. tauto.
Qed.

Lemma call_methods (receiver : Receiver) (name : string) (e : Event) :
  ∀ n, n ∈ methods_called (call receiver name e) → n = name.
Proof.
  intros n. unfold call, methods_called.
  destruct (hasattr receiver name); cbn.
  - by intros ?%list_elem_of_singleton.
  - by intros ?%elem_of_nil.
Qed.

(** C3 (what the code does): whatever the receiver has, dispatching a
    [ModelChangedEvent] never calls [_document_model_changed]; a receiver
    with all three methods has [_document_changed] called once and
    [_document_patched] twice. *)
Theorem ModelChangedEvent_dispatch_never_model_changed
  (document : DocRef) (model : Model) (attr : string) (old new : Value) :
  let e := ModelChangedEvent document model attr old new in
  (∀ receiver,
     "_document_model_changed" ∉ methods_called (dispatch e receiver)) ∧
  dispatch e full_receiver =
    ([mkCall "_document_changed" e; mkCall "_document_patched" e;
      mkCall "_document_patched" e], None).
Proof.
  intros e. split; [|reflexivity].
  intros receiver Hin. cbn [dispatch e] in Hin.
  unfold ModelChangedEvent_dispatch, DocumentPatchedEvent_dispatch,
    DocumentChangedEvent_dispatch in Hin.
  repeat (apply andthen_methods in Hin as [Hin|Hin]);
    repeat match type of Hin with
           | context [if ?b then _ else _] => destruct b
           end;
    try (apply call_methods in Hin; discriminate);
    by apply elem_of_nil in Hin.
Qed.

End dispatch_facts.

(** ** Session callbacks *)

(** C5 (what the code does): [remove] of a handle raises [AttributeError]
    for every handle and in every state, and leaves the state as it was:
    the handle has [_document], not [document].  The registration stays and
    no event is emitted. *)
Theorem SessionCallback_remove_raises
  (call_listener : Callable -> Event -> M unit)
  (h : SessionCallback) (s : State) :
  SessionCallback_remove call_listener h s = Raised AttributeError s.
Proof.
  unfold SessionCallback_remove.
  assert (SessionCallback_getattr h "document" = Raise AttributeError) as ->;
    [|done].
  unfold SessionCallback_getattr.
  destruct (sc_kind h); reflexivity.
Qed.

(** The handle [add_periodic_callback] returns is registered under the
    user's callable, so even the call [remove] would make has no entry to
    find: the key it passes is the handle. *)
Lemma add_periodic_callback_then_remove :
  let added := add_periodic_callback observer "u" 5 1000 None
                 new_document_state in
  ∃ h s,
    added = Returned h s ∧
    PyDict.get (KeyCallable 5) (_session_callbacks (self s)) = Some h ∧
    PyDict.get (KeyHandle h) (_session_callbacks (self s)) = None ∧
    emitted s = [SessionCallbackAdded 0 h] ∧
    SessionCallback_remove observer h s = Raised AttributeError s.
Proof. do 2 eexists. repeat split; reflexivity. Qed.

(** Removing a callable that was never added raises [KeyError]. *)
Lemma _remove_session_callback_unknown
  (call_listener : Callable -> Event -> M unit)
  (callback : SessionKey) (s : State) :
  PyDict.get callback (_session_callbacks (self s)) = None →
  _remove_session_callback call_listener callback s = Raised KeyError s.
Proof. intros Hget. unfold _remove_session_callback. by rewrite Hget. Qed.

(** ** Patches *)

Section patch_facts.
Variable collect_models : gmap Model ModelObj -> Value -> gset Model.

(** An event with no branch of its own adds nothing. *)
Lemma patch_step_other_kind (s : State) (acc : gset Model * list JsonEvent)
  (event : Event) :
  event_document event = doc_ref (self s) →
  patched_kind event = false →
  patch_step collect_models s acc event = Ok acc.
Proof.
  intros Hdoc Hkind. unfold patch_step.
  rewrite bool_decide_eq_false_2 by (by intros []).
  destruct acc. by destruct event.
Qed.

Lemma patch_step_ok (s : State) (acc : gset Model * list JsonEvent)
  (event : Event) :
  event_document event = doc_ref (self s) →
  ∃ acc', patch_step collect_models s acc event = Ok acc'.
Proof.
  intros Hdoc. unfold patch_step.
  rewrite bool_decide_eq_false_2 by (by intros []).
  destruct event; eauto.
Qed.

Lemma patch_loop_filter (s : State) (events : list Event) :
  Forall (λ e, event_document e = doc_ref (self s)) events →
  ∀ acc, ∃ acc',
    patch_loop collect_models s events acc = Ok acc' ∧
    patch_loop collect_models s (filter (λ e, patched_kind e) events) acc
      = Ok acc'.
Proof.
  induction 1 as [|e events Hdoc _ IH]; intros acc;
    [eexists; split; reflexivity|].
  cbn [patch_loop]. rewrite filter_cons.
  destruct (patched_kind e) eqn:Hkind.
  - rewrite decide_True by exact I. cbn [patch_loop].
    destruct (patch_step_ok s acc e Hdoc) as [acc1 ->]. cbn. apply IH.
  - rewrite decide_False by (intros []).
    rewrite patch_step_other_kind by done. cbn. apply IH.
Qed.

(** C10: when all the events belong to this document, the patch is made
    without an error, and it is the patch of the events that are a
    [ModelChangedEvent], [RootAddedEvent], [RootRemovedEvent] or
    [TitleChangedEvent]: the other events add no record and no
    reference. *)
Theorem patch_skips_other_events (s : State) (events : list Event) :
  Forall (λ e, event_document e = doc_ref (self s)) events →
  ∃ p,
    create_json_patch_string collect_models events s = Ok p ∧
    create_json_patch_string collect_models
      (filter (λ e, patched_kind e) events) s = Ok p.
Proof.
  intros Hdocs. unfold create_json_patch_string.
  destruct (patch_loop_filter s events Hdocs (∅, [])) as (acc & -> & ->).
  by eexists.
Qed.

Lemma model_ne_value_true (m : Model) (value : Value) :
  model_ne_value m value = true ↔ value ≠ VModel m.
Proof.
  destruct value; cbn; try (split; [discriminate|done]).
  case_bool_decide; cbn; split; try done; try congruence.
Qed.

(** What one round of the loop leaves in [references]: what was there,
    and what the event brings. *)
Lemma patch_step_references (s : State)
  (acc acc' : gset Model * list JsonEvent) (event : Event) :
  patch_step collect_models s acc event = Ok acc' →
  ∀ a, a ∈ acc'.1 ↔
    a ∈ acc.1 ∨
    match event with
    | ModelChangedEvent _ model _ _ new =>
      a ∈ collect_models (models s) new ∧ (a ≠ model ∨ new = VModel model)
    | RootAddedEvent _ root => a ∈ ModelCap.references (models s) root
    | _ => False
    end.
Proof.
  unfold patch_step. case_bool_decide; [discriminate|].
  destruct event; intros [= <-] a; cbn [fst]; try (by intuition).
  - destruct (model_ne_value model new) eqn:Hne.
    + apply model_ne_value_true in Hne.
      rewrite elem_of_union, elem_of_difference, elem_of_singleton.
      split; [intros [?|[? ?]]; [by left|by right; split; [|left]]|].
      intros [?|[? [?|?]]]; [by left|by right|done].
    + assert (new = VModel model) as Hnew.
      { destruct new; try discriminate Hne. cbn in Hne.
        apply negb_false_iff, bool_decide_eq_true in Hne. by subst. }
      rewrite elem_of_union.
      split; [intros [?|?]; [by left|by right; split; [|right]]|].
      intros [?|[? _]]; [by left|by right].
  - by rewrite elem_of_union.
Qed.

Lemma patch_loop_references (s : State) (events : list Event) :
  ∀ acc acc',
    patch_loop collect_models s events acc = Ok acc' →
    ∀ a, a ∈ acc'.1 ↔
      a ∈ acc.1 ∨
      (∃ document model attr old new,
         ModelChangedEvent document model attr old new ∈ events ∧
         a ∈ collect_models (models s) new ∧
         (a ≠ model ∨ new = VModel model)) ∨
      (∃ document root,
         RootAddedEvent document root ∈ events ∧
         a ∈ ModelCap.references (models s) root).
Proof.
  induction events as [|e events IH]; intros acc acc'; cbn [patch_loop].
  - intros [= <-] a. split; [by left|].
    intros [?|[(? & ? & ? & ? & ? & ?%elem_of_nil & _)
              |(? & ? & ?%elem_of_nil & _)]]; done.
  - destruct (patch_step collect_models s acc e) as [acc1|] eqn:Hstep;
      cbn [rbind]; [|discriminate].
    intros Hloop a. rewrite (IH _ _ Hloop a).
    rewrite (patch_step_references s acc acc1 e Hstep a).
    split.
    + intros [[Ha|He]|[(d & m & at' & o & n & Hin & Hc)|(d & r & Hin & Hc)]].
      * by left.
      * right. destruct e; try done.
        -- left. eexists _, _, _, _, _. split; [by left|done].
        -- right. eexists _, _. split; [by left|done].
      * right; left. exists d, m, at', o, n. split; [by right|done].
      * right; right. exists d, r. split; [by right|done].
    + intros [Ha|[(d & m & at' & o & n & [<-|Hin]%elem_of_cons & Hc)
                 |(d & r & [<-|Hin]%elem_of_cons & Hc)]].
      * by left; left.
      * by left; right.
      * right; left. by exists d, m, at', o, n.
      * by left; right.
      * right; right. by exists d, r.
Qed.

(** C4: when a patch is made from a list of events, the references it
    carries are the records of a set of models that holds exactly what the
    events bring: for a [ModelChangedEvent] the models [collect_models]
    finds in the new value, without the changed model itself unless the
    new value is that very model, and for a [RootAddedEvent] the
    references of the root.  So every [ModelChangedEvent] of the list has
    the models of its new value in the set, apart from its own model when
    that is not the new value; and its own model is in the set only when
    the new value is that model or another event of the list brings it. *)
Theorem patch_references_of_model_changed (s : State)
  (events : list Event) (p : Patch) :
  create_json_patch_string collect_models events s = Ok p →
  ∃ references : gset Model,
    patch_references p =
      serialize_references (models s)
        (_references_json (models s) (elements references)) ∧
    (∀ a, a ∈ references ↔
       (∃ document model attr old new,
          ModelChangedEvent document model attr old new ∈ events ∧
          a ∈ collect_models (models s) new ∧
          (a ≠ model ∨ new = VModel model)) ∨
       (∃ document root,
          RootAddedEvent document root ∈ events ∧
          a ∈ ModelCap.references (models s) root)) ∧
    (∀ document model attr old new,
       ModelChangedEvent document model attr old new ∈ events →
       (new ≠ VModel model →
        collect_models (models s) new ∖ {[model]} ⊆ references) ∧
       (new = VModel model →
        collect_models (models s) new ⊆ references)) ∧
    (∀ document model attr old new,
       events = [ModelChangedEvent document model attr old new] →
       (new ≠ VModel model →
        references = collect_models (models s) new ∖ {[model]}) ∧
       (new = VModel model →
        references = collect_models (models s) new)).
Proof.
  unfold create_json_patch_string. intros Hp.
  destruct (patch_loop collect_models s events (∅, [])) as [acc|] eqn:Hloop;
    cbn in Hp; [|discriminate].
  injection Hp as <-. exists acc.1. split; [done|].
  assert (∀ a, a ∈ acc.1 ↔
       (∃ document model attr old new,
          ModelChangedEvent document model attr old new ∈ events ∧
          a ∈ collect_models (models s) new ∧
          (a ≠ model ∨ new = VModel model)) ∨
       (∃ document root,
          RootAddedEvent document root ∈ events ∧
          a ∈ ModelCap.references (models s) root)) as Hiff.
  { intros a. rewrite (patch_loop_references s events _ _ Hloop a).
    cbn [fst]. split; [|by right]. by intros [?%elem_of_empty|?]. }
  split; [exact Hiff|]. split.
  - intros document model attr old new Hin. split; intros Hnew a Ha.
    + apply elem_of_difference in Ha as [Ha Hne].
      rewrite elem_of_singleton in Hne.
      apply Hiff. left. exists document, model, attr, old, new.
      split; [done|]. split; [done|by left].
    + apply Hiff. left. exists document, model, attr, old, new.
      split; [done|]. split; [done|by right].
  - intros document model attr old new ->. split; intros Hnew;
      apply set_eq; intros a; rewrite Hiff.
    + rewrite elem_of_difference, elem_of_singleton. split.
      * intros [(d & m & at' & o & n & Hin & Hc & Hor)|(d & r & Hin & _)].
        -- apply list_elem_of_singleton in Hin. injection Hin as -> -> -> -> ->.
           split; [done|]. by destruct Hor.
        -- apply list_elem_of_singleton in Hin. discriminate.
      * intros [Hc Hne]. left. exists document, model, attr, old, new.
        split; [by apply list_elem_of_singleton|]. split; [done|by left].
    + split.
      * intros [(d & m & at' & o & n & Hin & Hc & Hor)|(d & r & Hin & _)].
        -- apply list_elem_of_singleton in Hin.
           by injection Hin as -> -> -> -> ->.
        -- apply list_elem_of_singleton in Hin. discriminate.
      * intros Hc. left. exists document, model, attr, old, new.
        split; [by apply list_elem_of_singleton|]. split; [done|by right].
Qed.

End patch_facts.

(** Three events of document [0], one of them with a branch of its own. *)
Lemma patch_skips_other_events_witness :
  Forall (λ e, event_document e = doc_ref (self new_document_state))
         mixed_events ∧
  ∃ p,
    create_json_patch_string collect_in_value mixed_events new_document_state
      = Ok p ∧
    create_json_patch_string collect_in_value
      (filter (λ e, patched_kind e) mixed_events) new_document_state = Ok p.
Proof.
  assert (Forall (λ e, event_document e = doc_ref (self new_document_state))
            mixed_events) as Hdocs by (repeat constructor).
  split; [exact Hdocs|].
  exact (patch_skips_other_events collect_in_value new_document_state
           mixed_events Hdocs).
Defined.

(** The patch of one change, of [child] of model [1] to the list of the
    models [1] and [2]: [collect_models] finds both in the new value, and
    the references of the patch are model [2] alone. *)
Lemma patch_references_of_model_changed_witness :
  ∃ (p : Patch) (references : gset Model),
    create_json_patch_string collect_in_value [children_changed]
      new_document_state = Ok p ∧
    patch_references p =
      serialize_references two_models
        (_references_json two_models (elements references)) ∧
    collect_in_value two_models (VList [VModel 1%positive; VModel 2%positive])
      = {[1%positive; 2%positive]} ∧
    references = {[1%positive; 2%positive]} ∖ {[1%positive]}.
Proof.
  destruct (create_json_patch_string collect_in_value [children_changed]
              new_document_state) as [p|] eqn:Hp; [|discriminate Hp].
  destruct (patch_references_of_model_changed collect_in_value
              new_document_state [children_changed] p Hp)
    as (references & Hrefs & _ & _ & Hone).
  assert (collect_in_value two_models
            (VList [VModel 1%positive; VModel 2%positive])
          = {[1%positive; 2%positive]}) as Hcollect.
  { vm_compute. reflexivity. }
  exists p, references. split; [reflexivity|]. split; [exact Hrefs|].
  split; [exact Hcollect|].
  destruct (Hone 0 1%positive "child" VNone
              (VList [VModel 1%positive; VModel 2%positive]) eq_refl)
    as [Hne _].
  rewrite <-Hcollect. apply Hne. discriminate.
Defined.

(** ** Listeners and the current document *)

Lemma values_lookup_lt (d : list (Callable * Callable)) (i : nat) :
  i < length d → ∃ cb, PyDict.values d !! i = Some cb.
Proof.
  intros Hlt. apply lookup_lt_is_Some_2.
  unfold PyDict.values. by rewrite length_map.
Qed.



(** [_trigger_on_change], step by step: the event is put on record, the
    current document is set, the loop runs, and the current document is put
    back. *)
Lemma _trigger_on_change_unfold
  (call_listener : Callable -> Event -> M unit) (e : Event) (s : State) :
  _trigger_on_change call_listener e s =
  match invoke_callbacks_from call_listener
          (length (_callbacks (self s))) (length (_callbacks (self s))) e
          (with_io_curdoc (doc_ref (self s)) (record_emitted e s)) with
  | Returned _ s2 => Returned tt (with_io_curdoc (io_curdoc s) s2)
  | Raised ex s2 => Raised ex (with_io_curdoc (io_curdoc s) s2)
  | OutOfFuel s2 => OutOfFuel s2
  end.
Proof.
  unfold _trigger_on_change, bind, modify, _with_self_as_curdoc, curdoc,
    try_finally, set_curdoc, invoke_callbacks, modify. cbn.
  by destruct (invoke_callbacks_from _ _ _ _ _) as [[] ?|? ?|?].
Qed.





(** Listeners that always return. *)
Lemma for_each_call_returns
  (call_listener : Callable -> Event -> M unit) (e : Event) :
  (∀ cb s1, ∃ s2, call_listener cb e s1 = Returned tt s2) →
  ∀ cbs s, ∃ s',
    for_each cbs (λ cb, call_callback call_listener cb e) s = Returned tt s'.
Proof.
  intros Hret. induction cbs as [|cb cbs IH]; intros s; [by eexists|].
  cbn [for_each]. unfold bind, call_callback at 1.
  destruct (Hret cb (record_invoked (mkInvocation cb e (io_curdoc s)) s))
    as [s1 ->].
  apply IH.
Qed.






(** With listeners that only look, the loop calls every listener of the
    table and changes nothing else. *)
Lemma invoke_callbacks_from_observers
  (call_listener : Callable -> Event -> M unit) (e : Event) (used : nat) :
  observers call_listener →
  ∀ remaining s,
    remaining ≤ used → length (_callbacks (self s)) = used →
    invoke_callbacks_from call_listener remaining used e s =
    Returned tt
      (mkState (self s) (models s) (document_of s) (io_curdoc s) (emitted s)
         (invoked s ++
            invocations e (io_curdoc s)
              (drop (used - remaining)
                    (PyDict.values (_callbacks (self s)))))).
Proof.
  intros Hobs. induction remaining as [|r IH]; intros s Hle Hlen;
    cbn [invoke_callbacks_from]; rewrite bool_decide_eq_true_2 by done.
  - rewrite Nat.sub_0_r, drop_ge
      by (unfold PyDict.values; rewrite length_map; lia).
    cbn. rewrite app_nil_r. by destruct s.
  - destruct (values_lookup_lt (_callbacks (self s)) (used - S r))
      as [cb Hcb]; [lia|].
    rewrite Hcb. unfold bind, call_callback. rewrite Hobs.
    rewrite IH by (done || lia).
    rewrite (drop_S _ _ _ Hcb).
    replace (used - r) with (S (used - S r)) by lia.
    cbn. by rewrite <-app_assoc.
Qed.

Lemma _trigger_on_change_observers
  (call_listener : Callable -> Event -> M unit) (e : Event) (s : State) :
  observers call_listener →
  _trigger_on_change call_listener e s = Returned tt (after_trigger e s).
Proof.
  intros Hobs. rewrite _trigger_on_change_unfold.
  rewrite (invoke_callbacks_from_observers call_listener e _ Hobs)
    by done.
  by rewrite Nat.sub_diag, drop_0.
Qed.

Lemma observer_observers : observers observer.
Proof. by intros cb e s. Qed.

(** With listeners that only look, the loop over the live table and the
    loop over a snapshot do the same. *)
Lemma for_each_call_observers
  (call_listener : Callable -> Event -> M unit) (e : Event)
  (l : list Callable) :
  observers call_listener →
  ∀ s, for_each l (λ cb, call_callback call_listener cb e) s =
       Returned tt
         (mkState (self s) (models s) (document_of s) (io_curdoc s)
            (emitted s) (invoked s ++ invocations e (io_curdoc s) l)).
Proof.
  intros Hobs. induction l as [|cb l IH]; intros s.
  - cbn. rewrite app_nil_r. by destruct s.
  - cbn [for_each]. unfold bind, call_callback at 1. rewrite Hobs, IH.
    cbn. by rewrite <-app_assoc.
Qed.

Lemma _trigger_on_change_over_snapshot_observers
  (call_listener : Callable -> Event -> M unit) (e : Event) (s : State) :
  observers call_listener →
  _trigger_on_change_over_snapshot call_listener e s
    = _trigger_on_change call_listener e s.
Proof.
  intros Hobs. rewrite _trigger_on_change_observers by done.
  unfold _trigger_on_change_over_snapshot, bind, modify,
    _with_self_as_curdoc, curdoc, try_finally, set_curdoc, bind, modify.
  cbn. by rewrite for_each_call_observers.
Qed.

(** ** Title *)

(** C7: setting the title to [None] raises [ValueError] and leaves the
    state as it was; with listeners that only look, setting it to a value
    other than the current title stores the value and emits one
    [TitleChangedEvent] with it, and nothing else changes; setting it to
    the current title emits nothing and changes nothing. *)
Theorem title_setter_spec
  (call_listener : Callable -> Event -> M unit) (s : State) :
  observers call_listener →
  title_setter call_listener None s = Raised ValueError s ∧
  (∀ t, _title (self s) ≠ Some t →
     ∃ s', title_setter call_listener (Some t) s = Returned tt s' ∧
           _title (self s') = Some t ∧
           emitted s' = emitted s ++ [TitleChangedEvent (doc_ref (self s)) t] ∧
           self s' = set_title (Some t) (self s) ∧
           models s' = models s ∧ document_of s' = document_of s ∧
           io_curdoc s' = io_curdoc s) ∧
  (∀ t, _title (self s) = Some t →
     title_setter call_listener (Some t) s = Returned tt s).
Proof.
  intros Hobs. split; [done|]. split; intros t Ht; unfold title_setter.
  - rewrite bool_decide_eq_true_2 by done.
    unfold bind, modify. rewrite _trigger_on_change_observers by done.
    eexists. split; [done|]. by cbn.
  - by rewrite bool_decide_eq_false_2 by (by intros []).
Qed.

(** The three cases on a new document, whose title is the default one. *)
Lemma title_setter_spec_witness :
  observers observer ∧
  title_setter observer None new_document_state
    = Raised ValueError new_document_state ∧
  (∃ s', title_setter observer (Some "X") new_document_state
           = Returned tt s' ∧
         _title (self s') = Some "X" ∧
         emitted s' = [TitleChangedEvent 0 "X"]) ∧
  title_setter observer (Some DEFAULT_TITLE) new_document_state
    = Returned tt new_document_state.
Proof.
  destruct (title_setter_spec observer new_document_state observer_observers)
    as (Hnone & Hnew & Hsame).
  split; [exact observer_observers|]. split; [exact Hnone|]. split.
  - destruct (Hnew "X") as (s' & H1 & H2 & H3 & _); [discriminate|].
    exists s'. by repeat split.
  - by apply Hsame.
Defined.

(** ** The set of all models *)

Lemma recompute_fold_ok (store : gmap Model ModelObj) (l : list Model) :
  ∀ a b, ∃ b',
    foldl (recompute_step store) (Ok (a, b)) l =
    Ok (foldl (λ acc m, <[id_of store m := m]> acc) a l, b').
Proof.
  induction l as [|m l IH]; intros a b; [by eexists|].
  cbn [foldl]. unfold recompute_step at 2. cbn [rbind fst snd].
  destruct (name_of store m) as [n|]; [|apply IH].
  unfold MultiValuedDict.add_value.
  destruct (b !! n) as [[?|?]|]; cbn [rbind]; apply IH.
Qed.

Lemma for_each_detach (l : list Model) :
  ∀ s, for_each l _detach_document s =
       Returned tt
         (with_document_of (λ b, foldl (λ b d, delete d b) b l) s).
Proof.
  induction l as [|d l IH]; intros s; [by destruct s|].
  cbn [for_each]. unfold bind, _detach_document at 1, modify.
  rewrite IH. by destruct s.
Qed.

Lemma for_each_attach (doc : DocRef) (l : list Model) :
  ∀ s, for_each l (λ a, _attach_document a doc) s =
       Returned tt
         (with_document_of (λ b, foldl (λ b a, <[a := doc]> b) b l) s).
Proof.
  induction l as [|a l IH]; intros s; [by destruct s|].
  cbn [for_each]. unfold bind, _attach_document at 1, modify.
  rewrite IH. by destruct s.
Qed.

(** [_recompute_all_models] always returns, and leaves the state
    [recomputed_state] describes. *)
Lemma _recompute_all_models_spec (s : State) :
  ∃ by_name,
    _recompute_all_models s = Returned tt (recomputed_state by_name s).
Proof.
  unfold _recompute_all_models.
  destruct (recompute_fold_ok (models s)
              (elements (new_all_models_set s)) ∅ MultiValuedDict.init)
    as [by_name Hfold].
  exists by_name. unfold new_all_models_set in Hfold.
  unfold bind at 1. rewrite Hfold. cbn [lift ret].
  unfold bind at 1. rewrite for_each_detach.
  unfold bind at 1. rewrite for_each_attach.
  by destruct s.
Qed.

Lemma elem_of_foldl_references (store : gmap Model ModelObj)
  (l : list Model) :
  ∀ (A : gset Model) x,
    x ∈ foldl (λ acc r, acc ∪ ModelCap.references store r) A l ↔
    x ∈ A ∨ ∃ r, r ∈ l ∧ x ∈ ModelCap.references store r.
Proof.
  induction l as [|r l IH]; intros A x; cbn [foldl].
  - split; [by left|]. intros [?|(r & ?%elem_of_nil & _)]; done.
  - rewrite IH, elem_of_union. split.
    + intros [[?|?]|(r' & ? & ?)]; [by left| |].
      * right. exists r. split; [by left|done].
      * right. exists r'. split; [by right|done].
    + intros [?|(r' & [->|?]%elem_of_cons & ?)].
      * by left; left.
      * by left; right.
      * right. by exists r'.
Qed.

Lemma elem_of_new_all_models_set (s : State) (x : Model) :
  x ∈ new_all_models_set s ↔
  ∃ r, r ∈ _roots (self s) ∧ x ∈ ModelCap.references (models s) r.
Proof.
  unfold new_all_models_set. rewrite elem_of_foldl_references.
  split.
  - intros [?%elem_of_empty|(r & Hr%elem_of_elements & ?)]; [done|].
    by exists r.
  - intros (r & Hr & ?). right. exists r. by rewrite elem_of_elements.
Qed.

Lemma lookup_foldl_insert_id (store : gmap Model ModelObj) (l : list Model) :
  (∀ a b, a ∈ l → b ∈ l → id_of store a = id_of store b → a = b) →
  ∀ i m,
    foldl (λ acc m, <[id_of store m := m]> acc) (∅ : gmap string Model) l
      !! i = Some m ↔
    m ∈ l ∧ id_of store m = i.
Proof.
  induction l as [|x l IH] using rev_ind; intros Hinj i m.
  - cbn. rewrite lookup_empty. split; [done|].
    by intros [?%elem_of_nil _].
  - rewrite foldl_app. cbn [foldl].
    destruct (decide (id_of store x = i)) as [<-|Hne].
    + rewrite lookup_insert_eq. split.
      * intros [= <-]. split; [|done]. apply elem_of_app. right. by left.
      * intros [Hm Hid]. f_equal. symmetry. apply Hinj; [done| |done].
        apply elem_of_app. right. by left.
    + rewrite lookup_insert_ne by done. rewrite IH.
      * rewrite elem_of_app, list_elem_of_singleton.
        split; [intros [? ?]; by split; [left|]|].
        intros [[?| ->] ?]; done.
      * intros a b Ha Hb. apply Hinj; apply elem_of_app; by left.
Qed.

Lemma lookup_foldl_insert_const {A} (d : A) (l : list Model) :
  ∀ (b : gmap Model A) x,
    foldl (λ b a, <[a := d]> b) b l !! x =
    if decide (x ∈ l) then Some d else b !! x.
Proof.
  induction l as [|a l IH]; intros b x; cbn [foldl].
  - by rewrite decide_False by (by intros ?%elem_of_nil).
  - rewrite IH. destruct (decide (x ∈ l)) as [Hin|Hnin].
    + by rewrite decide_True by (by right).
    + destruct (decide (x = a)) as [->|Hne].
      * rewrite lookup_insert_eq. by rewrite decide_True by (by left).
      * rewrite lookup_insert_ne by done.
        rewrite decide_False; [done|].
        by intros [?|?]%elem_of_cons.
Qed.

Lemma lookup_foldl_delete {A} (l : list Model) :
  ∀ (b : gmap Model A) x,
    foldl (λ b d, delete d b) b l !! x =
    if decide (x ∈ l) then None else b !! x.
Proof.
  induction l as [|a l IH]; intros b x; cbn [foldl].
  - by rewrite decide_False by (by intros ?%elem_of_nil).
  - rewrite IH. destruct (decide (x ∈ l)) as [Hin|Hnin].
    + by rewrite decide_True by (by right).
    + destruct (decide (x = a)) as [->|Hne].
      * rewrite lookup_delete_eq. by rewrite decide_True by (by left).
      * rewrite lookup_delete_ne by done.
        rewrite decide_False; [done|].
        by intros [?|?]%elem_of_cons.
Qed.

Lemma lookup_reattached (s : State) (x : Model) :
  reattached s !! x =
  if decide (x ∈ new_all_models_set s
               ∖ (map_img (_all_models (self s)) : gset Model))
  then Some (doc_ref (self s))
  else if decide (x ∈ (map_img (_all_models (self s)) : gset Model)
                        ∖ new_all_models_set s)
       then None
       else document_of s !! x.
Proof.
  unfold reattached.
  rewrite lookup_foldl_insert_const, lookup_foldl_delete.
  repeat case_decide; rewrite ?elem_of_elements in *; done.
Qed.

(** What [_recompute_all_models] establishes: the closure invariant, when
    the reachable models have distinct ids and those of them that were in
    the table before point back to the document. *)
Lemma recomputed_state_invariant
  (by_name : gmap string (MultiValuedDict.slot Model)) (s : State) :
  distinct_ids (models s) (_roots (self s)) →
  (∀ i m, _all_models (self s) !! i = Some m → m ∈ new_all_models_set s →
          document_of s !! m = Some (doc_ref (self s))) →
  closure_invariant (recomputed_state by_name s).
Proof.
  intros Hids Hold.
  assert (∀ i m, recomputed s !! i = Some m ↔
                 m ∈ new_all_models_set s ∧ id_of (models s) m = i) as Hrec.
  { intros i m. unfold recomputed. rewrite lookup_foldl_insert_id.
    - by rewrite elem_of_elements.
    - intros a b Ha%elem_of_elements Hb%elem_of_elements.
      apply elem_of_new_all_models_set in Ha as (r & Hr & Ha).
      apply elem_of_new_all_models_set in Hb as (r' & Hr' & Hb).
      by apply (Hids r r'). }
  split; intros i m; cbn.
  - by rewrite Hrec, elem_of_new_all_models_set.
  - intros [Hnew _]%Hrec. rewrite lookup_reattached.
    destruct (decide (m ∈ (map_img (_all_models (self s)) : gset Model)))
      as [Hin|Hnin].
    + rewrite decide_False by set_solver.
      rewrite decide_False by set_solver.
      apply elem_of_map_img in Hin as [j Hj]. by eapply Hold.
    + rewrite decide_True by set_solver. done.
Qed.

(** ** Roots *)

Lemma bind_assoc {A B C} (m : M A) (f : A -> M B) (g : B -> M C) (s : State) :
  bind m (λ x, bind (f x) g) s = bind (bind m f) g s.
Proof. unfold bind. by destruct (m s). Qed.

(** Freezing, changing the roots and unfreezing, in one step. *)
Lemma frozen_roots_update (f : gset Model -> gset Model) (s : State) :
  (_push_all_models_freeze ;;
   try_finally (modify (with_self (λ d, set_roots (f (_roots d)) d)))
               _pop_all_models_freeze) s =
  if bool_decide (_all_models_freeze_count (self s) = 0%Z)
  then _recompute_all_models
         (with_self (set_roots (f (_roots (self s)))) s)
  else Returned tt (with_self (set_roots (f (_roots (self s)))) s).
Proof.
  unfold bind, _push_all_models_freeze, try_finally, _pop_all_models_freeze,
    bind, modify.
  destruct s as [[ref roots ttl count all by_name cbs scbs] ? ? ? ? ?].
  unfold with_self, set_freeze_count, set_roots. cbn.
  rewrite !Z.add_simpl_r.
  case_bool_decide; [|done].
  by destruct (_recompute_all_models _) as [[] ?|? ?|?].
Qed.

(** [add_root] of a model that is not a root, up to the emission. *)
Lemma add_root_unfold (call_listener : Callable -> Event -> M unit)
  (m : Model) (s : State) :
  m ∉ _roots (self s) →
  ∃ by_name,
    add_root call_listener m s =
    _trigger_on_change call_listener (RootAddedEvent (doc_ref (self s)) m)
      (if bool_decide (_all_models_freeze_count (self s) = 0%Z)
       then recomputed_state by_name
              (with_self (set_roots ({[m]} ∪ _roots (self s))) s)
       else with_self (set_roots ({[m]} ∪ _roots (self s))) s).
Proof.
  intros Hm. unfold add_root.
  rewrite bool_decide_eq_false_2 by done.
  rewrite bind_assoc. unfold bind at 1.
  rewrite (frozen_roots_update (λ r, {[m]} ∪ r)).
  case_bool_decide.
  - destruct (_recompute_all_models_spec
                (with_self (set_roots ({[m]} ∪ _roots (self s))) s))
      as [by_name ->].
    by exists by_name.
  - by exists ∅.
Qed.

Lemma add_root_new (call_listener : Callable -> Event -> M unit)
  (m : Model) (s : State) :
  observers call_listener → m ∉ _roots (self s) →
  ∃ by_name,
    add_root call_listener m s =
    Returned tt
      (after_trigger (RootAddedEvent (doc_ref (self s)) m)
         (if bool_decide (_all_models_freeze_count (self s) = 0%Z)
          then recomputed_state by_name
                 (with_self (set_roots ({[m]} ∪ _roots (self s))) s)
          else with_self (set_roots ({[m]} ∪ _roots (self s))) s)).
Proof.
  intros Hobs Hm.
  destruct (add_root_unfold call_listener m s Hm) as [by_name ->].
  exists by_name. by rewrite _trigger_on_change_observers.
Qed.

Lemma remove_root_old (call_listener : Callable -> Event -> M unit)
  (m : Model) (s : State) :
  observers call_listener → m ∈ _roots (self s) →
  ∃ by_name,
    remove_root call_listener m s =
    Returned tt
      (after_trigger (RootRemovedEvent (doc_ref (self s)) m)
         (if bool_decide (_all_models_freeze_count (self s) = 0%Z)
          then recomputed_state by_name
                 (with_self (set_roots (_roots (self s) ∖ {[m]})) s)
          else with_self (set_roots (_roots (self s) ∖ {[m]})) s)).
Proof.
  intros Hobs Hm. unfold remove_root.
  rewrite bool_decide_eq_false_2 by (by intros ?).
  rewrite bind_assoc. unfold bind at 1.
  rewrite (frozen_roots_update (λ r, r ∖ {[m]})).
  case_bool_decide.
  - destruct (_recompute_all_models_spec
                (with_self (set_roots (_roots (self s) ∖ {[m]})) s))
      as [by_name ->].
    exists by_name. by rewrite _trigger_on_change_observers.
  - exists ∅. by rewrite _trigger_on_change_observers.
Qed.

Lemma add_root_present (call_listener : Callable -> Event -> M unit)
  (m : Model) (s : State) :
  m ∈ _roots (self s) → add_root call_listener m s = Returned tt s.
Proof. intros Hm. unfold add_root. by rewrite bool_decide_eq_true_2. Qed.

Lemma remove_root_absent (call_listener : Callable -> Event -> M unit)
  (m : Model) (s : State) :
  m ∉ _roots (self s) → remove_root call_listener m s = Returned tt s.
Proof. intros Hm. unfold remove_root. by rewrite bool_decide_eq_true_2. Qed.

(** With listeners that only look, [add_root] returns, the model is a root
    afterwards, and one [RootAddedEvent] is emitted when it was not a root
    before; when it was, nothing changes. *)
Lemma add_root_returns (call_listener : Callable -> Event -> M unit)
  (m : Model) (s : State) :
  observers call_listener →
  ∃ s1,
    add_root call_listener m s = Returned tt s1 ∧
    m ∈ _roots (self s1) ∧
    (m ∉ _roots (self s) →
     emitted s1 = emitted s ++ [RootAddedEvent (doc_ref (self s)) m]) ∧
    (m ∈ _roots (self s) → s1 = s).
Proof.
  intros Hobs.
  destruct (decide (m ∈ _roots (self s))) as [Hin|Hnin].
  - exists s. rewrite add_root_present by done. by repeat split.
  - destruct (add_root_new call_listener m s Hobs Hnin) as [by_name ->].
    eexists. split; [done|]. split; [|split].
    + case_bool_decide; cbn; set_solver.
    + intros _. by case_bool_decide.
    + done.
Qed.

(** C8 (as amended): with listeners that only look, [add_root] returns and
    the model is a root; calling it again with the same model returns the
    same state and emits nothing; the two calls emit one [RootAddedEvent]
    in all when the model was not a root before, and none, changing
    nothing, when it was.  [remove_root] of a model that is not a root
    changes nothing and emits nothing. *)
Theorem add_root_twice (call_listener : Callable -> Event -> M unit)
  (m : Model) (s : State) :
  observers call_listener →
  (∃ s1,
     add_root call_listener m s = Returned tt s1 ∧
     m ∈ _roots (self s1) ∧
     add_root call_listener m s1 = Returned tt s1 ∧
     (m ∉ _roots (self s) →
      emitted s1 = emitted s ++ [RootAddedEvent (doc_ref (self s)) m]) ∧
     (m ∈ _roots (self s) → s1 = s)) ∧
  (m ∉ _roots (self s) → remove_root call_listener m s = Returned tt s).
Proof.
  intros Hobs. split; [|apply remove_root_absent].
  destruct (add_root_returns call_listener m s Hobs)
    as (s1 & H1 & Hin & Hnew & Hold).
  exists s1. repeat split; try done. by apply add_root_present.
Qed.

(** Model [1] added twice to a new document. *)
Lemma add_root_twice_witness :
  observers observer ∧
  ∃ s1,
    add_root observer 1%positive new_document_state = Returned tt s1 ∧
    add_root observer 1%positive s1 = Returned tt s1 ∧
    emitted s1 = [RootAddedEvent 0 1%positive].
Proof.
  split; [exact observer_observers|].
  destruct (add_root_twice observer 1%positive new_document_state
              observer_observers) as [(s1 & H1 & _ & H2 & H3 & _) _].
  exists s1. split; [exact H1|]. split; [exact H2|].
  exact (H3 (not_elem_of_empty 1%positive)).
Defined.

(** C8 (as stated) fails for a model that is a root already: on the
    document whose root is model [1], the two calls of [add_root] with
    model [1] return the state they started from, in which no further
    [RootAddedEvent] is on record: they emit none, not one. *)
Lemma add_root_twice_of_a_root_emits_nothing :
  1%positive ∈ _roots (self cycle_document_state) ∧
  (add_root observer 1%positive ;; add_root observer 1%positive)
    cycle_document_state = Returned tt cycle_document_state.
Proof. split; [cbn; set_solver|reflexivity]. Qed.

(** ** The closure invariant *)

Lemma closure_invariant_after_trigger (e : Event) (s : State) :
  closure_invariant (after_trigger e s) ↔ closure_invariant s.
Proof. done. Qed.

Lemma distinct_ids_mono (store : gmap Model ModelObj) (R R' : gset Model) :
  R ⊆ R' → distinct_ids store R' → distinct_ids store R.
Proof.
  intros Hsub Hids r r' a b Hr Hr'. apply Hids; by apply Hsub.
Qed.

(** A new document satisfies the invariant, whatever the models and their
    back-pointers are. *)
Lemma closure_invariant_new (ref : DocRef) (title : option (option string))
  (store : gmap Model ModelObj) (back : gmap Model DocRef) (cur : DocRef)
  (es : list Event) (calls : list Invocation) :
  closure_invariant
    (mkState (Document_init ref title) store back cur es calls).
Proof.
  split; intros i m; cbn; rewrite lookup_empty; [|done].
  split; [done|]. by intros [(r & ?%elem_of_empty & _) _].
Qed.

(** The loop of [clear], in a frozen document with listeners that only
    look: it ends with no root left and touches neither the table nor the
    back-pointers. *)
Lemma clear_loop_observers (call_listener : Callable -> Event -> M unit) :
  observers call_listener →
  ∀ fuel s,
    _all_models_freeze_count (self s) ≠ 0%Z →
    size (_roots (self s)) ≤ fuel →
    ∃ s',
      clear_loop call_listener fuel s = Returned tt s' ∧
      _roots (self s') = ∅ ∧
      _all_models_freeze_count (self s') = _all_models_freeze_count (self s) ∧
      doc_ref (self s') = doc_ref (self s) ∧
      _all_models (self s') = _all_models (self s) ∧
      models s' = models s ∧
      document_of s' = document_of s.
Proof.
  intros Hobs. induction fuel as [|fuel IH]; intros s Hcount Hsize.
  - exists s. assert (_roots (self s) = ∅) as Hempty
      by (apply leibniz_equiv, size_empty_inv; lia).
    cbn. by rewrite Hempty, elements_empty.
  - cbn [clear_loop].
    destruct (elements (_roots (self s))) as [|r l] eqn:Hel.
    + exists s. apply elements_empty_inv, leibniz_equiv in Hel.
      by repeat split.
    + assert (r ∈ _roots (self s)) as Hr
        by (apply elem_of_elements; rewrite Hel; by left).
      unfold bind.
      destruct (remove_root_old call_listener r s Hobs Hr) as [by_name ->].
      rewrite bool_decide_eq_false_2 by done.
      destruct (IH (after_trigger (RootRemovedEvent (doc_ref (self s)) r)
                      (with_self (set_roots (_roots (self s) ∖ {[r]})) s)))
        as (s' & Hloop & ? & ? & ? & ? & ? & ?).
      * done.
      * cbn. assert (size (_roots (self s) ∖ {[r]}) < size (_roots (self s)))
          by (apply subset_size; set_solver). lia.
      * exists s'. by repeat split.
Qed.

(** [add_root] re-establishes the invariant. *)
Lemma add_root_reestablishes (call_listener : Callable -> Event -> M unit)
  (m : Model) (s : State) :
  observers call_listener →
  _all_models_freeze_count (self s) = 0%Z →
  closure_invariant s →
  distinct_ids (models s) ({[m]} ∪ _roots (self s)) →
  ∃ s', add_root call_listener m s = Returned tt s' ∧
        closure_invariant s' ∧
        _all_models_freeze_count (self s') = 0%Z.
Proof.
  intros Hobs Hcount Hinv Hids.
  destruct (decide (m ∈ _roots (self s))) as [Hin|Hnin].
  { exists s. by rewrite add_root_present. }
  destruct (add_root_new call_listener m s Hobs Hnin) as [by_name ->].
  rewrite bool_decide_eq_true_2 by done.
  eexists. split; [done|]. split; [|done].
  apply closure_invariant_after_trigger, recomputed_state_invariant.
  - exact Hids.
  - intros i x Hx _. by apply (proj2 Hinv i).
Qed.

(** [remove_root] re-establishes the invariant. *)
Lemma remove_root_reestablishes
  (call_listener : Callable -> Event -> M unit) (m : Model) (s : State) :
  observers call_listener →
  _all_models_freeze_count (self s) = 0%Z →
  closure_invariant s →
  distinct_ids (models s) (_roots (self s)) →
  ∃ s', remove_root call_listener m s = Returned tt s' ∧
        closure_invariant s' ∧
        _all_models_freeze_count (self s') = 0%Z.
Proof.
  intros Hobs Hcount Hinv Hids.
  destruct (decide (m ∈ _roots (self s))) as [Hin|Hnin].
  2:{ exists s. by rewrite remove_root_absent. }
  destruct (remove_root_old call_listener m s Hobs Hin) as [by_name ->].
  rewrite bool_decide_eq_true_2 by done.
  eexists. split; [done|]. split; [|done].
  apply closure_invariant_after_trigger, recomputed_state_invariant.
  - eapply distinct_ids_mono; [|exact Hids]. cbn. set_solver.
  - intros i x Hx _. by apply (proj2 Hinv i).
Qed.

(** [clear], given a round of its loop for every root, leaves a document
    with no root and an empty table. *)
Lemma clear_reestablishes (call_listener : Callable -> Event -> M unit)
  (fuel : nat) (s : State) :
  observers call_listener →
  _all_models_freeze_count (self s) = 0%Z →
  size (_roots (self s)) ≤ fuel →
  ∃ s', clear call_listener fuel s = Returned tt s' ∧
        closure_invariant s' ∧
        _all_models_freeze_count (self s') = 0%Z ∧
        _roots (self s') = ∅.
Proof.
  intros Hobs Hcount Hfuel.
  unfold clear, bind, _push_all_models_freeze, modify, try_finally.
  destruct (clear_loop_observers call_listener Hobs fuel
              (with_self (λ d, set_freeze_count
                                 (_all_models_freeze_count d + 1) d) s))
    as (s1 & -> & Hroots & Hc & Href & Hall & Hmodels & Hback).
  { cbn. lia. }
  { done. }
  unfold _pop_all_models_freeze, bind, modify.
  cbn in Hc.
  set (s2 := with_self _ s1).
  assert (_all_models_freeze_count (self s2) = 0%Z) as Hc2
    by (subst s2; cbn; lia).
  rewrite bool_decide_eq_true_2 by done.
  destruct (_recompute_all_models_spec s2) as [by_name ->].
  eexists. split; [done|]. split; [|done].
  apply recomputed_state_invariant.
  - intros r r' a b Hr. subst s2. cbn in Hr. rewrite Hroots in Hr.
    by apply elem_of_empty in Hr.
  - intros i x _ (r & Hr & _)%elem_of_new_all_models_set.
    subst s2. cbn in Hr. rewrite Hroots in Hr.
    by apply elem_of_empty in Hr.
Qed.

(** C1: in a state with the freeze counter at zero that satisfies the
    closure invariant, where no two models reachable from the roots (and
    from the model handed over) share an id, and with listeners that only
    look, [add_root], [remove_root] and [clear] return in a state that
    satisfies the invariant again, with the counter at zero. *)
Theorem closure_invariant_reestablished
  (call_listener : Callable -> Event -> M unit)
  (m : Model) (fuel : nat) (s : State) :
  observers call_listener →
  _all_models_freeze_count (self s) = 0%Z →
  closure_invariant s →
  distinct_ids (models s) ({[m]} ∪ _roots (self s)) →
  size (_roots (self s)) ≤ fuel →
  (∃ s', add_root call_listener m s = Returned tt s' ∧
         closure_invariant s' ∧
         _all_models_freeze_count (self s') = 0%Z) ∧
  (∃ s', remove_root call_listener m s = Returned tt s' ∧
         closure_invariant s' ∧
         _all_models_freeze_count (self s') = 0%Z) ∧
  (∃ s', clear call_listener fuel s = Returned tt s' ∧
         closure_invariant s' ∧
         _all_models_freeze_count (self s') = 0%Z).
Proof.
  intros Hobs Hcount Hinv Hids Hfuel. split; [|split].
  - by apply add_root_reestablishes.
  - apply remove_root_reestablishes; [done..|].
    eapply distinct_ids_mono; [|exact Hids]. set_solver.
  - destruct (clear_reestablishes call_listener fuel s)
      as (s' & ? & ? & ? & _); [done..|].
    by exists s'.
Qed.

(** *** The two models that refer to each other *)

Lemma references_two_models (r : Model) :
  r ∈ ({[1%positive; 2%positive]} : gset Model) →
  ModelCap.references two_models r = {[1%positive; 2%positive]}.
Proof.
  intros [->%elem_of_singleton| ->%elem_of_singleton]%elem_of_union;
    vm_compute; reflexivity.
Qed.

Lemma distinct_ids_two_models :
  distinct_ids two_models {[1%positive; 2%positive]}.
Proof.
  intros r r' a b Hr Hr' Ha Hb Hid.
  rewrite references_two_models in Ha, Hb by done.
  assert (a = 1%positive ∨ a = 2%positive) as [-> | ->] by set_solver;
    assert (b = 1%positive ∨ b = 2%positive) as [-> | ->] by set_solver;
    try done; vm_compute in Hid; discriminate.
Qed.

(** [add_root] of model [1] on the new document: both models are in the
    table, under their ids, and point back to the document; one event is
    emitted. *)
Lemma add_root_cycle :
  add_root observer 1%positive new_document_state
    = Returned tt cycle_document_state.
Proof. vm_compute. reflexivity. Qed.

Lemma closure_invariant_cycle : closure_invariant cycle_document_state.
Proof.
  destruct (add_root_reestablishes observer 1%positive new_document_state)
    as (s' & Hadd & Hinv & _);
    [exact observer_observers|done|apply closure_invariant_new| |].
  - eapply distinct_ids_mono; [|exact distinct_ids_two_models].
    cbn. set_solver.
  - rewrite add_root_cycle in Hadd. by injection Hadd as <-.
Qed.

(** The three operations on the document whose root is model [1], with
    model [2] handed over. *)
Lemma closure_invariant_reestablished_witness :
  observers observer ∧
  _all_models_freeze_count (self cycle_document_state) = 0%Z ∧
  closure_invariant cycle_document_state ∧
  distinct_ids (models cycle_document_state)
    ({[2%positive]} ∪ _roots (self cycle_document_state)) ∧
  size (_roots (self cycle_document_state)) ≤ 1 ∧
  (∃ s', add_root observer 2%positive cycle_document_state = Returned tt s' ∧
         closure_invariant s' ∧
         _all_models_freeze_count (self s') = 0%Z) ∧
  (∃ s', remove_root observer 2%positive cycle_document_state
           = Returned tt s' ∧
         closure_invariant s' ∧
         _all_models_freeze_count (self s') = 0%Z) ∧
  (∃ s', clear observer 1 cycle_document_state = Returned tt s' ∧
         closure_invariant s' ∧
         _all_models_freeze_count (self s') = 0%Z).
Proof.
  assert (distinct_ids (models cycle_document_state)
            ({[2%positive]} ∪ _roots (self cycle_document_state))) as Hids.
  { eapply distinct_ids_mono; [|exact distinct_ids_two_models].
    cbn. set_solver. }
  assert (size (_roots (self cycle_document_state)) ≤ 1) as Hsize
    by (cbn; by rewrite size_singleton).
  split; [exact observer_observers|]. split; [reflexivity|].
  split; [exact closure_invariant_cycle|]. split; [exact Hids|].
  split; [exact Hsize|].
  exact (closure_invariant_reestablished observer 2%positive 1
           cycle_document_state observer_observers eq_refl
           closure_invariant_cycle Hids Hsize).
Defined.

(** [remove_root] of the root: the table is empty again and no model
    points back to the document. *)
Lemma remove_root_cycle :
  ∃ s', remove_root observer 1%positive cycle_document_state
          = Returned tt s' ∧
        _all_models (self s') = ∅ ∧
        document_of s' = ∅ ∧
        emitted s' = [RootAddedEvent 0 1%positive;
                      RootRemovedEvent 0 1%positive].
Proof. eexists. split; [vm_compute; reflexivity|]. by vm_compute. Qed.

(** ** References *)

Section references_facts.
Variable store : gmap Model ModelObj.
Import ModelCap.

Lemma reach_step_extensive (X : gset Model) : X ⊆ reach_step store X.
Proof. unfold reach_step. set_solver. Qed.

Lemma reach_iter_extensive (n : nat) (X : gset Model) :
  X ⊆ Nat.iter n (reach_step store) X.
Proof.
  induction n as [|n IH]; [done|]. cbn.
  etrans; [exact IH|]. apply reach_step_extensive.
Qed.

(** A model is among its own references. *)
Lemma elem_of_references_self (m : Model) : m ∈ references store m.
Proof. apply reach_iter_extensive. set_solver. Qed.

Lemma reach_step_closed (S X : gset Model) :
  X ⊆ S → (∀ x, x ∈ S → successors store x ⊆ S) → reach_step store X ⊆ S.
Proof.
  intros HX Hclosed x Hx. unfold reach_step in Hx.
  apply elem_of_union in Hx as [Hx|Hx]; [by apply HX|].
  apply elem_of_set_bind in Hx as (y & Hy & Hxy).
  apply (Hclosed y); [by apply HX|done].
Qed.

(** The references of a model are within every set that holds the model
    and is closed under taking successors. *)
Lemma references_minimal (m : Model) (S : gset Model) :
  m ∈ S → (∀ x, x ∈ S → successors store x ⊆ S) → references store m ⊆ S.
Proof.
  intros Hm Hclosed. unfold references.
  induction (size store) as [|n IH]; cbn; [set_solver|].
  by apply reach_step_closed.
Qed.

Lemma successors_dom (x : Model) :
  closed_store store → successors store x ⊆ dom store.
Proof.
  intros Hclosed. unfold successors.
  destruct (store !! x) as [o|] eqn:Hx; [by eapply Hclosed|set_solver].
Qed.

Lemma reach_iter_dom (n : nat) (X : gset Model) :
  closed_store store → X ⊆ dom store →
  Nat.iter n (reach_step store) X ⊆ dom store.
Proof.
  intros Hclosed HX. induction n as [|n IH]; [done|]. cbn.
  apply reach_step_closed; [done|]. intros x _. by apply successors_dom.
Qed.

(** Either the iteration has stopped growing after [n] rounds, or it has
    found more than [n] models. *)
Lemma reach_iter_stable_or_grows (m : Model) (n : nat) :
  reach_step store (Nat.iter n (reach_step store) {[m]})
    = Nat.iter n (reach_step store) {[m]} ∨
  n + 1 ≤ size (Nat.iter n (reach_step store) {[m]}).
Proof.
  induction n as [|n IH].
  - right. cbn. by rewrite size_singleton.
  - rewrite !Nat.iter_succ.
    set (X := Nat.iter n (reach_step store) {[m]}) in *.
    destruct (decide (reach_step store X = X)) as [Heq|Hne].
    + left. by rewrite !Heq.
    + right. destruct IH as [?|IH]; [done|].
      assert (X ⊂ reach_step store X) as Hlt.
      { split; [apply reach_step_extensive|].
        intros Hsub. apply Hne. apply set_eq. intros x. split; [apply Hsub|].
        apply reach_step_extensive. }
      apply subset_size in Hlt. lia.
Qed.

Lemma references_stable (m : Model) :
  closed_store store → m ∈ dom store →
  reach_step store (references store m) = references store m.
Proof.
  intros Hclosed Hm. unfold references.
  destruct (reach_iter_stable_or_grows m (size store)) as [?|Hsize]; [done|].
  assert (Nat.iter (size store) (reach_step store) {[m]} ⊆ dom store) as Hsub
    by (apply reach_iter_dom; [done|set_solver]).
  apply subseteq_size in Hsub. rewrite size_dom in Hsub. lia.
Qed.

(** In a closed store, the references of a model are closed under taking
    successors. *)
Lemma references_closed (m x : Model) :
  closed_store store → m ∈ dom store →
  x ∈ references store m → successors store x ⊆ references store m.
Proof.
  intros Hclosed Hm Hx y Hy.
  rewrite <-(references_stable m) by done.
  unfold reach_step at 1.
  apply elem_of_union. right. apply elem_of_set_bind. by exists x.
Qed.

Lemma references_dom (m : Model) :
  closed_store store → m ∈ dom store → references store m ⊆ dom store.
Proof. intros Hclosed Hm. apply reach_iter_dom; [done|set_solver]. Qed.

End references_facts.

(** ** Values written to JSON and read back *)

(** Induction over values, with the hypothesis for every item of a list
    and of a map. *)
Lemma Value_ind_nested (P : Value -> Prop) :
  P VNone → (∀ s, P (VStr s)) → (∀ z, P (VInt z)) → (∀ m, P (VModel m)) →
  (∀ r, P (VRef r)) →
  (∀ l, Forall P l → P (VList l)) →
  (∀ l, Forall (λ kv, P kv.2) l → P (VDict l)) →
  ∀ v, P v.
Proof.
  intros HNone HStr HInt HModel HRef HList HDict.
  fix IH 1. intros [ |s|z|m|r|l|l].
  - exact HNone.
  - apply HStr.
  - apply HInt.
  - apply HModel.
  - apply HRef.
  - apply HList. induction l as [|x l IHl]; constructor;
      [apply IH | exact IHl].
  - apply HDict. induction l as [|[k x] l IHl]; constructor;
      [apply IH | exact IHl].
Qed.

Lemma result_map_ok {A B C} (f : B -> result C) (h : A -> B) (g : A -> C)
  (l : list A) :
  Forall (λ x, f (h x) = Ok (g x)) l →
  result_map f (map h l) = Ok (map g l).
Proof.
  induction 1 as [|x l Hx _ IH]; [done|].
  cbn. by rewrite Hx, IH.
Qed.

Section value_facts.
Variable store : gmap Model ModelObj.
Variable instances : gmap string Model.
Variable φ : Model -> Model.

(** Reading back what the encoder wrote gives the value with every model
    replaced by the instance entered under its id. *)
Lemma from_json_json_of_value (v : Value) :
  (∀ m, m ∈ value_models v → instances !! id_of store m = Some (φ m)) →
  no_written_refs v = true →
  from_json_value instances (json_of_value (ref_of store) v)
    = Ok (rename_value φ v).
Proof.
  induction v as [ |s|z|m|r|l IH|l IH] using Value_ind_nested;
    intros Hin Hno; try done.
  - cbn. unfold ref_of, ModelCap.ref. cbn [ref_id].
    change (model_id (store !!! m)) with (id_of store m).
    rewrite Hin; [done|]. cbn. set_solver.
  - cbn [json_of_value from_json_value rename_value].
    rewrite (result_map_ok _ _ (rename_value φ)); [done|].
    cbn in Hno, Hin.
    induction IH as [|x l Hx _ IHl]; [done|]. cbn in Hno, Hin.
    apply andb_true_iff in Hno as [Hno1 Hno2].
    constructor.
    + apply Hx; [|done]. intros m Hm. apply Hin. set_solver.
    + apply IHl; [|done]. intros m Hm. apply Hin. set_solver.
  - cbn [json_of_value from_json_value rename_value].
    rewrite (result_map_ok _ _ (λ kv, (kv.1, rename_value φ kv.2)));
      [done|].
    cbn in Hno, Hin.
    induction IH as [|[k x] l Hx _ IHl]; [done|]. cbn in Hno, Hin, Hx.
    apply andb_true_iff in Hno as [Hno1 Hno2].
    constructor.
    + cbn. rewrite Hx; [done| |done]. intros m Hm. apply Hin. set_solver.
    + apply IHl; [|done]. intros m Hm. apply Hin. set_solver.
Qed.

Lemma union_list_map_cons {A} (f : A -> gset Model) (a : A) (l : list A) :
  ⋃ (map f (a :: l)) = f a ∪ ⋃ (map f l).
Proof. done. Qed.

Lemma value_models_rename (v : Value) :
  value_models (rename_value φ v) = set_map φ (value_models v).
Proof.
  induction v as [ |s|z|m|r|l IH|l IH] using Value_ind_nested;
    cbn [rename_value value_models];
    try (by rewrite set_map_empty).
  - by rewrite set_map_singleton_L.
  - rewrite map_map. induction IH as [|x l Hx _ IHl];
      [cbn; by rewrite set_map_empty|].
    by rewrite !union_list_map_cons, set_map_union_L, <-Hx, <-IHl.
  - rewrite map_map. induction IH as [|[k x] l Hx _ IHl];
      [cbn; by rewrite set_map_empty|].
    by rewrite !union_list_map_cons, set_map_union_L, <-Hx, <-IHl.
Qed.

End value_facts.

(** ** Reading a document back from JSON *)

Lemma with_models_const (f : gmap Model ModelObj -> gmap Model ModelObj)
  (s : State) :
  with_models f s = with_models (λ _, f (models s)) s.
Proof. done. Qed.

Lemma with_models_with_models
  (f g : gmap Model ModelObj -> gmap Model ModelObj) (s : State) :
  with_models f (with_models g s) = with_models (λ st, f (g st)) s.
Proof. done. Qed.

Section instantiate.
Variable get_class : string -> option ModelClass.
Variable store0 : gmap Model ModelObj.

(** The first phase: every record gets a new object of the store, with the
    id and the class of the model it was written from and no property set,
    entered under its id. *)
Lemma instantiate_loop_spec (ms : list Model) :
  NoDup (id_of store0 <$> ms) →
  (∀ m, m ∈ ms →
     get_class (default (class_type (model_class (store0 !!! m)))
                        (class_subtype (model_class (store0 !!! m))))
       = Some (model_class (store0 !!! m))) →
  ∀ acc s,
    (∀ i x, acc !! i = Some x → x ∈ dom (models s)) →
    (∀ i j x, acc !! i = Some x → acc !! j = Some x → i = j) →
    ∃ acc' store1,
      instantiate_loop get_class (record_of store0 <$> ms) acc s
        = Returned acc' (with_models (λ _, store1) s) ∧
      models s ⊆ store1 ∧
      (∀ i, i ∉ (id_of store0 <$> ms) → acc' !! i = acc !! i) ∧
      (∀ m, m ∈ ms →
         ∃ inst, acc' !! id_of store0 m = Some inst ∧
                 (inst ∉ dom (models s)) ∧
                 store1 !! inst
                   = Some (mkModelObj (id_of store0 m)
                             (model_class (store0 !!! m)) ∅)) ∧
      (∀ i x, acc' !! i = Some x → x ∈ dom store1) ∧
      (∀ i j x, acc' !! i = Some x → acc' !! j = Some x → i = j) ∧
      (∀ x, x ∈ dom store1 →
         x ∈ dom (models s) ∨
         ∃ m, m ∈ ms ∧ acc' !! id_of store0 m = Some x).
Proof.
  induction ms as [|m ms IH]; intros Hnodup Hcls acc s Himg Hinj.
  - exists acc, (models s). cbn. split; [by destruct s|].
    split; [done|]. split; [done|].
    split; [by intros ? ?%elem_of_nil|]. split; [done|]. split; [done|].
    by left.
  - cbn [fmap list_fmap] in *. apply NoDup_cons in Hnodup as [Hm Hnodup].
    cbn [instantiate_loop]. unfold bind, instantiate_step at 1.
    cbn [record_of rj_ref ref_of ModelCap.ref ref_id ref_type ref_subtype].
    rewrite Hcls by (by left).
    set (inst := fresh (dom (models s))).
    assert (inst ∉ dom (models s)) as Hfresh by apply is_fresh.
    change (model_id (store0 !!! m)) with (id_of store0 m).
    set (obj := mkModelObj (id_of store0 m) (model_class (store0 !!! m)) ∅).
    assert (∀ x, x ∈ ms →
              get_class (default (class_type (model_class (store0 !!! x)))
                           (class_subtype (model_class (store0 !!! x))))
                = Some (model_class (store0 !!! x))) as Hcls'
      by (intros x Hx; apply Hcls; by right).
    destruct (IH Hnodup Hcls'
                (<[id_of store0 m := inst]> acc)
                (with_models (λ st, <[inst := obj]> st) s))
      as (acc' & store1 & Hloop & Hsub & Hother & Hinst & Himg' & Hinj'
          & Hnew).
    { intros i x [[<- <-]|[_ Hx]]%lookup_insert_Some; cbn.
      - rewrite dom_insert. set_solver.
      - rewrite dom_insert. apply Himg in Hx. set_solver. }
    { intros i j x [[<- <-]|[Hi Hx]]%lookup_insert_Some
                   [[<- Hy]|[Hj Hy]]%lookup_insert_Some; try done.
      - subst. by apply Himg in Hy.
      - subst. by apply Himg in Hx.
      - by eapply Hinj. }
    cbn [models with_models] in *.
    exists acc', store1. split; [by rewrite Hloop; destruct s|].
    assert (store1 !! inst = Some obj) as Hobj.
    { eapply lookup_weaken; [|exact Hsub]. apply lookup_insert_eq. }
    assert (acc' !! id_of store0 m = Some inst) as Hacc.
    { rewrite Hother by done. apply lookup_insert_eq. }
    split; [|split; [|split; [|split; [|split]]]].
    + etrans; [|exact Hsub]. by apply insert_subseteq, not_elem_of_dom.
    + intros i Hi. rewrite Hother by set_solver.
      apply lookup_insert_ne. set_solver.
    + intros m' [->|Hm']%elem_of_cons.
      * by exists inst.
      * destruct (Hinst m' Hm') as (inst' & H1 & H2 & H3).
        exists inst'. split; [done|]. split; [|done].
        rewrite dom_insert in H2. set_solver.
    + done.
    + done.
    + intros x Hx. destruct (Hnew x Hx) as [Hold|(m' & Hm' & Hx')].
      * rewrite dom_insert in Hold.
        apply elem_of_union in Hold as [->%elem_of_singleton|Hold];
          [|by left].
        right. exists m. split; [by left|done].
      * right. exists m'. split; [by right|done].
Qed.

End instantiate.

Lemma properties_with_refs_subseteq (o : ModelObj) :
  ModelCap.properties_with_refs o ⊆ ModelCap.properties o.
Proof.
  unfold ModelCap.properties_with_refs, ModelCap.properties.
  apply subseteq_dom, map_filter_subseteq.
Qed.

Section initialize.
Variable store0 : gmap Model ModelObj.
Variable instances : gmap string Model.
Variable φ : Model -> Model.

(** The loop over the properties with references decodes the value of
    each of them and leaves the other attributes as they were written. *)
Lemma decode_fold (attrs : gmap string Value) (l : list string) :
  NoDup l →
  (∀ p v, p ∈ l → attrs !! p = Some v → readable store0 instances φ v) →
  ∃ attrs',
    foldl (decode_step instances)
          (Ok (json_of_value (ref_of store0) <$> attrs)) l = Ok attrs' ∧
    ∀ p, attrs' !! p =
         if decide (p ∈ l) then rename_value φ <$> attrs !! p
         else json_of_value (ref_of store0) <$> attrs !! p.
Proof.
  induction l as [|q l IH] using rev_ind; intros Hnodup Hread.
  - eexists. split; [done|]. intros p.
    rewrite decide_False by (by intros ?%elem_of_nil).
    by rewrite lookup_fmap.
  - apply NoDup_app in Hnodup as (Hnodup & Hq & _).
    destruct IH as (attrs1 & Hfold & Hlook); [done| |].
    { intros p v Hp. apply Hread. apply elem_of_app. by left. }
    rewrite foldl_app, Hfold. cbn [foldl decode_step rbind].
    assert (q ∉ l) as Hql.
    { intros Hin. apply (Hq q Hin). by left. }
    rewrite Hlook, decide_False by done.
    destruct (attrs !! q) as [v|] eqn:Hv; cbn.
    + destruct (Hread q v) as [Hno Hin]; [set_solver|done|].
      rewrite (from_json_json_of_value store0 instances φ v Hin Hno). cbn.
      eexists. split; [done|]. intros p.
      destruct (decide (p = q)) as [->|Hne].
      * rewrite lookup_insert_eq, decide_True by set_solver.
        by rewrite Hv.
      * rewrite lookup_insert_ne, Hlook by done.
        destruct (decide (p ∈ l)).
        -- by rewrite decide_True by set_solver.
        -- by rewrite decide_False by set_solver.
    + exists attrs1. split; [done|]. intros p. rewrite Hlook.
      destruct (decide (p = q)) as [->|Hne].
      * rewrite decide_False, decide_True by set_solver. by rewrite Hv.
      * destruct (decide (p ∈ l)).
        -- by rewrite decide_True by set_solver.
        -- by rewrite decide_False by set_solver.
Qed.

(** One round of the second phase, for the record of a model whose
    instance has no property set yet. *)
Lemma initialize_step_spec (m : Model) (s : State) :
  instances !! id_of store0 m = Some (φ m) →
  models s !! φ m
    = Some (mkModelObj (id_of store0 m) (model_class (store0 !!! m)) ∅) →
  (∀ p v, model_attrs (store0 !!! m) !! p = Some v →
          p ∈ ModelCap.properties_with_refs (store0 !!! m) → readable store0 instances φ v) →
  ∃ attrs',
    initialize_step instances (record_of store0 m) s =
    Returned tt
      (with_models
         (λ st, <[φ m := mkModelObj (id_of store0 m)
                            (model_class (store0 !!! m)) attrs']> st) s) ∧
    ∀ p, p ∈ ModelCap.properties_with_refs (store0 !!! m) →
         attrs' !! p = rename_value φ <$> model_attrs (store0 !!! m) !! p.
Proof.
  intros Hinst Hobj Hread. unfold initialize_step.
  cbn [record_of rj_ref rj_attributes ref_of ModelCap.ref ref_id].
  change (model_id (store0 !!! m)) with (id_of store0 m).
  rewrite Hinst.
  rewrite (lookup_total_correct _ _ _ Hobj).
  set (o := mkModelObj (id_of store0 m) (model_class (store0 !!! m)) ∅).
  assert (ModelCap.properties_with_refs o
            = ModelCap.properties_with_refs (store0 !!! m)) as Hwr by done.
  destruct (decode_fold (ModelCap._to_json_like (store0 !!! m))
              (elements (ModelCap.properties_with_refs o)))
    as (attrs1 & -> & Hlook).
  { apply NoDup_elements. }
  { intros p v Hp%elem_of_elements Hv. apply (Hread p v Hv).
    by rewrite <-Hwr. }
  eexists. split; [reflexivity|].
  intros p Hp. cbn [ModelCap.update model_attrs o].
  rewrite lookup_union_l by apply lookup_empty.
  rewrite map_lookup_filter, Hlook.
  rewrite decide_True by (by apply elem_of_elements; rewrite Hwr).
  unfold ModelCap._to_json_like.
  destruct (model_attrs (store0 !!! m) !! p) as [v|]; cbn; [|done].
  rewrite option_guard_True; [done|].
  cbn. by apply (properties_with_refs_subseteq (store0 !!! m)).
Qed.

(** The second phase: the instance of every model gets the properties
    written for it, with the instances in the place of the models; the
    other objects stay as they are. *)
Lemma initialize_loop_spec (ms : list Model) :
  NoDup (id_of store0 <$> ms) →
  (∀ i j x, instances !! i = Some x → instances !! j = Some x → i = j) →
  (∀ m, m ∈ ms → instances !! id_of store0 m = Some (φ m)) →
  (∀ m p v, m ∈ ms → model_attrs (store0 !!! m) !! p = Some v →
            p ∈ ModelCap.properties_with_refs (store0 !!! m) → readable store0 instances φ v) →
  ∀ s,
    (∀ m, m ∈ ms →
       models s !! φ m
         = Some (mkModelObj (id_of store0 m)
                   (model_class (store0 !!! m)) ∅)) →
    ∃ store2,
      _initialize_references_json (record_of store0 <$> ms) instances s
        = Returned tt (with_models (λ _, store2) s) ∧
      (∀ x, x ∉ (φ <$> ms) → store2 !! x = models s !! x) ∧
      (∀ m, m ∈ ms →
         ∃ attrs',
           store2 !! φ m
             = Some (mkModelObj (id_of store0 m)
                       (model_class (store0 !!! m)) attrs') ∧
           ∀ p, p ∈ ModelCap.properties_with_refs (store0 !!! m) →
                attrs' !! p
                  = rename_value φ <$> model_attrs (store0 !!! m) !! p).
Proof.
  unfold _initialize_references_json.
  induction ms as [|m ms IH]; intros Hnodup Hinj Hinst Hread s Hobj.
  - exists (models s). split; [by destruct s|]. split; [done|].
    by intros ? ?%elem_of_nil.
  - cbn [fmap list_fmap] in *. apply NoDup_cons in Hnodup as [Hm Hnodup].
    cbn [for_each]. unfold bind.
    destruct (initialize_step_spec m s) as (attrs' & -> & Hattrs).
    { apply Hinst. by left. }
    { apply Hobj. by left. }
    { intros p v. apply Hread. by left. }
    assert (∀ m', m' ∈ ms → φ m' ≠ φ m) as Hne.
    { intros m' Hm' Heq. apply Hm.
      assert (id_of store0 m' = id_of store0 m) as <-.
      { apply (Hinj _ _ (φ m)); [|apply Hinst; by left].
        rewrite <-Heq. apply Hinst. by right. }
      by apply list_elem_of_fmap_2. }
    destruct (IH Hnodup Hinj) with
      (s := with_models
              (λ st, <[φ m := mkModelObj (id_of store0 m)
                                 (model_class (store0 !!! m)) attrs']> st) s)
      as (store2 & -> & Hother & Hms).
    { intros m' Hm'. apply Hinst. by right. }
    { intros m' p v Hm'. apply Hread. by right. }
    { intros m' Hm'. cbn. rewrite lookup_insert_ne by (symmetry; by apply Hne).
      apply Hobj. by right. }
    exists store2. split; [by destruct s|]. split.
    + intros x Hx. rewrite Hother by set_solver. cbn.
      apply lookup_insert_ne. set_solver.
    + intros m' [->|Hm']%elem_of_cons; [|by apply Hms].
      exists attrs'. split; [|done].
      rewrite Hother; [cbn; apply lookup_insert_eq|].
      intros (m' & Heq & Hm')%list_elem_of_fmap. by apply (Hne m').
Qed.

End initialize.

(** ** The graph of the instances *)

Lemma elem_of_immediate_references (o : ModelObj) (y : Model) :
  y ∈ ModelCap.immediate_references o ↔
  ∃ p v, model_attrs o !! p = Some v ∧
         p ∈ ModelCap.properties_with_refs o ∧ y ∈ value_models v.
Proof.
  unfold ModelCap.immediate_references.
  rewrite elem_of_union_list. split.
  - intros (Y & HY & Hy).
    change (Y ∈ (λ kv : string * Value, value_models kv.2) <$>
                map_to_list
                  (filter (λ kv, kv.1 ∈ ModelCap.properties_with_refs o)
                          (model_attrs o))) in HY.
    apply list_elem_of_fmap in HY as ([p v] & -> & Hpv).
    apply elem_of_map_to_list, map_lookup_filter_Some in Hpv as [Hv Hp].
    by exists p, v.
  - intros (p & v & Hv & Hp & Hy). exists (value_models v). split; [|done].
    change (value_models v ∈
              (λ kv : string * Value, value_models kv.2) <$>
                map_to_list
                  (filter (λ kv, kv.1 ∈ ModelCap.properties_with_refs o)
                          (model_attrs o))).
    apply list_elem_of_fmap. exists (p, v). split; [done|].
    by apply elem_of_map_to_list, map_lookup_filter_Some.
Qed.

(** An object with the same class whose properties with references hold
    the renamed values refers to the renamed models. *)
Lemma immediate_references_renamed (φ : Model -> Model) (o o' : ModelObj) :
  model_class o' = model_class o →
  (∀ p, p ∈ ModelCap.properties_with_refs o →
        model_attrs o' !! p = rename_value φ <$> model_attrs o !! p) →
  ModelCap.immediate_references o'
    = set_map φ (ModelCap.immediate_references o).
Proof.
  intros Hcls Hattrs.
  assert (ModelCap.properties_with_refs o'
            = ModelCap.properties_with_refs o) as Hwr
    by (unfold ModelCap.properties_with_refs; by rewrite Hcls).
  apply set_eq. intros y'.
  rewrite elem_of_map, elem_of_immediate_references. split.
  - intros (p & v' & Hv' & Hp & Hy'). rewrite Hwr in Hp.
    rewrite Hattrs in Hv' by done.
    destruct (model_attrs o !! p) as [v|] eqn:Hv; [|done].
    injection Hv' as <-. rewrite value_models_rename in Hy'.
    apply elem_of_map in Hy' as (y & -> & Hy).
    exists y. split; [done|]. apply elem_of_immediate_references.
    by exists p, v.
  - intros (y & -> & Hy).
    apply elem_of_immediate_references in Hy as (p & v & Hv & Hp & Hy).
    exists p, (rename_value φ v). split; [|split].
    + by rewrite Hattrs, Hv.
    + by rewrite Hwr.
    + rewrite value_models_rename. apply elem_of_map. by exists y.
Qed.

(** When the successors of the image of every reference of [r] are the
    images of its successors, the references of the image of [r] are the
    images of the references of [r]. *)
Lemma references_image (store0 store2 : gmap Model ModelObj)
  (φ : Model -> Model) (r : Model) :
  closed_store store0 → closed_store store2 →
  r ∈ dom store0 → φ r ∈ dom store2 →
  (∀ x, x ∈ ModelCap.references store0 r →
        ModelCap.successors store2 (φ x)
          = set_map φ (ModelCap.successors store0 x)) →
  ModelCap.references store2 (φ r)
    = set_map φ (ModelCap.references store0 r).
Proof.
  intros Hc0 Hc2 Hr Hr2 Hedges. apply set_eq. intros y'. split.
  - revert y'. apply references_minimal.
    + apply elem_of_map. exists r. split; [done|].
      apply elem_of_references_self.
    + intros x' (x & -> & Hx)%elem_of_map y' Hy'.
      rewrite Hedges in Hy' by done.
      apply elem_of_map in Hy' as (y & -> & Hy).
      apply elem_of_map. exists y. split; [done|].
      by apply (references_closed store0 r x).
  - intros (y & -> & Hy)%elem_of_map.
    assert (ModelCap.references store0 r ⊆
              filter (λ x, φ x ∈ ModelCap.references store2 (φ r))
                     (ModelCap.references store0 r)) as Hsub.
    { apply references_minimal.
      - apply elem_of_filter. split; apply elem_of_references_self.
      - intros x [Hx2 Hx]%elem_of_filter z Hz.
        apply elem_of_filter. split.
        + apply (references_closed store2 (φ r) (φ x)); [done..|].
          rewrite Hedges by done. apply elem_of_map. by exists z.
        + by apply (references_closed store0 r x). }
    apply Hsub in Hy. by apply elem_of_filter in Hy as [? _].
Qed.

(** ** Roots of a document nobody listens to *)

Lemma _trigger_on_change_no_listeners
  (call_listener : Callable -> Event -> M unit) (e : Event) (s : State) :
  _callbacks (self s) = [] →
  _trigger_on_change call_listener e s = Returned tt (record_emitted e s).
Proof.
  intros Hnone. rewrite _trigger_on_change_unfold, Hnone.
  cbn. rewrite Hnone. cbn. by destruct s.
Qed.

Lemma add_root_no_listeners (call_listener : Callable -> Event -> M unit)
  (m : Model) (s : State) :
  _callbacks (self s) = [] →
  _all_models_freeze_count (self s) = 0%Z →
  closure_invariant s →
  distinct_ids (models s) ({[m]} ∪ _roots (self s)) →
  ∃ s',
    add_root call_listener m s = Returned tt s' ∧
    closure_invariant s' ∧
    _roots (self s') = {[m]} ∪ _roots (self s) ∧
    models s' = models s ∧
    _all_models_freeze_count (self s') = 0%Z ∧
    _callbacks (self s') = [] ∧
    _title (self s') = _title (self s) ∧
    doc_ref (self s') = doc_ref (self s).
Proof.
  intros Hnone Hcount Hinv Hids.
  destruct (decide (m ∈ _roots (self s))) as [Hin|Hnin].
  - exists s. rewrite add_root_present by done.
    split; [done|]. split; [done|]. split; [set_solver|]. by repeat split.
  - destruct (add_root_unfold call_listener m s Hnin) as [by_name ->].
    rewrite bool_decide_eq_true_2 by done.
    rewrite _trigger_on_change_no_listeners by done.
    eexists. split; [done|]. split; [|done].
    apply (recomputed_state_invariant by_name
             (with_self (set_roots ({[m]} ∪ _roots (self s))) s)).
    + exact Hids.
    + intros i x Hx _. by apply (proj2 Hinv i).
Qed.

(** The loop of [from_json] over the ids of the roots: every id is looked
    up among the instances and the instance is added as a root. *)
Lemma add_roots_no_listeners (call_listener : Callable -> Event -> M unit)
  (instances : gmap string Model) (ids : Model -> string)
  (φ : Model -> Model) (l : list Model) :
  (∀ r, r ∈ l → instances !! ids r = Some (φ r)) →
  ∀ s,
    _callbacks (self s) = [] →
    _all_models_freeze_count (self s) = 0%Z →
    closure_invariant s →
    distinct_ids (models s) (list_to_set (φ <$> l) ∪ _roots (self s)) →
    ∃ s',
      for_each (ids <$> l)
        (λ r, match instances !! r with
              | Some m => add_root call_listener m
              | None => raise KeyError
              end) s = Returned tt s' ∧
      closure_invariant s' ∧
      _roots (self s') = list_to_set (φ <$> l) ∪ _roots (self s) ∧
      models s' = models s ∧
      _all_models_freeze_count (self s') = 0%Z ∧
      _callbacks (self s') = [] ∧
      _title (self s') = _title (self s) ∧
      doc_ref (self s') = doc_ref (self s).
Proof.
  intros Hinst. induction l as [|r l IH]; intros s Hnone Hcount Hinv Hids.
  - exists s. split; [done|]. split; [done|].
    split; [cbn; set_solver|]. by repeat split.
  - cbn [fmap list_fmap for_each]. unfold bind.
    rewrite Hinst by (by left).
    destruct (add_root_no_listeners call_listener (φ r) s)
      as (s1 & -> & Hinv1 & Hroots1 & Hmodels1 & Hcount1 & Hnone1 & Htitle1
          & Href1); [done..| |].
    { eapply distinct_ids_mono; [|exact Hids]. cbn. set_solver. }
    destruct (IH (λ x Hx, Hinst x (proj2 (elem_of_cons _ _ _) (or_intror Hx)))
                s1)
      as (s2 & Hloop & Hinv2 & Hroots2 & Hmodels2 & Hcount2 & Hnone2
          & Htitle2 & Href2); [done..| |].
    { rewrite Hmodels1, Hroots1.
      eapply distinct_ids_mono; [|exact Hids]. cbn. set_solver. }
    exists s2. split; [exact Hloop|]. split; [done|].
    split; [rewrite Hroots2, Hroots1; cbn; set_solver|].
    repeat split; congruence.
Qed.

(** ** Writing a document and reading it back *)

Lemma closure_invariant_ext (s s' : State) :
  _all_models (self s') = _all_models (self s) →
  _roots (self s') = _roots (self s) →
  models s' = models s →
  document_of s' = document_of s →
  doc_ref (self s') = doc_ref (self s) →
  closure_invariant s → closure_invariant s'.
Proof.
  unfold closure_invariant. intros -> -> -> -> ->. done.
Qed.

Lemma title_setter_no_listeners
  (call_listener : Callable -> Event -> M unit) (t : string) (s : State) :
  _callbacks (self s) = [] →
  ∃ s',
    title_setter call_listener (Some t) s = Returned tt s' ∧
    _title (self s') = Some t ∧
    _all_models (self s') = _all_models (self s) ∧
    _roots (self s') = _roots (self s) ∧
    models s' = models s ∧
    document_of s' = document_of s ∧
    doc_ref (self s') = doc_ref (self s).
Proof.
  intros Hnone. unfold title_setter. case_bool_decide as Hne.
  - unfold bind, modify.
    rewrite _trigger_on_change_no_listeners by done.
    eexists. split; [done|]. by repeat split.
  - exists s. split; [done|]. split; [|done].
    destruct (decide (_title (self s) = Some t)); [done|].
    by destruct Hne.
Qed.

(** In a document that satisfies the closure invariant, the ids of the
    table are the ids of the reachable models. *)
Lemma dom_all_models (s : State) :
  closure_invariant s → dom (_all_models (self s)) = reachable_ids s.
Proof.
  intros [Hinv _]. apply set_eq. intros i.
  unfold reachable_ids. rewrite elem_of_dom, elem_of_map. split.
  - intros [m Hm]. apply Hinv in Hm as [Hm <-].
    exists m. split; [done|]. by apply elem_of_new_all_models_set.
  - intros (m & -> & Hm%elem_of_new_all_models_set).
    exists m. by apply Hinv.
Qed.

Lemma fmap_snd_ids (ids : Model -> string) (l : list (string * Model)) :
  (∀ i m, (i, m) ∈ l → ids m = i) → ids <$> l.*2 = l.*1.
Proof.
  induction l as [|[i m] l IH]; intros Hl; [done|].
  cbn. rewrite (Hl i m) by (by left). f_equal.
  apply IH. intros j x Hx. apply Hl. by right.
Qed.

Section round_trip.
Variable call_listener : Callable -> Event -> M unit.
Variable get_class : string -> option ModelClass.
Variable version : string.

Lemma to_json_references (s : State) :
  json_references (to_json version s) =
  record_of (models s) <$> (map_to_list (_all_models (self s))).*2.
Proof.
  unfold to_json, serialize_references, _references_json.
  cbn [json_references]. by rewrite map_map.
Qed.

(** The models [to_json] writes are the models reachable from the roots,
    each once, with ids of their own. *)
Lemma written_models (s : State) :
  closure_invariant s →
  (∀ m, m ∈ (map_to_list (_all_models (self s))).*2 ↔
        m ∈ new_all_models_set s) ∧
  NoDup (id_of (models s) <$> (map_to_list (_all_models (self s))).*2).
Proof.
  intros [Hinv _]. split.
  - intros m. rewrite elem_of_new_all_models_set, list_elem_of_fmap. split.
    + intros ([i m'] & -> & Him%elem_of_map_to_list).
      by apply Hinv in Him as [? _].
    + intros Hm. exists (id_of (models s) m, m). split; [done|].
      apply elem_of_map_to_list. by apply Hinv.
  - rewrite fmap_snd_ids; [apply NoDup_fst_map_to_list|].
    intros i m Him%elem_of_map_to_list. by apply Hinv in Him as [_ ?].
Qed.

(** The reachable models are objects of the store, and their successors
    are reachable. *)
Lemma reachable_closed (s : State) :
  closed_store (models s) → _roots (self s) ⊆ dom (models s) →
  new_all_models_set s ⊆ dom (models s) ∧
  ∀ x, x ∈ new_all_models_set s →
       ModelCap.successors (models s) x ⊆ new_all_models_set s.
Proof.
  intros Hclosed Hroots. split.
  - intros x (r & Hr & Hx)%elem_of_new_all_models_set.
    apply (references_dom (models s) r); [done|by apply Hroots|done].
  - intros x (r & Hr & Hx)%elem_of_new_all_models_set y Hy.
    apply elem_of_new_all_models_set. exists r. split; [done|].
    apply (references_closed (models s) r x); [done|by apply Hroots|done..].
Qed.

Lemma successors_lookup (store : gmap Model ModelObj) (x : Model) :
  x ∈ dom store →
  ModelCap.successors store x
    = ModelCap.immediate_references (store !!! x).
Proof.
  intros Hx. unfold ModelCap.successors.
  by rewrite (lookup_lookup_total_dom store x Hx).
Qed.

(** C2: a well-formed document, written with [to_json] and read back with
    [from_json], gives a document with the same ids of roots, the same
    title and the same ids of reachable models; the new document satisfies
    the closure invariant, so these ids are the ids of its table. *)
Theorem from_json_to_json (doc : DocRef) (s : State) :
  well_formed get_class s →
  ∃ s',
    from_json call_listener get_class doc (to_json version s) s
      = Returned tt s' ∧
    doc_ref (self s') = doc ∧
    root_ids s' = root_ids s ∧
    title s' = title s ∧
    reachable_ids s' = reachable_ids s ∧
    dom (_all_models (self s')) = dom (_all_models (self s)) ∧
    closure_invariant s'.
Proof.
  intros (Hinv & [t Ht] & Hclosed & Hroots & Hids & Hreg & Hholds).
  set (store0 := models s) in *.
  set (ms := (map_to_list (_all_models (self s))).*2).
  destruct (written_models s Hinv) as [Hms Hnodup].
  destruct (reachable_closed s Hclosed Hroots) as [Hdom Hsucc].
  fold store0 ms in Hms, Hnodup, Hdom, Hsucc.
  assert (∀ r, r ∈ _roots (self s) → r ∈ ms) as Hroots_ms.
  { intros r Hr. apply Hms, elem_of_new_all_models_set.
    exists r. split; [done|]. apply elem_of_references_self. }
  (* the first phase *)
  destruct (instantiate_loop_spec get_class store0 ms Hnodup) with
    (acc := (∅ : gmap string Model)) (s := s)
    as (I & store1 & Hloop1 & Hsub1 & _ & Hinst1 & Himg1 & Hinj1 & Hnew1).
  { intros m Hm%Hms%Hdom.
    apply (Hreg m). by apply lookup_lookup_total_dom. }
  { intros i x. by rewrite lookup_empty. }
  { intros i j x. by rewrite lookup_empty. }
  fold store0 in Hsub1, Hinst1, Hnew1.
  set (φ := λ m, default m (I !! id_of store0 m)).
  assert (∀ m, m ∈ ms →
            I !! id_of store0 m = Some (φ m) ∧
            store1 !! φ m
              = Some (mkModelObj (id_of store0 m)
                        (model_class (store0 !!! m)) ∅)) as Hφ.
  { intros m Hm. destruct (Hinst1 m Hm) as (inst & Hi & _ & Hobj).
    unfold φ. by rewrite Hi. }
  (* the second phase *)
  destruct (initialize_loop_spec store0 I φ ms Hnodup Hinj1) with
    (s := with_models (λ _, store1) s)
    as (store2 & Hloop2 & Hother2 & Hms2).
  { intros m Hm. by apply Hφ. }
  { intros m p v Hm Hv Hp.
    assert (m ∈ dom store0) as Hmdom by (by apply Hdom, Hms).
    split.
    - apply (Hholds m (store0 !!! m) p v); [|done..].
      by apply lookup_lookup_total_dom.
    - intros x Hx. apply Hφ, Hms, (Hsucc m); [by apply Hms|].
      rewrite successors_lookup by done.
      apply elem_of_immediate_references. by exists p, v. }
  { intros m Hm. by apply Hφ. }
  cbn [models with_models] in Hother2.
  (* the graph of the instances *)
  assert (∀ x, x ∈ ms →
            ModelCap.successors store2 (φ x)
              = set_map φ (ModelCap.successors store0 x) ∧
            id_of store2 (φ x) = id_of store0 x ∧
            φ x ∈ dom store2) as Hinstances.
  { intros x Hx. destruct (Hms2 x Hx) as (attrs' & Hobj & Hattrs).
    split; [|split].
    - unfold ModelCap.successors at 1. rewrite Hobj.
      rewrite successors_lookup by (by apply Hdom, Hms).
      by apply immediate_references_renamed.
    - unfold id_of. by rewrite (lookup_total_correct _ _ _ Hobj).
    - apply elem_of_dom. by eexists. }
  assert (∀ y, y ∈ dom store2 ↔ y ∈ dom store1) as Hdom2.
  { intros y. destruct (decide (y ∈ φ <$> ms)) as [Hin|Hnin].
    - apply list_elem_of_fmap in Hin as (m & -> & Hm).
      split; intros _; [|by apply Hinstances].
      apply elem_of_dom. destruct (Hφ m Hm) as [_ ->]. by eexists.
    - by rewrite !elem_of_dom, Hother2. }
  assert (closed_store store2) as Hclosed2.
  { intros y o2 Hy z Hz.
    destruct (decide (y ∈ φ <$> ms)) as [Hin|Hnin].
    - apply list_elem_of_fmap in Hin as (m & -> & Hm).
      assert (z ∈ ModelCap.successors store2 (φ m)) as Hz'
        by (unfold ModelCap.successors; by rewrite Hy).
      rewrite (proj1 (Hinstances m Hm)) in Hz'.
      apply elem_of_map in Hz' as (z0 & -> & Hz0).
      apply Hinstances, Hms, (Hsucc m); [by apply Hms|done].
    - rewrite Hother2 in Hy by done.
      destruct (Hnew1 y) as [Hold|(m & Hm & Hacc)];
        [apply elem_of_dom; by eexists| |].
      + apply Hdom2. apply (subseteq_dom _ _ Hsub1).
        apply (Hclosed y o2); [|done].
        apply lookup_lookup_total_dom in Hold as Hold'.
        pose proof (lookup_weaken _ _ _ _ Hold' Hsub1) as Hy'.
        rewrite Hy in Hy'. injection Hy' as ->. exact Hold'.
      + exfalso. apply Hnin. apply list_elem_of_fmap. exists m.
        split; [|done]. destruct (Hφ m Hm) as [Hi _].
        rewrite Hacc in Hi. by injection Hi.
  }
  assert (∀ r, r ∈ _roots (self s) →
            ModelCap.references store2 (φ r)
              = set_map φ (ModelCap.references store0 r)) as Hrefs.
  { intros r Hr. apply references_image; [done|done|by apply Hroots| |].
    - by apply Hinstances, Hroots_ms.
    - intros x Hx. apply Hinstances, Hms, elem_of_new_all_models_set.
      by exists r. }
  (* the roots *)
  set (s3 := with_self (λ _, Document_init doc None)
               (with_models (λ _, store2) (with_models (λ _, store1) s))).
  destruct (add_roots_no_listeners call_listener I (id_of store0) φ
              (elements (_roots (self s)))) with (s := s3)
    as (s4 & Hloop3 & Hinv4 & Hroots4 & Hmodels4 & Hcount4 & Hnone4
        & Htitle4 & Href4).
  { intros r Hr%elem_of_elements. by apply Hφ, Hroots_ms. }
  { done. }
  { done. }
  { apply closure_invariant_new. }
  { intros r1 r2 a b Hr1 Hr2 Ha Hb Hid. cbn in Hr1, Hr2, Ha, Hb, Hid.
    assert (∀ r', r' ∈ list_to_set (φ <$> elements (_roots (self s)))
                    ∪ (∅ : gset Model) →
              ∃ r, r' = φ r ∧ r ∈ _roots (self s)) as Hroot.
    { intros r' [Hr'|?%elem_of_empty]%elem_of_union; [|done].
      apply elem_of_list_to_set, list_elem_of_fmap in Hr'
        as (r & -> & Hr%elem_of_elements).
      by exists r. }
    destruct (Hroot r1 Hr1) as (r1' & -> & Hr1').
    destruct (Hroot r2 Hr2) as (r2' & -> & Hr2').
    rewrite Hrefs in Ha, Hb by done.
    apply elem_of_map in Ha as (a0 & -> & Ha0).
    apply elem_of_map in Hb as (b0 & -> & Hb0).
    assert (a0 ∈ ms) as Ha1
      by (apply Hms, elem_of_new_all_models_set; by exists r1').
    assert (b0 ∈ ms) as Hb1
      by (apply Hms, elem_of_new_all_models_set; by exists r2').
    rewrite (proj1 (proj2 (Hinstances a0 Ha1))) in Hid.
    rewrite (proj1 (proj2 (Hinstances b0 Hb1))) in Hid.
    f_equal. by apply (Hids r1' r2'). }
  cbn [models self _roots s3 with_self with_models Document_init] in *.
  (* the title *)
  destruct (title_setter_no_listeners call_listener t s4 Hnone4)
    as (s5 & Htitle & Ht5 & Hall5 & Hroots5 & Hmodels5 & Hback5 & Href5).
  assert (closure_invariant s5) as Hinv5
    by (by apply (closure_invariant_ext s4)).
  assert (∀ x', x' ∈ new_all_models_set s5 ↔
                ∃ x, x' = φ x ∧ x ∈ new_all_models_set s) as Hnew5.
  { intros x'. rewrite elem_of_new_all_models_set.
    rewrite Hroots5, Hroots4, Hmodels5, Hmodels4. split.
    - intros (r' & Hr' & Hx').
      apply elem_of_union in Hr' as [Hr'|?%elem_of_empty]; [|done].
      apply elem_of_list_to_set, list_elem_of_fmap in Hr'
        as (r & -> & Hr%elem_of_elements).
      rewrite Hrefs in Hx' by done.
      apply elem_of_map in Hx' as (x & -> & Hx).
      exists x. split; [done|]. apply elem_of_new_all_models_set.
      by exists r.
    - intros (x & -> & (r & Hr & Hx)%elem_of_new_all_models_set).
      exists (φ r). split.
      + apply elem_of_union. left.
        apply elem_of_list_to_set, list_elem_of_fmap. exists r.
        split; [done|]. by apply elem_of_elements.
      + rewrite Hrefs by done. apply elem_of_map. by exists x. }
  assert (reachable_ids s5 = reachable_ids s) as Hreach.
  { apply set_eq. intros i. unfold reachable_ids.
    rewrite !elem_of_map, Hmodels5, Hmodels4. split.
    - intros (x' & -> & (x & -> & Hx)%Hnew5).
      exists x. split; [|done]. by apply Hinstances, Hms.
    - intros (x & -> & Hx). exists (φ x). split.
      + symmetry. by apply Hinstances, Hms.
      + apply Hnew5. by exists x. }
  exists s5. split; [|split; [|split; [|split; [|split; [|split]]]]].
  - unfold from_json, bind. rewrite to_json_references.
    unfold _instantiate_references_json.
    fold store0 ms. rewrite Hloop1, Hloop2. unfold modify.
    fold s3.
    change (json_root_ids (to_json version s))
      with (id_of store0 <$> elements (_roots (self s))).
    rewrite Hloop3.
    change (json_title (to_json version s)) with (_title (self s)).
    by rewrite Ht.
  - by rewrite Href5, Href4.
  - apply set_eq. intros i. unfold root_ids.
    rewrite !elem_of_map, Hmodels5, Hmodels4, Hroots5, Hroots4. split.
    + intros (r' & -> & Hr').
      apply elem_of_union in Hr' as [Hr'|?%elem_of_empty]; [|done].
      apply elem_of_list_to_set, list_elem_of_fmap in Hr'
        as (r & -> & Hr%elem_of_elements).
      exists r. split; [|done]. by apply Hinstances, Hroots_ms.
    + intros (r & -> & Hr). exists (φ r). split.
      * symmetry. by apply Hinstances, Hroots_ms.
      * apply elem_of_union. left.
        apply elem_of_list_to_set, list_elem_of_fmap. exists r.
        split; [done|]. by apply elem_of_elements.
  - unfold title. by rewrite Ht5, Ht.
  - exact Hreach.
  - by rewrite !dom_all_models, Hreach.
  - exact Hinv5.
Qed.

End round_trip.

(** *** The document of the two models, written and read back *)

Lemma two_models_lookup (x : Model) (o : ModelObj) :
  two_models !! x = Some o →
  (x = 1%positive ∧
   o = mkModelObj "a" Plot {[ "child" := VModel 2%positive ]}) ∨
  (x = 2%positive ∧
   o = mkModelObj "b" Plot {[ "child" := VModel 1%positive ]}).
Proof.
  unfold two_models.
  intros [[<- <-]|[_ [<- <-]%lookup_singleton_Some]]%lookup_insert_Some;
    auto.
Qed.

Lemma dom_two_models : dom two_models = {[1%positive; 2%positive]}.
Proof. unfold two_models. by rewrite dom_insert_L, dom_singleton_L. Qed.

Lemma immediate_references_child (i : string) (m : Model) :
  ModelCap.immediate_references
    (mkModelObj i Plot {[ "child" := VModel m ]}) = {[m]}.
Proof.
  apply set_eq. intros y. rewrite elem_of_immediate_references.
  cbn [model_attrs]. split.
  - intros (p & v & [<- <-]%lookup_singleton_Some & _ & Hy). done.
  - intros ->%elem_of_singleton. exists "child", (VModel m).
    split; [apply lookup_singleton_eq|]. split; [by vm_compute|].
    cbn. set_solver.
Qed.

Lemma well_formed_cycle : well_formed get_class_Plot cycle_document_state.
Proof.
  split; [|split; [|split; [|split; [|split; [|split]]]]].
  - exact closure_invariant_cycle.
  - by eexists.
  - intros x o [[-> ->]|[-> ->]]%two_models_lookup;
      cbn [models cycle_document_state];
      rewrite immediate_references_child, dom_two_models; set_solver.
  - cbn [models cycle_document_state self _roots].
    rewrite dom_two_models. set_solver.
  - eapply distinct_ids_mono; [|exact distinct_ids_two_models].
    cbn. set_solver.
  - by intros x o [[-> ->]|[-> ->]]%two_models_lookup.
  - intros x o p v [[-> ->]|[-> ->]]%two_models_lookup;
      cbn [model_attrs];
      intros [<- <-]%lookup_singleton_Some; done.
Qed.

(** The document whose root is model [1], written and read back. *)
Lemma from_json_to_json_witness :
  well_formed get_class_Plot cycle_document_state ∧
  ∃ s',
    from_json observer get_class_Plot 1
      (to_json "0.11" cycle_document_state) cycle_document_state
      = Returned tt s' ∧
    doc_ref (self s') = 1 ∧
    root_ids s' = root_ids cycle_document_state ∧
    title s' = title cycle_document_state ∧
    reachable_ids s' = reachable_ids cycle_document_state ∧
    dom (_all_models (self s')) = dom (_all_models (self cycle_document_state)) ∧
    closure_invariant s'.
Proof.
  split; [exact well_formed_cycle|].
  exact (from_json_to_json observer get_class_Plot "0.11" 1
           cycle_document_state well_formed_cycle).
Defined.

(** The document read back: its root has id [a], its table holds the ids
    [a] and [b] of two new objects that refer to each other, and its title
    is the title written. *)
Lemma from_json_to_json_cycle :
  ∃ s',
    from_json observer get_class_Plot 1
      (to_json "0.11" cycle_document_state) cycle_document_state
      = Returned tt s' ∧
    _roots (self s') = {[3%positive]} ∧
    _all_models (self s') = {[ "a" := 3%positive; "b" := 4%positive ]} ∧
    models s' !! 3%positive
      = Some (mkModelObj "a" Plot {[ "child" := VModel 4%positive ]}) ∧
    models s' !! 4%positive
      = Some (mkModelObj "b" Plot {[ "child" := VModel 3%positive ]}) ∧
    _title (self s') = Some DEFAULT_TITLE.
Proof. eexists. split; [vm_compute; reflexivity|]. by vm_compute. Qed.

(** * Further properties *)

(** ** _MultiValuedDict: what is under a key *)

Section mvd_more.
Context {K V : Type} `{Countable K} `{Countable V}.
Import MultiValuedDict.

Lemma get_all_NoDup (k : option K) (d : gmap K (slot V)) :
  NoDup (get_all k d).
Proof.
  unfold get_all. destruct (dict_get k d) as [[v|s]|].
  - apply NoDup_singleton.
  - apply NoDup_elements.
  - apply NoDup_nil_2.
Qed.

Lemma add_value_lookup (k : K) (v : V) (d : gmap K (slot V)) :
  ∃ sl, add_value (Some k) (PyObj v) d = Ok (<[k := sl]> d) ∧
        ∀ x, x ∈ get_all (Some k) (<[k := sl]> d) ↔
             x ∈ get_all (Some k) d ∨ x = v.
Proof.
  unfold add_value.
  destruct (d !! k) as [[e|s]|] eqn:Hk; eexists; (split; [reflexivity|]);
    intros x; rewrite !get_all_unfold, lookup_insert_eq, Hk.
  - rewrite elem_of_elements, list_elem_of_singleton. set_solver.
  - rewrite !elem_of_elements. set_solver.
  - rewrite list_elem_of_singleton. split; [by right|].
    by intros [?%elem_of_nil|?].
Qed.

(** X1: [add_value] of an object under a key returns; afterwards
    [get_all] of that key lists the object besides what it listed before,
    [get_all] of any other key lists what it listed before, and no list
    holds a value twice. *)
Theorem get_all_add_value (k : K) (v : V) (d : gmap K (slot V)) :
  ∃ d', add_value (Some k) (PyObj v) d = Ok d' ∧
        (∀ k' x, x ∈ get_all (Some k') d' ↔
                 x ∈ get_all (Some k') d ∨ (k' = k ∧ x = v)) ∧
        (∀ k', NoDup (get_all (Some k') d')).
Proof.
  destruct (add_value_lookup k v d) as (sl & Hadd & Hall).
  exists (<[k := sl]> d). split; [done|]. split; [|intros; apply get_all_NoDup].
  intros k' x. destruct (decide (k' = k)) as [->|Hne].
  - rewrite Hall. naive_solver.
  - rewrite !get_all_unfold, lookup_insert_ne by done. naive_solver.
Qed.

Lemma remove_value_obj (k : K) (v : V) (d : gmap K (slot V)) :
  ∃ d', remove_value (Some k) (PyObj v) d = Ok d' ∧
        (∀ k', k' ≠ k → d' !! k' = d !! k') ∧
        (∀ x, x ∈ get_all (Some k) d' ↔ x ∈ get_all (Some k) d ∧ x ≠ v) ∧
        d' !! k ≠ Some (Many ∅).
Proof.
  unfold remove_value. rewrite !get_all_unfold.
  destruct (d !! k) as [[e|s]|] eqn:Hk; cbn [eq_value discard].
  - case_bool_decide as He.
    + subst e. eexists. split; [done|].
      split; [by intros; rewrite lookup_delete_ne|].
      rewrite get_all_unfold, lookup_delete_eq. split; [|done].
      intros x. rewrite list_elem_of_singleton.
      split; [by intros ?%elem_of_nil|]. by intros [? ?].
    + eexists. split; [done|]. split; [done|].
      rewrite get_all_unfold, Hk. split; [|done].
      intros x. rewrite list_elem_of_singleton.
      split; [intros ->; by split|]. by intros [? ?].
  - case_bool_decide as Hsz.
    + eexists. split; [done|].
      split; [by intros; rewrite lookup_delete_ne|].
      rewrite get_all_unfold, lookup_delete_eq. split; [|done].
      intros x. rewrite elem_of_elements.
      apply size_empty_inv in Hsz.
      split; [by intros ?%elem_of_nil|]. set_solver.
    + eexists. split; [done|].
      split; [by intros; rewrite lookup_insert_ne|].
      rewrite get_all_unfold, lookup_insert_eq. split.
      * intros x. rewrite !elem_of_elements. set_solver.
      * intros Heq. apply Hsz.
        assert (s ∖ {[v]} = ∅) as -> by congruence. apply size_empty.
  - eexists. split; [done|]. split; [done|].
    rewrite get_all_unfold, Hk. split; [|done].
    intros x. split; [by intros ?%elem_of_nil|]. by intros [?%elem_of_nil _].
Qed.

(** X2: [remove_value] of an object under a key returns, whether the
    object, or the key, is there or not; afterwards [get_all] of that key
    lists what it listed before without the object, and [get_all] of any
    other key lists what it listed before. *)
Theorem get_all_remove_value (k : K) (v : V) (d : gmap K (slot V)) :
  ∃ d', remove_value (Some k) (PyObj v) d = Ok d' ∧
        ∀ k' x, x ∈ get_all (Some k') d' ↔
                x ∈ get_all (Some k') d ∧ ¬ (k' = k ∧ x = v).
Proof.
  destruct (remove_value_obj k v d) as (d' & Hrem & Hother & Hall & _).
  exists d'. split; [done|]. intros k' x.
  destruct (decide (k' = k)) as [->|Hne].
  - rewrite Hall. naive_solver.
  - rewrite !get_all_unfold, Hother by done. naive_solver.
Qed.

Lemma add_value_no_empty_set (key : option K) (value : pyvalue V)
  (d d' : gmap K (slot V)) :
  no_empty_set d → add_value key value d = Ok d' → no_empty_set d'.
Proof.
  intros Hd. unfold add_value.
  destruct key as [k|]; [|discriminate].
  destruct value as [ |s|v]; try discriminate.
  destruct (d !! k) as [[e|s]|] eqn:Hk; intros [= <-] k';
    (destruct (decide (k' = k)) as [->|Hne];
     [rewrite lookup_insert_eq|rewrite lookup_insert_ne by done; apply Hd]).
  - intros Heq. assert (({[e; v]} : gset V) = ∅) as Heq' by congruence.
    set_solver.
  - intros Heq. assert ({[v]} ∪ s = ∅) as Heq' by congruence.
    set_solver.
  - done.
Qed.

Lemma remove_value_no_empty_set (key : option K) (value : pyvalue V)
  (d d' : gmap K (slot V)) :
  no_empty_set d → remove_value key value d = Ok d' → no_empty_set d'.
Proof.
  intros Hd. unfold remove_value.
  destruct key as [k|]; [|discriminate].
  destruct (d !! k) as [[e|s]|] eqn:Hk.
  - destruct (eq_value e value); intros [= <-] k'; [|apply Hd].
    destruct (decide (k' = k)) as [->|Hne];
      [by rewrite lookup_delete_eq|rewrite lookup_delete_ne by done; apply Hd].
  - case_bool_decide as Hsz; intros [= <-] k';
      (destruct (decide (k' = k)) as [->|Hne]).
    + by rewrite lookup_delete_eq.
    + rewrite lookup_delete_ne by done. apply Hd.
    + rewrite lookup_insert_eq. intros Heq. apply Hsz.
      assert (discard value s = ∅) as -> by congruence. apply size_empty.
    + rewrite lookup_insert_ne by done. apply Hd.
  - destruct value; [discriminate|..]; intros [= <-]; apply Hd.
Qed.

Lemma mvd_reachable_no_empty_set (d : gmap K (slot V)) :
  mvd_reachable d → no_empty_set d.
Proof.
  induction 1 as [|key value d d' _ IH Hadd|key value d d' _ IH Hrem].
  - intros k. unfold init. by rewrite lookup_empty.
  - by eapply add_value_no_empty_set.
  - by eapply remove_value_no_empty_set.
Qed.

Lemma get_all_nil_no_empty_set (k : K) (d : gmap K (slot V)) :
  no_empty_set d → get_all (Some k) d = [] ↔ d !! k = None.
Proof.
  intros Hd. rewrite get_all_unfold. specialize (Hd k).
  destruct (d !! k) as [[e|s]|]; [done| |done].
  split; [|done]. intros Hel. exfalso. apply Hd. f_equal. f_equal.
  by apply leibniz_equiv, elements_empty_inv.
Qed.

(** X3: a dictionary made from the empty one by [add_value] and
    [remove_value] never holds an empty set under a key: a key is in it
    exactly when [get_all] of the key lists a value. *)
Theorem mvd_key_present_iff_value (d : gmap K (slot V)) :
  mvd_reachable d →
  ∀ k, (d !! k ≠ Some (Many ∅)) ∧ (is_Some (d !! k) ↔ get_all (Some k) d ≠ []).
Proof.
  intros Hd%mvd_reachable_no_empty_set k. split; [apply Hd|].
  rewrite (get_all_nil_no_empty_set k d Hd).
  rewrite <-not_eq_None_Some. done.
Qed.

Lemma get_one_get_all (k : option K) (d : gmap K (slot V)) :
  no_empty_set d →
  get_one k d =
  match get_all k d with
  | [] => Ok None
  | [v] => Ok (Some v)
  | _ => Raise ValueError
  end.
Proof.
  intros Hd. unfold get_one, get_all.
  destruct k as [k|]; cbn [dict_get]; [|done].
  specialize (Hd k).
  destruct (d !! k) as [[e|s]|]; [done| |done].
  destruct (elements s) as [|v [|w l]] eqn:Hel; [|done..].
  exfalso. apply Hd. f_equal. f_equal.
  by apply leibniz_equiv, elements_empty_inv.
Qed.

(** X4: on a dictionary made by [add_value] and [remove_value], [get_one]
    gives what [get_all] lists: [None] for an empty list, the value for a
    list of one, also when it is kept in a set, and [ValueError] for a
    longer list. *)
Theorem get_one_of_get_all (k : option K) (d : gmap K (slot V)) :
  mvd_reachable d →
  get_one k d =
  match get_all k d with
  | [] => Ok None
  | [v] => Ok (Some v)
  | _ => Raise ValueError
  end.
Proof. intros Hd%mvd_reachable_no_empty_set. by apply get_one_get_all. Qed.

(** X5: [remove_value] of [None] under a key, on a dictionary made by
    [add_value] and [remove_value]: it raises [KeyError] when the key is not
    there, and returns the dictionary as it was when the key is there. *)
Theorem remove_value_None (k : K) (d : gmap K (slot V)) :
  mvd_reachable d →
  remove_value (Some k) PyNone d =
  match d !! k with
  | None => Raise KeyError
  | Some _ => Ok d
  end.
Proof.
  intros Hd%mvd_reachable_no_empty_set. unfold remove_value.
  specialize (Hd k).
  destruct (d !! k) as [[e|s]|] eqn:Hk; [done| |done].
  cbn [discard]. rewrite bool_decide_eq_false_2.
  - by rewrite insert_id.
  - intros Hsz. apply Hd. f_equal. f_equal.
    by apply leibniz_equiv, size_empty_inv.
Qed.

End mvd_more.

Lemma mvd_reachable_one_left : mvd_reachable one_left.
Proof.
  eapply (mvd_reachable_remove (Some "p") (MultiValuedDict.PyObj 1)).
  - eapply (mvd_reachable_add (Some "p") (MultiValuedDict.PyObj 2)).
    + eapply (mvd_reachable_add (Some "p") (MultiValuedDict.PyObj 1)).
      * apply mvd_reachable_init.
      * reflexivity.
    + reflexivity.
  - vm_compute. reflexivity.
Qed.

(** The key ["p"] of [one_left] holds a value, the key ["q"] none. *)
Lemma mvd_key_present_iff_value_witness :
  mvd_reachable one_left ∧
  (is_Some (one_left !! "p") ↔
   MultiValuedDict.get_all (Some "p") one_left ≠ []) ∧
  (is_Some (one_left !! "q") ↔
   MultiValuedDict.get_all (Some "q") one_left ≠ []).
Proof.
  split; [exact mvd_reachable_one_left|].
  split.
  - exact (proj2 (mvd_key_present_iff_value one_left
                    mvd_reachable_one_left "p")).
  - exact (proj2 (mvd_key_present_iff_value one_left
                    mvd_reachable_one_left "q")).
Defined.

(** The value left in the set is the one [get_one] gives. *)
Lemma get_one_of_get_all_witness :
  mvd_reachable one_left ∧
  MultiValuedDict.get_all (Some "p") one_left = [2] ∧
  MultiValuedDict.get_one (Some "p") one_left = Ok (Some 2).
Proof.
  split; [exact mvd_reachable_one_left|]. split; [reflexivity|].
  exact (get_one_of_get_all (Some "p") one_left mvd_reachable_one_left).
Defined.

(** [None] removed under a key that is there, and under one that is not. *)
Lemma remove_value_None_witness :
  mvd_reachable one_left ∧
  MultiValuedDict.remove_value (Some "p") MultiValuedDict.PyNone one_left
    = Ok one_left ∧
  MultiValuedDict.remove_value (Some "q") MultiValuedDict.PyNone one_left
    = Raise KeyError.
Proof.
  split; [exact mvd_reachable_one_left|]. split.
  - exact (remove_value_None "p" one_left mvd_reachable_one_left).
  - exact (remove_value_None "q" one_left mvd_reachable_one_left).
Defined.

(** ** Events: what [dispatch] calls *)

Section dispatch_more.
Import Dispatch.

Lemma guarded_call (receiver : Receiver) (name : string) (e : Event) :
  (if hasattr receiver name then call receiver name e else skip) =
  (map (λ n, mkCall n e) (filter (λ n, n ∈ receiver_attrs receiver) [name]),
   None).
Proof.
  unfold call, skip, hasattr. rewrite filter_cons, filter_nil.
  case_bool_decide; [rewrite decide_True by done|rewrite decide_False by done];
    done.
Qed.

Lemma andthen_filtered (receiver : Receiver) (e : Event) (l1 l2 : list string) :
  andthen
    (map (λ n, mkCall n e) (filter (λ n, n ∈ receiver_attrs receiver) l1),
     None)
    (map (λ n, mkCall n e) (filter (λ n, n ∈ receiver_attrs receiver) l2),
     None) =
  (map (λ n, mkCall n e)
     (filter (λ n, n ∈ receiver_attrs receiver) (l1 ++ l2)), None).
Proof. unfold andthen. cbn. by rewrite filter_app, map_app. Qed.

(** X6: for every event that is not a [ModelChangedEvent], [dispatch]
    raises nothing and calls, with the event itself, exactly those methods
    of the chain of its class that the receiver has, in the order of the
    chain: [_document_changed] first; [_document_patched] never for a
    session callback event. *)
Theorem dispatch_calls_chain (e : Event) (receiver : Receiver) :
  is_ModelChangedEvent e = false →
  dispatch e receiver =
  (map (λ n, mkCall n e)
     (filter (λ n, n ∈ receiver_attrs receiver) (dispatch_chain e)), None).
Proof.
  intros He.
  destruct e; try discriminate He; cbn [dispatch dispatch_chain];
    unfold DocumentPatchedEvent_dispatch, SessionCallbackAdded_dispatch,
      SessionCallbackRemoved_dispatch, DocumentChangedEvent_dispatch;
    rewrite ?guarded_call, ?andthen_filtered; reflexivity.
Qed.

(** X7: [dispatch] raises in one case only, and then [AttributeError]:
    the event is a [ModelChangedEvent] and the receiver has
    [_document_model_changed] but no [_document_patched]. *)
Theorem dispatch_raises_iff (e : Event) (receiver : Receiver) :
  ((dispatch e receiver).2 = Some AttributeError ↔
   is_ModelChangedEvent e = true ∧
   "_document_model_changed" ∈ receiver_attrs receiver ∧
   "_document_patched" ∉ receiver_attrs receiver) ∧
  ((dispatch e receiver).2 = None ∨
   (dispatch e receiver).2 = Some AttributeError).
Proof.
  destruct (decide (is_ModelChangedEvent e = true)) as [Hmc|Hmc].
  - destruct e; try discriminate Hmc. cbn [dispatch].
    unfold ModelChangedEvent_dispatch, DocumentPatchedEvent_dispatch,
      DocumentChangedEvent_dispatch, call, skip, hasattr, andthen.
    destruct (decide ("_document_changed" ∈ receiver_attrs receiver));
      destruct (decide ("_document_patched" ∈ receiver_attrs receiver));
      destruct (decide ("_document_model_changed" ∈ receiver_attrs receiver));
      repeat (first [rewrite bool_decide_eq_true_2 by done
                    |rewrite bool_decide_eq_false_2 by done]; cbn);
      (split; [split; [intros; try discriminate; by repeat split
                      |intros (_ & ? & ?); done]|]);
      by (left + right).
  - apply not_true_is_false in Hmc.
    assert ((dispatch e receiver).2 = None) as ->.
    { destruct e; try discriminate Hmc; cbn [dispatch];
        unfold DocumentPatchedEvent_dispatch, SessionCallbackAdded_dispatch,
          SessionCallbackRemoved_dispatch, DocumentChangedEvent_dispatch;
        by rewrite ?guarded_call, ?andthen_filtered. }
    split; [split; [discriminate|intros (? & _); congruence]|].
    by left.
Qed.

End dispatch_more.

(** A [SessionCallbackAdded] event at the receiver with the three methods
    for model changes: only [_document_changed] is called. *)
Lemma dispatch_calls_chain_witness :
  Dispatch.dispatch (SessionCallbackAdded 0 a_handle) full_receiver =
  ([Dispatch.mkCall "_document_changed" (SessionCallbackAdded 0 a_handle)],
   None).
Proof.
  exact (dispatch_calls_chain (SessionCallbackAdded 0 a_handle) full_receiver
           eq_refl).
Defined.

(** ** Listeners: the table of callbacks *)

Lemma filter_all {A} (P : A → Prop) `{∀ x, Decision (P x)} (l : list A) :
  (∀ x, x ∈ l → P x) → filter P l = l.
Proof.
  induction l as [|x l IH]; [done|]. intros Hall.
  rewrite filter_cons, decide_True by (apply Hall; by left).
  rewrite IH; [done|]. intros y Hy. apply Hall. by right.
Qed.

Lemma for_each_app {A} (l1 l2 : list A) (body : A -> M unit) (s : State) :
  for_each (l1 ++ l2) body s = (for_each l1 body ;; for_each l2 body) s.
Proof.
  revert s. induction l1 as [|x l1 IH]; intros s; [done|].
  cbn [app for_each]. unfold bind. destruct (body x s); [|done..].
  apply IH.
Qed.

Section pydict_facts.
Context {K V : Type} `{EqDecision K}.

Lemma PyDict_get_None (k : K) (d : list (K * V)) :
  PyDict.get k d = None ↔ k ∉ d.*1.
Proof.
  induction d as [|[k' v] d IH]; cbn.
  - split; [intros _ ?%elem_of_nil; done|done].
  - destruct (decide (k = k')) as [->|Hne].
    + split; [done|]. intros Hk. exfalso. apply Hk. by left.
    + rewrite IH. split.
      * intros Hk [?|?]%elem_of_cons; done.
      * intros Hk ?. apply Hk. by right.
Qed.

Lemma PyDict_contains_true (k : K) (d : list (K * V)) :
  PyDict.contains k d = true ↔ k ∈ d.*1.
Proof.
  unfold PyDict.contains.
  destruct (PyDict.get k d) eqn:Hget.
  - split; [|done]. intros _.
    destruct (decide (k ∈ d.*1)) as [|Hk]; [done|].
    apply PyDict_get_None in Hk. congruence.
  - split; [done|]. by intros ?%PyDict_get_None.
Qed.

Lemma PyDict_contains_false (k : K) (d : list (K * V)) :
  PyDict.contains k d = false ↔ k ∉ d.*1.
Proof.
  rewrite <-PyDict_contains_true. by destruct (PyDict.contains k d).
Qed.

(** A key that is not there goes to the end. *)
Lemma PyDict_set_new (k : K) (v : V) (d : list (K * V)) :
  k ∉ d.*1 → PyDict.set k v d = d ++ [(k, v)].
Proof.
  induction d as [|[k' v'] d IH]; cbn; [done|]. intros Hk.
  rewrite decide_False by (intros ->; apply Hk; by left).
  rewrite IH; [done|]. intros ?. apply Hk. by right.
Qed.

(** Deleting a key leaves the other entries, in their order. *)
Lemma PyDict_del_filter (k : K) (d : list (K * V)) :
  NoDup d.*1 → PyDict.del k d = filter (λ kv, kv.1 ≠ k) d.
Proof.
  induction d as [|[k' v'] d IH]; [done|].
  cbn [PyDict.del fmap list_fmap fst].
  intros [Hk' Hd]%NoDup_cons. rewrite filter_cons. cbn [fst].
  destruct (decide (k = k')) as [->|Hne].
  - rewrite decide_False by (by intros ?).
    symmetry. apply filter_all. intros [k v] Hkv Heq. cbn in Heq. subst k.
    apply Hk'. apply list_elem_of_fmap. by exists (k', v).
  - rewrite decide_True by done. by rewrite IH.
Qed.

Lemma NoDup_fst_filter (P : K * V → Prop) `{∀ x, Decision (P x)}
  (d : list (K * V)) :
  NoDup d.*1 → NoDup (filter P d).*1.
Proof.
  induction d as [|[k v] d IH]; [done|].
  cbn [fmap list_fmap fst]. intros [Hk Hd]%NoDup_cons.
  rewrite filter_cons. destruct (decide (P (k, v))); [|by apply IH].
  cbn [fmap list_fmap fst]. apply NoDup_cons. split; [|by apply IH].
  intros ((k' & v') & Heq & Hin%list_elem_of_filter)%list_elem_of_fmap.
  cbn in Heq. subst k'. apply Hk. apply list_elem_of_fmap.
  exists (k, v'). split; [done|]. by destruct Hin.
Qed.

End pydict_facts.

Section listeners_more.
Variable check_callback : Callable -> bool.

Lemma with_self_set_callbacks_id (s : State) :
  with_self (set_callbacks (_callbacks (self s))) s = s.
Proof. by destruct s as [[] ? ? ? ? ?]. Qed.

Lemma on_change_cons (cb : Callable) (cbs : list Callable) (s : State) :
  on_change check_callback (cb :: cbs) s =
  if PyDict.contains cb (_callbacks (self s))
  then on_change check_callback cbs s
  else if check_callback cb
  then on_change check_callback cbs
         (with_self (set_callbacks (_callbacks (self s) ++ [(cb, cb)])) s)
  else Raised ValueError s.
Proof.
  unfold on_change. cbn [for_each]. unfold bind at 1.
  destruct (PyDict.contains cb (_callbacks (self s))) eqn:Hc; [done|].
  destruct (check_callback cb); [|done].
  apply PyDict_contains_false in Hc.
  unfold with_self. cbv beta. by rewrite PyDict_set_new.
Qed.

(** The callables that are registered pass [on_change] unchanged. *)
Lemma on_change_registered (cbs : list Callable) (s : State) :
  (∀ cb, cb ∈ cbs → cb ∈ (_callbacks (self s)).*1) →
  on_change check_callback cbs s = Returned tt s.
Proof.
  induction cbs as [|cb cbs IH]; intros Hreg; [done|].
  rewrite on_change_cons.
  rewrite (proj2 (PyDict_contains_true cb _)) by (apply Hreg; by left).
  apply IH. intros c Hc. apply Hreg. by right.
Qed.

Lemma on_change_appends (cbs : list Callable) :
  ∀ s,
    (∀ cb, cb ∈ cbs →
       cb ∈ (_callbacks (self s)).*1 ∨ check_callback cb = true) →
    ∃ new,
      on_change check_callback cbs s =
        Returned tt
          (with_self
             (set_callbacks
                (_callbacks (self s) ++ map (λ cb, (cb, cb)) new)) s) ∧
      NoDup new ∧
      (∀ cb, cb ∈ new ↔ cb ∈ cbs ∧ cb ∉ (_callbacks (self s)).*1).
Proof.
  induction cbs as [|cb cbs IH]; intros s Hok.
  - exists []. cbn [map]. rewrite app_nil_r, with_self_set_callbacks_id.
    split; [done|]. split; [apply NoDup_nil_2|].
    intros cb. split; [by intros ?%elem_of_nil|by intros [?%elem_of_nil _]].
  - rewrite on_change_cons.
    destruct (PyDict.contains cb (_callbacks (self s))) eqn:Hc.
    + apply PyDict_contains_true in Hc.
      destruct (IH s) as (new & Hrun & Hnd & Hnew).
      { intros c Hin. apply Hok. by right. }
      exists new. split; [done|]. split; [done|].
      intros c. rewrite Hnew, elem_of_cons. naive_solver.
    + apply PyDict_contains_false in Hc.
      destruct (Hok cb) as [?|Hcheck]; [by left|done|].
      rewrite Hcheck.
      set (s1 := with_self _ s).
      destruct (IH s1) as (new & Hrun & Hnd & Hnew).
      { intros c Hin. subst s1. cbn. rewrite fmap_app, elem_of_app.
        destruct (Hok c) as [?|?]; [by right|by left; left|by right]. }
      exists (cb :: new). split; [|split].
      * rewrite Hrun. subst s1. cbn. by rewrite <-app_assoc.
      * apply NoDup_cons. split; [|done]. rewrite Hnew.
        intros [_ Hn]. apply Hn. subst s1. cbn.
        rewrite fmap_app, elem_of_app. right. by left.
      * intros c. rewrite !elem_of_cons, Hnew. subst s1. cbn.
        rewrite fmap_app, elem_of_app. cbn.
        rewrite list_elem_of_singleton.
        destruct (decide (c = cb)) as [->|Hne]; naive_solver.
Qed.

(** X8: [on_change] with callables that are registered already or pass
    [_check_callback] returns; it leaves the entries of the table where
    they are and puts after them one entry for every callable that was
    not registered, once also when it is handed over twice; nothing else
    changes, and the same call again changes nothing. *)
Theorem on_change_registers_once (cbs : list Callable) (s : State) :
  (∀ cb, cb ∈ cbs →
     cb ∈ (_callbacks (self s)).*1 ∨ check_callback cb = true) →
  ∃ new s',
    on_change check_callback cbs s = Returned tt s' ∧
    s' = with_self
           (set_callbacks (_callbacks (self s) ++ map (λ cb, (cb, cb)) new))
           s ∧
    NoDup new ∧
    (∀ cb, cb ∈ new ↔ cb ∈ cbs ∧ cb ∉ (_callbacks (self s)).*1) ∧
    on_change check_callback cbs s' = Returned tt s'.
Proof.
  intros Hok. destruct (on_change_appends cbs s Hok) as (new & Hrun & Hnd & Hnew).
  eexists new, _. split; [exact Hrun|]. split; [done|]. split; [done|].
  split; [done|].
  apply on_change_registered. intros cb Hcb. cbn.
  rewrite fmap_app, elem_of_app.
  destruct (decide (cb ∈ (_callbacks (self s)).*1)) as [?|Hn]; [by left|].
  right. rewrite <-list_fmap_compose. apply list_elem_of_fmap.
  exists cb. split; [done|]. by apply Hnew.
Qed.

(** X9: a callable that is not registered and does not pass
    [_check_callback] makes [on_change] raise [ValueError]; the callables
    handed over before it in the same call are registered by then and stay
    so, those after it are not looked at. *)
Theorem on_change_rejects (l1 l2 : list Callable) (cb : Callable) (s : State) :
  check_callback cb = false →
  cb ∉ (_callbacks (self s)).*1 → cb ∉ l1 →
  (∀ c, c ∈ l1 → c ∈ (_callbacks (self s)).*1 ∨ check_callback c = true) →
  ∃ s1,
    on_change check_callback l1 s = Returned tt s1 ∧
    on_change check_callback (l1 ++ cb :: l2) s = Raised ValueError s1 ∧
    (∀ c, c ∈ l1 → c ∈ (_callbacks (self s1)).*1).
Proof.
  intros Hcheck Hcb Hl1 Hok.
  destruct (on_change_appends l1 s Hok) as (new & Hrun & Hnd & Hnew).
  eexists. split; [exact Hrun|]. split.
  - unfold on_change in *. rewrite for_each_app. unfold bind at 1.
    rewrite Hrun. fold (on_change check_callback (cb :: l2)).
    rewrite on_change_cons. cbn [with_self self set_callbacks _callbacks].
    rewrite (proj2 (PyDict_contains_false cb _)), Hcheck; [done|].
    rewrite fmap_app, elem_of_app. intros [?|Hin]; [done|].
    rewrite <-list_fmap_compose in Hin.
    apply list_elem_of_fmap in Hin as (c & -> & Hc). cbn in Hl1.
    apply Hnew in Hc as [? _]. done.
  - intros c Hc. cbn. rewrite fmap_app, elem_of_app.
    destruct (decide (c ∈ (_callbacks (self s)).*1)) as [?|Hn]; [by left|].
    right. rewrite <-list_fmap_compose. apply list_elem_of_fmap.
    exists c. split; [done|]. by apply Hnew.
Qed.

End listeners_more.

Lemma remove_on_change_cons (cb : Callable) (cbs : list Callable) (s : State) :
  NoDup (_callbacks (self s)).*1 →
  remove_on_change (cb :: cbs) s =
  if decide (cb ∈ (_callbacks (self s)).*1)
  then remove_on_change cbs
         (with_self
            (set_callbacks (filter (λ kv, kv.1 ≠ cb) (_callbacks (self s))))
            s)
  else Raised KeyError s.
Proof.
  intros Hnd. unfold remove_on_change. cbn [for_each]. unfold bind at 1.
  destruct (decide (cb ∈ (_callbacks (self s)).*1)) as [Hin|Hnin].
  - rewrite (proj2 (PyDict_contains_true cb _)) by done.
    unfold with_self. cbv beta. by rewrite PyDict_del_filter.
  - by rewrite (proj2 (PyDict_contains_false cb _)) by done.
Qed.

Lemma remove_on_change_returns (cbs : list Callable) :
  ∀ s,
    NoDup (_callbacks (self s)).*1 →
    NoDup cbs → (∀ cb, cb ∈ cbs → cb ∈ (_callbacks (self s)).*1) →
    remove_on_change cbs s =
    Returned tt
      (with_self
         (set_callbacks (filter (λ kv, kv.1 ∉ cbs) (_callbacks (self s)))) s).
Proof.
  induction cbs as [|cb cbs IH]; intros s Hnd Hcbs Hreg.
  - rewrite filter_all by (intros ? _ ?%elem_of_nil; done).
    by rewrite with_self_set_callbacks_id.
  - apply NoDup_cons in Hcbs as [Hcb Hcbs].
    rewrite remove_on_change_cons by done.
    rewrite decide_True by (apply Hreg; by left).
    rewrite IH.
    + unfold with_self, set_callbacks. cbn. rewrite list_filter_filter.
      rewrite (list_filter_iff _ (λ kv, kv.1 ∉ cb :: cbs)); [done|].
      intros [k v]. cbn. rewrite not_elem_of_cons. naive_solver.
    + cbn. by apply NoDup_fst_filter.
    + done.
    + intros c Hc. cbn. apply list_elem_of_fmap.
      assert (c ∈ (_callbacks (self s)).*1) as Hin
        by (apply Hreg; by right).
      apply list_elem_of_fmap in Hin as ([k v] & -> & Hin).
      exists (k, v). split; [done|]. apply list_elem_of_filter.
      split; [|done]. cbn. intros ->. done.
Qed.

Lemma remove_on_change_raises (cbs : list Callable) :
  ∀ s,
    NoDup (_callbacks (self s)).*1 →
    ¬ (NoDup cbs ∧ ∀ cb, cb ∈ cbs → cb ∈ (_callbacks (self s)).*1) →
    ∃ s', remove_on_change cbs s = Raised KeyError s'.
Proof.
  induction cbs as [|cb cbs IH]; intros s Hnd Hbad.
  - exfalso. apply Hbad. split; [apply NoDup_nil_2|].
    by intros ? ?%elem_of_nil.
  - rewrite remove_on_change_cons by done.
    destruct (decide (cb ∈ (_callbacks (self s)).*1)) as [Hin|Hnin];
      [|by eexists].
    apply IH; [cbn; by apply NoDup_fst_filter|].
    cbn. intros [Hcbs Hreg]. apply Hbad. split.
    + apply NoDup_cons. split; [|done]. intros Hcb.
      apply Hreg in Hcb.
      apply list_elem_of_fmap in Hcb as ([k v] & -> & Hkv).
      apply list_elem_of_filter in Hkv as [Hne _]. by apply Hne.
    + intros c [->|Hc]%elem_of_cons; [done|].
      apply Hreg in Hc.
      apply list_elem_of_fmap in Hc as ([k v] & -> & Hkv).
      apply list_elem_of_filter in Hkv as [_ Hkv].
      apply list_elem_of_fmap. by exists (k, v).
Qed.

(** X10: [remove_on_change] returns exactly when every callable handed
    over is registered and none is handed over twice; it then leaves the
    other entries of the table in their order and changes nothing else.
    In every other case it raises [KeyError]. *)
Theorem remove_on_change_returns_iff (cbs : list Callable) (s : State) :
  NoDup (_callbacks (self s)).*1 →
  (NoDup cbs ∧ (∀ cb, cb ∈ cbs → cb ∈ (_callbacks (self s)).*1) →
   remove_on_change cbs s =
   Returned tt
     (with_self
        (set_callbacks (filter (λ kv, kv.1 ∉ cbs) (_callbacks (self s)))) s)) ∧
  (¬ (NoDup cbs ∧ ∀ cb, cb ∈ cbs → cb ∈ (_callbacks (self s)).*1) →
   ∃ s', remove_on_change cbs s = Raised KeyError s').
Proof.
  intros Hnd. split.
  - intros [Hcbs Hreg]. exact (remove_on_change_returns cbs s Hnd Hcbs Hreg).
  - exact (remove_on_change_raises cbs s Hnd).
Qed.

(** The callables [2], [3] and [3] again, handed to a document that has
    [1] and [2] registered. *)
Lemma on_change_registers_once_witness :
  ∃ s', on_change rejecting_check [2; 3; 3] two_listeners_state
          = Returned tt s' ∧
        _callbacks (self s') = [(1, 1); (2, 2); (3, 3)] ∧
        on_change rejecting_check [2; 3; 3] s' = Returned tt s'.
Proof.
  destruct (on_change_registers_once rejecting_check [2; 3; 3]
              two_listeners_state)
    as (new & s' & Hrun & _ & _ & _ & Hagain).
  { apply Forall_forall. repeat (apply Forall_cons_2;
      [cbv beta; apply (bool_decide_unpack _); vm_compute; exact I|]).
    apply Forall_nil_2. }
  exists s'. split; [exact Hrun|]. split; [|exact Hagain].
  vm_compute in Hrun. injection Hrun as <-. reflexivity.
Defined.

(** The callable [4] is rejected after [3] was registered. *)
Lemma on_change_rejects_witness :
  ∃ s1, on_change rejecting_check [3; 4; 5] two_listeners_state
          = Raised ValueError s1 ∧
        _callbacks (self s1) = [(1, 1); (2, 2); (3, 3)].
Proof.
  destruct (on_change_rejects rejecting_check [3] [5] 4 two_listeners_state)
    as (s1 & Hrun & Hraise & _).
  - reflexivity.
  - apply (bool_decide_unpack _). vm_compute. exact I.
  - apply (bool_decide_unpack _). vm_compute. exact I.
  - apply Forall_forall. repeat (apply Forall_cons_2;
      [cbv beta; apply (bool_decide_unpack _); vm_compute; exact I|]).
    apply Forall_nil_2.
  - exists s1. split; [exact Hraise|].
    vm_compute in Hrun. injection Hrun as <-. reflexivity.
Defined.

(** Listener [2] removed from the table of two; removed twice in one
    call. *)
Lemma remove_on_change_returns_iff_witness :
  NoDup (_callbacks (self two_listeners_state)).*1 ∧
  (∃ s', remove_on_change [2] two_listeners_state = Returned tt s' ∧
         _callbacks (self s') = [(1, 1)]) ∧
  (∃ s', remove_on_change [2; 2] two_listeners_state = Raised KeyError s').
Proof.
  assert (NoDup (_callbacks (self two_listeners_state)).*1) as Hnd
    by (apply (bool_decide_unpack _); vm_compute; exact I).
  destruct (remove_on_change_returns_iff [2] two_listeners_state Hnd)
    as [Hret _].
  destruct (remove_on_change_returns_iff [2; 2] two_listeners_state Hnd)
    as [_ Hraise].
  split; [exact Hnd|]. split.
  - eexists. split; [apply Hret|reflexivity].
    split; [apply (bool_decide_unpack _); vm_compute; exact I|].
    apply Forall_forall. repeat (apply Forall_cons_2;
      [cbv beta; apply (bool_decide_unpack _); vm_compute; exact I|]).
    apply Forall_nil_2.
  - apply Hraise. intros [Hcbs _]. revert Hcbs.
    apply (bool_decide_unpack _). vm_compute. exact I.
Defined.

(** ** The index by name *)

Section mvd_index.
Context {K V : Type} `{Countable K} `{Countable V}.
Import MultiValuedDict.

Lemma add_value_get_all (k : K) (v : V) (d : gmap K (slot V)) :
  ∃ d', add_value (Some k) (PyObj v) d = Ok d' ∧
        ∀ k' x, x ∈ get_all (Some k') d' ↔
                x ∈ get_all (Some k') d ∨ (k' = k ∧ x = v).
Proof.
  destruct (add_value_lookup k v d) as (sl & Hadd & Hall).
  exists (<[k := sl]> d). split; [done|].
  intros k' x. destruct (decide (k' = k)) as [->|Hne].
  - rewrite Hall. naive_solver.
  - rewrite !get_all_unfold, lookup_insert_ne by done. naive_solver.
Qed.

Lemma remove_value_get_all (k : K) (v : V) (d : gmap K (slot V)) :
  ∃ d', remove_value (Some k) (PyObj v) d = Ok d' ∧
        ∀ k' x, x ∈ get_all (Some k') d' ↔
                x ∈ get_all (Some k') d ∧ ¬ (k' = k ∧ x = v).
Proof.
  destruct (remove_value_obj k v d) as (d' & Hrem & Hother & Hall & _).
  exists d'. split; [done|]. intros k' x.
  destruct (decide (k' = k)) as [->|Hne].
  - rewrite Hall. naive_solver.
  - rewrite !get_all_unfold, Hother by done. naive_solver.
Qed.

(** What [get_one] gives, from what [get_all] lists. *)
Lemma get_one_cases (k : K) (d : gmap K (slot V)) :
  no_empty_set d →
  ((∀ x, x ∉ get_all (Some k) d) → get_one (Some k) d = Ok None) ∧
  (∀ v, v ∈ get_all (Some k) d →
        (∀ x, x ∈ get_all (Some k) d → x = v) →
        get_one (Some k) d = Ok (Some v)) ∧
  (∀ a b, a ≠ b → a ∈ get_all (Some k) d → b ∈ get_all (Some k) d →
          get_one (Some k) d = Raise ValueError).
Proof.
  intros Hd. rewrite (get_one_get_all (Some k) d Hd).
  pose proof (get_all_NoDup (Some k) d) as Hnd.
  destruct (get_all (Some k) d) as [|v [|w l]].
  - split; [done|]. split.
    + by intros v ?%elem_of_nil.
    + by intros a b _ ?%elem_of_nil.
  - split; [|split].
    + intros Hno. exfalso. apply (Hno v). by left.
    + intros v' ->%list_elem_of_singleton _. done.
    + intros a b Hab ->%list_elem_of_singleton ->%list_elem_of_singleton.
      done.
  - split; [|split].
    + intros Hno. exfalso. apply (Hno v). by left.
    + intros v' _ Hall. exfalso.
      apply NoDup_cons in Hnd as [Hv _]. apply Hv.
      rewrite (Hall v) by (by left).
      rewrite <-(Hall w) by (right; by left). by left.
    + done.
Qed.

End mvd_index.

(** The loop of [_recompute_all_models] builds the index by name of the
    models it goes over. *)
Lemma recompute_fold_by_name (store : gmap Model ModelObj) (l : list Model) :
  ∀ a b, ∃ b',
    foldl (recompute_step store) (Ok (a, b)) l =
      Ok (foldl (λ acc m, <[id_of store m := m]> acc) a l, b') ∧
    (no_empty_set b → no_empty_set b') ∧
    ∀ n x, x ∈ MultiValuedDict.get_all (Some n) b' ↔
           x ∈ MultiValuedDict.get_all (Some n) b ∨
           (x ∈ l ∧ name_of store x = Some n).
Proof.
  induction l as [|m l IH]; intros a b.
  - exists b. split; [done|]. split; [done|]. intros n x.
    split; [by left|]. by intros [?|[?%elem_of_nil _]].
  - cbn [foldl]. unfold recompute_step at 2. cbn [rbind fst snd].
    destruct (name_of store m) as [n0|] eqn:Hname.
    + destruct (add_value_get_all n0 m b) as (b1 & Hadd & Hall).
      rewrite Hadd. cbn [rbind].
      destruct (IH (<[id_of store m := m]> a) b1) as (b' & Hfold & Hne & Hb').
      exists b'. split; [done|]. split.
      * intros Hb. apply Hne. by eapply add_value_no_empty_set.
      * intros n x. rewrite Hb', Hall, elem_of_cons. naive_solver.
    + destruct (IH (<[id_of store m := m]> a) b) as (b' & Hfold & Hne & Hb').
      exists b'. split; [done|]. split; [done|].
      intros n x. rewrite Hb', elem_of_cons. naive_solver.
Qed.

Lemma _recompute_all_models_by_name (s : State) :
  ∃ by_name,
    _recompute_all_models s = Returned tt (recomputed_state by_name s) ∧
    name_index_invariant (recomputed_state by_name s).
Proof.
  unfold _recompute_all_models.
  destruct (recompute_fold_by_name (models s)
              (elements (new_all_models_set s)) ∅ MultiValuedDict.init)
    as (by_name & Hfold & Hne & Hall).
  exists by_name. split.
  - unfold new_all_models_set in Hfold.
    unfold bind at 1. rewrite Hfold. cbn [lift ret].
    unfold bind at 1. rewrite for_each_detach.
    unfold bind at 1. rewrite for_each_attach.
    by destruct s.
  - split; cbn.
    + apply Hne. intros k. unfold MultiValuedDict.init.
      by rewrite lookup_empty.
    + intros n x. rewrite Hall, elem_of_elements.
      change (new_all_models_set (recomputed_state by_name s))
        with (new_all_models_set s).
      split; [|by right].
      intros [Hin|?]; [|done].
      rewrite get_all_unfold in Hin. unfold MultiValuedDict.init in Hin.
      rewrite lookup_empty in Hin. by apply elem_of_nil in Hin.
Qed.

Lemma name_index_invariant_after_trigger (e : Event) (s : State) :
  name_index_invariant (after_trigger e s) ↔ name_index_invariant s.
Proof. done. Qed.

(** Freezing, changing the roots and unfreezing, with the counter at
    zero before: the index by name is built anew. *)
Lemma frozen_roots_update_by_name (f : gset Model -> gset Model) (s : State) :
  _all_models_freeze_count (self s) = 0%Z →
  ∃ by_name,
    (_push_all_models_freeze ;;
     try_finally (modify (with_self (λ d, set_roots (f (_roots d)) d)))
                 _pop_all_models_freeze) s =
    Returned tt
      (recomputed_state by_name
         (with_self (set_roots (f (_roots (self s)))) s)) ∧
    name_index_invariant
      (recomputed_state by_name
         (with_self (set_roots (f (_roots (self s)))) s)).
Proof.
  intros Hcount. rewrite frozen_roots_update.
  rewrite bool_decide_eq_true_2 by done.
  apply _recompute_all_models_by_name.
Qed.

Lemma add_root_by_name (call_listener : Callable -> Event -> M unit)
  (m : Model) (s : State) :
  observers call_listener →
  _all_models_freeze_count (self s) = 0%Z →
  m ∉ _roots (self s) →
  ∃ s', add_root call_listener m s = Returned tt s' ∧
        _roots (self s') = {[m]} ∪ _roots (self s) ∧
        name_index_invariant s'.
Proof.
  intros Hobs Hcount Hm.
  unfold add_root. rewrite bool_decide_eq_false_2 by done.
  rewrite bind_assoc. unfold bind at 1.
  destruct (frozen_roots_update_by_name (λ r, {[m]} ∪ r) s Hcount)
    as (by_name & -> & Hinv).
  rewrite _trigger_on_change_observers by done.
  eexists. split; [done|]. split; [done|].
  by apply name_index_invariant_after_trigger.
Qed.

Lemma remove_root_by_name (call_listener : Callable -> Event -> M unit)
  (m : Model) (s : State) :
  observers call_listener →
  _all_models_freeze_count (self s) = 0%Z →
  m ∈ _roots (self s) →
  ∃ s', remove_root call_listener m s = Returned tt s' ∧
        _roots (self s') = _roots (self s) ∖ {[m]} ∧
        name_index_invariant s'.
Proof.
  intros Hobs Hcount Hm.
  unfold remove_root. rewrite bool_decide_eq_false_2 by (by intros ?).
  rewrite bind_assoc. unfold bind at 1.
  destruct (frozen_roots_update_by_name (λ r, r ∖ {[m]}) s Hcount)
    as (by_name & -> & Hinv).
  rewrite _trigger_on_change_observers by done.
  eexists. split; [done|]. split; [done|].
  by apply name_index_invariant_after_trigger.
Qed.

(** X11: with the freeze counter at zero and listeners that only look,
    [add_root] of a model that is not a root and [remove_root] of a root
    return and leave an index by name that lists, under every name,
    exactly the models reachable from the roots that have the name. *)
Theorem name_index_rebuilt (call_listener : Callable -> Event -> M unit)
  (m : Model) (s : State) :
  observers call_listener →
  _all_models_freeze_count (self s) = 0%Z →
  (m ∉ _roots (self s) →
   ∃ s', add_root call_listener m s = Returned tt s' ∧
         _roots (self s') = {[m]} ∪ _roots (self s) ∧
         name_index_invariant s') ∧
  (m ∈ _roots (self s) →
   ∃ s', remove_root call_listener m s = Returned tt s' ∧
         _roots (self s') = _roots (self s) ∖ {[m]} ∧
         name_index_invariant s').
Proof.
  intros Hobs Hcount. split; intros Hm.
  - by apply add_root_by_name.
  - by apply remove_root_by_name.
Qed.

(** X12: when the index by name is that of the models reachable from the
    roots, [get_model_by_name] of a name gives [None] when no reachable
    model has the name, the model when exactly one has it, and raises
    [ValueError] when two have it; [get_model_by_name] of [None] gives
    [None]. *)
Theorem get_model_by_name_spec (n : string) (s : State) :
  name_index_invariant s →
  ((∀ x, x ∈ new_all_models_set s → name_of (models s) x ≠ Some n) →
   get_model_by_name (Some n) s = Ok None) ∧
  (∀ m, m ∈ new_all_models_set s → name_of (models s) m = Some n →
        (∀ x, x ∈ new_all_models_set s → name_of (models s) x = Some n →
              x = m) →
        get_model_by_name (Some n) s = Ok (Some m)) ∧
  (∀ a b, a ≠ b →
          a ∈ new_all_models_set s → name_of (models s) a = Some n →
          b ∈ new_all_models_set s → name_of (models s) b = Some n →
          get_model_by_name (Some n) s = Raise ValueError) ∧
  get_model_by_name None s = Ok None.
Proof.
  intros [Hne Hagree]. unfold get_model_by_name.
  destruct (get_one_cases n (_all_models_by_name (self s)) Hne)
    as (Hnone & Hone & Htwo).
  split; [|split; [|split]].
  - intros Hno. apply Hnone. intros x [Hx Hn]%Hagree. by eapply Hno.
  - intros m Hm Hn Huniq. apply Hone.
    + by apply Hagree.
    + intros x [Hx Hxn]%Hagree. by apply Huniq.
  - intros a b Hab Ha Han Hb Hbn. apply (Htwo a b Hab); by apply Hagree.
  - done.
Qed.

(** X13: for a selector with the one key [name] and a string under it,
    [select] gives the list of the index by name, without calling [find],
    and [select_one] gives what [get_model_by_name] gives for the string:
    the same model, [None], or [ValueError]. *)
Theorem select_one_by_name
  (find : gmap Model ModelObj -> list Model -> gmap string SelectorValue ->
          result (list Model))
  (selector : gmap string SelectorValue) (n : string) (s : State) :
  no_empty_set (_all_models_by_name (self s)) →
  size selector = 1 → selector !! "name" = Some (SelString n) →
  select find selector s =
    Ok (MultiValuedDict.get_all (Some n) (_all_models_by_name (self s))) ∧
  select_one find selector s = get_model_by_name (Some n) s.
Proof.
  intros Hne Hsize Hname.
  assert (select find selector s =
          Ok (MultiValuedDict.get_all (Some n)
                (_all_models_by_name (self s)))) as Hsel.
  { unfold select, _is_single_string_selector.
    rewrite bool_decide_eq_false_2 by (by intros []).
    by rewrite Hname. }
  split; [done|].
  unfold select_one, get_model_by_name. rewrite Hsel. cbn [rbind].
  rewrite (get_one_get_all (Some n) _ Hne).
  destruct (MultiValuedDict.get_all (Some n) _) as [|v [|w l]]; cbn [length].
  - by rewrite bool_decide_eq_false_2 by lia.
  - by rewrite bool_decide_eq_false_2 by lia.
  - by rewrite bool_decide_eq_true_2 by lia.
Qed.

(** *** The two models with the same name *)

Lemma add_root_named :
  add_root observer 2%positive one_named_state
    = Returned tt named_document_state.
Proof. vm_compute. reflexivity. Qed.

(** Model [2] added to the document whose root is model [1]; model [1]
    removed from it. *)
Lemma name_index_rebuilt_witness :
  observers observer ∧
  _all_models_freeze_count (self one_named_state) = 0%Z ∧
  (∃ s', add_root observer 2%positive one_named_state = Returned tt s' ∧
         name_index_invariant s') ∧
  (∃ s', remove_root observer 1%positive one_named_state = Returned tt s' ∧
         name_index_invariant s').
Proof.
  destruct (name_index_rebuilt observer 2%positive one_named_state
              observer_observers eq_refl) as [Hadd _].
  destruct (name_index_rebuilt observer 1%positive one_named_state
              observer_observers eq_refl) as [_ Hrem].
  split; [exact observer_observers|]. split; [reflexivity|]. split.
  - destruct Hadd as (s' & H1 & _ & H2).
    + apply (bool_decide_unpack _). vm_compute. exact I.
    + exists s'. split; [exact H1|exact H2].
  - destruct Hrem as (s' & H1 & _ & H2).
    + apply (bool_decide_unpack _). vm_compute. exact I.
    + exists s'. split; [exact H1|exact H2].
Defined.

Lemma name_index_invariant_named : name_index_invariant named_document_state.
Proof.
  destruct (add_root_by_name observer 2%positive one_named_state
              observer_observers eq_refl) as (s' & Hadd & _ & Hinv).
  - apply (bool_decide_unpack _). vm_compute. exact I.
  - rewrite add_root_named in Hadd. injection Hadd as <-. exact Hinv.
Qed.

Lemma new_all_models_set_named :
  new_all_models_set named_document_state = {[1%positive; 2%positive]}.
Proof. vm_compute. reflexivity. Qed.

(** Two models have the name ["p"], none the name ["q"]. *)
Lemma get_model_by_name_spec_witness :
  name_index_invariant named_document_state ∧
  get_model_by_name (Some "p") named_document_state = Raise ValueError ∧
  get_model_by_name (Some "q") named_document_state = Ok None.
Proof.
  destruct (get_model_by_name_spec "p" named_document_state
              name_index_invariant_named) as (_ & _ & Htwo & _).
  destruct (get_model_by_name_spec "q" named_document_state
              name_index_invariant_named) as (Hnone & _).
  split; [exact name_index_invariant_named|]. split.
  - apply (Htwo 1%positive 2%positive); try reflexivity; try discriminate;
      rewrite new_all_models_set_named; set_solver.
  - apply Hnone. intros x Hx. rewrite new_all_models_set_named in Hx.
    assert (x = 1%positive ∨ x = 2%positive) as [-> | ->] by set_solver;
      discriminate.
Defined.

(** The selector [{'name': 'p'}] on the same document. *)
Lemma select_one_by_name_witness :
  no_empty_set (_all_models_by_name (self named_document_state)) ∧
  select find_nothing name_p_selector named_document_state
    = Ok [2%positive; 1%positive] ∧
  select_one find_nothing name_p_selector named_document_state
    = Raise ValueError.
Proof.
  destruct (select_one_by_name find_nothing name_p_selector "p"
              named_document_state) as [Hsel Hone].
  - exact (proj1 name_index_invariant_named).
  - reflexivity.
  - reflexivity.
  - split; [exact (proj1 name_index_invariant_named)|].
    split; [exact Hsel|]. exact Hone.
Defined.

(** ** Change notification *)

Lemma update_by_name_ok
  (f : gmap string (MultiValuedDict.slot Model) ->
       result (gmap string (MultiValuedDict.slot Model)))
  (by_name : gmap string (MultiValuedDict.slot Model)) (s : State) :
  f (_all_models_by_name (self s)) = Ok by_name →
  update_by_name f s = Returned tt (with_by_name by_name s).
Proof. intros Hf. unfold update_by_name. by rewrite Hf. Qed.

Lemma with_by_name_id (s : State) :
  with_by_name (_all_models_by_name (self s)) s = s.
Proof. by destruct s as [[] ? ? ? ? ?]. Qed.

(** The two steps of [_notify_change] on the index, for a change of
    name. *)
Lemma rename_in_index (m : Model) (old new : option string)
  (by_name : gmap string (MultiValuedDict.slot Model)) (A : gset Model)
  (names : Model -> option string) :
  m ∈ A → names m = new → no_empty_set by_name →
  name_index_agrees by_name A
    (λ x, if decide (x = m) then old else names x) →
  ∃ b1 b2,
    match old with
    | Some o =>
      MultiValuedDict.remove_value (Some o) (MultiValuedDict.PyObj m) by_name
    | None => Ok by_name
    end = Ok b1 ∧
    match new with
    | Some n =>
      MultiValuedDict.add_value (Some n) (MultiValuedDict.PyObj m) b1
    | None => Ok b1
    end = Ok b2 ∧
    no_empty_set b2 ∧ name_index_agrees b2 A names.
Proof.
  intros Hm Hnew Hne Hagree.
  assert (∃ b1,
    match old with
    | Some o =>
      MultiValuedDict.remove_value (Some o) (MultiValuedDict.PyObj m) by_name
    | None => Ok by_name
    end = Ok b1 ∧
    no_empty_set b1 ∧
    ∀ n x, x ∈ MultiValuedDict.get_all (Some n) b1 ↔
           x ≠ m ∧ x ∈ A ∧ names x = Some n) as (b1 & Hb1 & Hne1 & H1).
  { destruct old as [o|].
    - destruct (remove_value_get_all o m by_name) as (b1 & Hrem & Hall).
      exists b1. split; [done|].
      split; [by eapply remove_value_no_empty_set|].
      intros n x. rewrite Hall, (Hagree n x).
      destruct (decide (x = m)) as [->|Hx]; naive_solver.
    - exists by_name. split; [done|]. split; [done|].
      intros n x. rewrite (Hagree n x).
      destruct (decide (x = m)) as [->|Hx]; naive_solver. }
  exists b1. destruct new as [n0|].
  - destruct (add_value_get_all n0 m b1) as (b2 & Hadd & Hall).
    exists b2. split; [done|]. split; [done|].
    split; [by eapply add_value_no_empty_set|].
    intros n x. rewrite Hall, H1.
    destruct (decide (x = m)) as [->|Hx]; naive_solver.
  - exists b1. split; [done|]. split; [done|]. split; [done|].
    intros n x. rewrite H1.
    destruct (decide (x = m)) as [->|Hx]; naive_solver.
Qed.

(** X14: [_notify_change] for the attribute [name], on a document whose
    index by name is that of the reachable models with the old name of the
    model, when the model has its new name: with listeners that only look
    it returns, the index by name agrees with the names again, nothing else
    of the document changes, and the [ModelChangedEvent] is emitted.  For
    another attribute the event is emitted and the document is left as it
    was. *)
Theorem _notify_change_renames (call_listener : Callable -> Event -> M unit)
  (m : Model) (old new : option string) (s : State) :
  observers call_listener →
  m ∈ new_all_models_set s →
  name_of (models s) m = new →
  no_empty_set (_all_models_by_name (self s)) →
  name_index_agrees (_all_models_by_name (self s)) (new_all_models_set s)
    (names_before (models s) m old) →
  (∃ by_name,
     _notify_change call_listener m "name" (name_value old) (name_value new) s
       = Returned tt
           (after_trigger
              (ModelChangedEvent (doc_ref (self s)) m "name"
                 (name_value old) (name_value new))
              (with_by_name by_name s)) ∧
     name_index_invariant (with_by_name by_name s)) ∧
  (∀ attr v v', attr ≠ "name" →
     _notify_change call_listener m attr v v' s
       = Returned tt
           (after_trigger (ModelChangedEvent (doc_ref (self s)) m attr v v')
              s)).
Proof.
  intros Hobs Hm Hnew Hne Hagree. split.
  - destruct (rename_in_index m old new _ _ (name_of (models s))
                Hm Hnew Hne Hagree) as (b1 & b2 & Hb1 & Hb2 & Hne2 & H2).
    exists b2. split; [|by split].
    unfold _notify_change. rewrite bool_decide_eq_true_2 by done.
    assert ((match name_value old with
             | VStr o =>
               update_by_name
                 (MultiValuedDict.remove_value (Some o)
                    (MultiValuedDict.PyObj m))
             | _ => ret tt
             end) s = Returned tt (with_by_name b1 s)) as Hstep1.
    { destruct old as [o|]; cbn [name_value].
      - by apply update_by_name_ok.
      - injection Hb1 as <-. by rewrite with_by_name_id. }
    assert ((match name_value new with
             | VStr n =>
               update_by_name
                 (MultiValuedDict.add_value (Some n)
                    (MultiValuedDict.PyObj m))
             | _ => ret tt
             end) (with_by_name b1 s) = Returned tt (with_by_name b2 s))
      as Hstep2.
    { destruct new as [n|]; cbn [name_value].
      - by rewrite (update_by_name_ok _ b2).
      - by injection Hb2 as <-. }
    unfold bind at 1. unfold bind at 1. rewrite Hstep1, Hstep2.
    by rewrite _trigger_on_change_observers.
  - intros attr v v' Hattr. unfold _notify_change.
    rewrite bool_decide_eq_false_2 by done.
    unfold bind, ret. by rewrite _trigger_on_change_observers.
Qed.

(** Model [2] was renamed from ["p"] to ["q"]: afterwards each name finds
    its model; model [1] is found in the set of one that is left under
    ["p"]. *)
Lemma _notify_change_renames_witness :
  observers observer ∧
  ∃ s', _notify_change observer 2%positive "name" (VStr "p") (VStr "q")
          renamed_document_state = Returned tt s' ∧
        name_index_invariant s' ∧
        get_model_by_name (Some "p") s' = Ok (Some 1%positive) ∧
        get_model_by_name (Some "q") s' = Ok (Some 2%positive).
Proof.
  split; [exact observer_observers|].
  destruct (_notify_change_renames observer 2%positive (Some "p") (Some "q")
              renamed_document_state observer_observers)
    as [(by_name & Hrun & Hinv) _].
  - apply (bool_decide_unpack _). vm_compute. exact I.
  - reflexivity.
  - exact (proj1 name_index_invariant_named).
  - intros n x.
    rewrite (proj2 name_index_invariant_named n x).
    change (new_all_models_set renamed_document_state)
      with (new_all_models_set named_document_state).
    rewrite new_all_models_set_named.
    split; intros [Hx Hn]; (split; [done|]);
      (assert (x = 1%positive ∨ x = 2%positive) as [-> | ->] by set_solver);
      exact Hn.
  - eexists. split; [exact Hrun|]. split; [exact Hinv|].
    cbn [name_value] in Hrun. vm_compute in Hrun.
    injection Hrun as Hby. clear Hinv. subst by_name.
    split; vm_compute; reflexivity.
Defined.

(** ** Roots: adding, removing, clearing *)

(** What [add_root] of a model that is not a root changes, with listeners
    that only look. *)
Lemma add_root_effect (call_listener : Callable -> Event -> M unit)
  (m : Model) (s : State) :
  observers call_listener → m ∉ _roots (self s) →
  ∃ s', add_root call_listener m s = Returned tt s' ∧
        _roots (self s') = {[m]} ∪ _roots (self s) ∧
        doc_ref (self s') = doc_ref (self s) ∧
        _all_models_freeze_count (self s')
          = _all_models_freeze_count (self s) ∧
        emitted s' = emitted s ++ [RootAddedEvent (doc_ref (self s)) m] ∧
        models s' = models s.
Proof.
  intros Hobs Hm.
  destruct (add_root_new call_listener m s Hobs Hm) as [by_name ->].
  eexists. split; [done|]. by case_bool_decide.
Qed.

(** X15: [add], with listeners that only look, returns; afterwards the
    roots are the roots before and the objects handed over, and one
    [RootAddedEvent] was emitted for every object that was not a root,
    once also when it is handed over twice, in the order of the
    objects. *)
Theorem add_emits_once_per_new_root
  (call_listener : Callable -> Event -> M unit) (objects : list Model)
  (s : State) :
  observers call_listener →
  ∃ s' new,
    add call_listener objects s = Returned tt s' ∧
    _roots (self s') = _roots (self s) ∪ list_to_set objects ∧
    emitted s' =
      emitted s ++ map (RootAddedEvent (doc_ref (self s))) new ∧
    NoDup new ∧
    (∀ m, m ∈ new ↔ m ∈ objects ∧ m ∉ _roots (self s)) ∧
    sublist new objects.
Proof.
  intros Hobs. revert s.
  induction objects as [|m objects IH]; intros s.
  - exists s, []. cbn. rewrite app_nil_r. split; [done|].
    split; [set_solver|]. split; [done|]. split; [apply NoDup_nil_2|].
    split; [|done]. intros m. split; [by intros ?%elem_of_nil|].
    by intros [?%elem_of_nil _].
  - unfold add. cbn [for_each]. unfold bind.
    destruct (decide (m ∈ _roots (self s))) as [Hin|Hnin].
    + rewrite add_root_present by done.
      destruct (IH s) as (s' & new & Hrun & Hroots & Hem & Hnd & Hnew & Hsub).
      exists s', new. split; [exact Hrun|].
      split; [rewrite Hroots; cbn; set_solver|]. split; [done|].
      split; [done|]. split; [|by apply sublist_cons].
      intros x. rewrite Hnew, elem_of_cons. naive_solver.
    + destruct (add_root_effect call_listener m s Hobs Hnin)
        as (s1 & -> & Hroots1 & Href1 & _ & Hem1 & _).
      destruct (IH s1) as (s' & new & Hrun & Hroots & Hem & Hnd & Hnew & Hsub).
      exists s', (m :: new). split; [exact Hrun|].
      split; [rewrite Hroots, Hroots1; cbn; set_solver|].
      split; [rewrite Hem, Hem1, Href1; cbn; by rewrite <-app_assoc|].
      split; [|split; [|by apply sublist_skip]].
      * apply NoDup_cons. split; [|done]. rewrite Hnew, Hroots1. set_solver.
      * intros x. rewrite !elem_of_cons, Hnew, Hroots1.
        destruct (decide (x = m)) as [->|Hx]; set_solver.
Qed.

(** Models [1], [2] and [1] again, added to the new document. *)
Lemma add_emits_once_per_new_root_witness :
  observers observer ∧
  ∃ s', add observer [1%positive; 2%positive; 1%positive] new_document_state
          = Returned tt s' ∧
        _roots (self s') = {[1%positive; 2%positive]} ∧
        emitted s' = [RootAddedEvent 0 1%positive; RootAddedEvent 0 2%positive].
Proof.
  split; [exact observer_observers|].
  destruct (add_emits_once_per_new_root observer
              [1%positive; 2%positive; 1%positive] new_document_state
              observer_observers) as (s' & new & Hrun & _).
  exists s'. split; [exact Hrun|].
  vm_compute in Hrun. injection Hrun as <-.
  split; vm_compute; reflexivity.
Defined.

(** What [remove_root] of a root changes in a frozen document, with
    listeners that only look. *)
Lemma remove_root_frozen (call_listener : Callable -> Event -> M unit)
  (m : Model) (s : State) :
  observers call_listener → m ∈ _roots (self s) →
  _all_models_freeze_count (self s) ≠ 0%Z →
  remove_root call_listener m s =
  Returned tt
    (after_trigger (RootRemovedEvent (doc_ref (self s)) m)
       (with_self (set_roots (_roots (self s) ∖ {[m]})) s)).
Proof.
  intros Hobs Hm Hcount.
  destruct (remove_root_old call_listener m s Hobs Hm) as [by_name ->].
  by rewrite bool_decide_eq_false_2 by done.
Qed.

(** The loop of [clear] in a frozen document: it removes the roots one
    by one, emits a [RootRemovedEvent] for each, and changes nothing but the
    roots. *)
Lemma clear_loop_emits (call_listener : Callable -> Event -> M unit) :
  observers call_listener →
  ∀ fuel s,
    _all_models_freeze_count (self s) ≠ 0%Z →
    size (_roots (self s)) ≤ fuel →
    ∃ rs,
      rs ≡ₚ elements (_roots (self s)) ∧
      clear_loop call_listener fuel s =
      Returned tt
        (mkState (set_roots ∅ (self s)) (models s) (document_of s)
           (io_curdoc s)
           (emitted s ++ map (RootRemovedEvent (doc_ref (self s))) rs)
           (invoked s ++
              concat (map (λ r, invocations
                                  (RootRemovedEvent (doc_ref (self s)) r)
                                  (doc_ref (self s))
                                  (PyDict.values (_callbacks (self s))))
                          rs))).
Proof.
  intros Hobs. induction fuel as [|fuel IH]; intros s Hcount Hsize.
  - assert (_roots (self s) = ∅) as Hempty
      by (apply leibniz_equiv, size_empty_inv; lia).
    exists []. cbn [clear_loop]. rewrite Hempty, elements_empty.
    split; [done|]. cbn. rewrite !app_nil_r, <-Hempty.
    by destruct s as [[] ? ? ? ? ?].
  - cbn [clear_loop].
    destruct (elements (_roots (self s))) as [|r l] eqn:Hel.
    + apply elements_empty_inv, leibniz_equiv in Hel.
      exists []. split; [done|]. cbn. rewrite !app_nil_r, <-Hel.
      by destruct s as [[] ? ? ? ? ?].
    + assert (r ∈ _roots (self s)) as Hr
        by (apply elem_of_elements; rewrite Hel; by left).
      unfold bind. rewrite remove_root_frozen by done.
      set (s1 := after_trigger _ _).
      destruct (IH s1) as (rs & Hperm & ->).
      * done.
      * subst s1. cbn.
        assert (size (_roots (self s) ∖ {[r]}) < size (_roots (self s)))
          by (apply subset_size; set_solver). lia.
      * exists (r :: rs). split.
        -- rewrite Hperm, <-Hel. subst s1. cbn.
           rewrite <-elements_union_singleton by set_solver.
           by rewrite <-union_difference_singleton_L.
        -- subst s1. cbn. by rewrite <-!app_assoc.
Qed.

(** [_recompute_all_models] of a document without roots: the tables are
    emptied and the models of the old table are detached. *)
Lemma _recompute_all_models_no_roots (s : State) :
  _roots (self s) = ∅ →
  _recompute_all_models s =
  Returned tt
    (mkState (set_all_models ∅ ∅ (self s)) (models s)
       (foldl (λ b d, delete d b) (document_of s)
          (elements (map_img (_all_models (self s)) : gset Model)))
       (io_curdoc s) (emitted s) (invoked s)).
Proof.
  intros Hroots. unfold _recompute_all_models.
  rewrite Hroots, elements_empty. cbn [foldl].
  rewrite difference_empty_L, elements_empty. cbn [foldl lift ret].
  unfold bind at 1. cbn [ret].
  unfold bind at 1. rewrite for_each_detach.
  unfold bind at 1.
  assert ((∅ : gset Model) ∖ map_img (_all_models (self s)) = ∅) as ->
    by set_solver.
  rewrite elements_empty. cbn [for_each ret].
  by destruct s.
Qed.

(** X16: [clear], with the freeze counter at zero, listeners that only
    look and a round of the loop for every root, returns; afterwards there
    is no root, the table by id and the index by name are empty, every
    model of the old table is detached, one [RootRemovedEvent] was emitted
    for every root, and the title, the listeners, the session callbacks
    and the models are as before. *)
Theorem clear_empties (call_listener : Callable -> Event -> M unit)
  (fuel : nat) (s : State) :
  observers call_listener →
  _all_models_freeze_count (self s) = 0%Z →
  size (_roots (self s)) ≤ fuel →
  ∃ s' rs,
    clear call_listener fuel s = Returned tt s' ∧
    rs ≡ₚ elements (_roots (self s)) ∧
    emitted s' = emitted s ++ map (RootRemovedEvent (doc_ref (self s))) rs ∧
    self s' = set_all_models ∅ ∅ (set_roots ∅ (self s)) ∧
    models s' = models s ∧
    io_curdoc s' = io_curdoc s ∧
    (∀ x, document_of s' !! x =
          if decide (x ∈ (map_img (_all_models (self s)) : gset Model))
          then None else document_of s !! x).
Proof.
  intros Hobs Hcount Hfuel.
  unfold clear, bind, _push_all_models_freeze, modify, try_finally.
  set (s0 := with_self _ s).
  destruct (clear_loop_emits call_listener Hobs fuel s0)
    as (rs & Hperm & ->).
  { subst s0. cbn. lia. }
  { done. }
  unfold _pop_all_models_freeze, bind, modify.
  set (s2 := with_self _ _).
  assert (_all_models_freeze_count (self s2) = 0%Z) as Hc2
    by (subst s2 s0; cbn; lia).
  rewrite bool_decide_eq_true_2 by done.
  rewrite _recompute_all_models_no_roots by done.
  eexists _, rs. split; [done|]. split; [exact Hperm|].
  split; [done|]. split; [|split; [done|split; [done|]]].
  - subst s2 s0. destruct s as [[] ? ? ? ? ?]. cbn in *. subst.
    reflexivity.
  - intros x. cbn [document_of]. rewrite lookup_foldl_delete.
    subst s2 s0. cbn. destruct (decide (x ∈ elements _)) as [Hx|Hx];
      rewrite elem_of_elements in Hx.
    + by rewrite decide_True.
    + by rewrite decide_False.
Qed.

(** The document whose root is model [1], cleared. *)
Lemma clear_empties_witness :
  observers observer ∧
  _all_models_freeze_count (self cycle_document_state) = 0%Z ∧
  size (_roots (self cycle_document_state)) ≤ 1 ∧
  ∃ s', clear observer 1 cycle_document_state = Returned tt s' ∧
        _roots (self s') = ∅ ∧ _all_models (self s') = ∅ ∧
        document_of s' = ∅ ∧
        emitted s' = [RootAddedEvent 0 1%positive;
                      RootRemovedEvent 0 1%positive].
Proof.
  assert (size (_roots (self cycle_document_state)) ≤ 1) as Hsize
    by (cbn; by rewrite size_singleton).
  split; [exact observer_observers|]. split; [reflexivity|].
  split; [exact Hsize|].
  destruct (clear_empties observer 1 cycle_document_state
              observer_observers eq_refl Hsize)
    as (s' & rs & Hrun & _).
  exists s'. split; [exact Hrun|].
  vm_compute in Hrun. injection Hrun as <-.
  repeat split; vm_compute; reflexivity.
Defined.

(** The table by id of a document that satisfies the closure invariant is
    determined by its roots and the models. *)
Lemma closure_invariant_table (s s' : State) :
  closure_invariant s → closure_invariant s' →
  _roots (self s') = _roots (self s) → models s' = models s →
  _all_models (self s') = _all_models (self s).
Proof.
  intros [Hinv _] [Hinv' _] Hroots Hmodels.
  apply map_eq. intros i. apply option_eq. intros x.
  rewrite Hinv, Hinv', Hroots, Hmodels. done.
Qed.

(** X17: [remove_root] undoes [add_root].  In a document that satisfies
    the closure invariant, with the freeze counter at zero, distinct ids
    and listeners that only look, adding a model that is not a root and
    removing it again returns; the roots and the table by id are as they
    were before, the invariant holds, the models that were reachable only
    through the model are detached again, and a [RootAddedEvent] and a
    [RootRemovedEvent] were emitted. *)
Theorem add_root_then_remove_root
  (call_listener : Callable -> Event -> M unit) (m : Model) (s : State) :
  observers call_listener →
  _all_models_freeze_count (self s) = 0%Z →
  closure_invariant s →
  m ∉ _roots (self s) →
  distinct_ids (models s) ({[m]} ∪ _roots (self s)) →
  ∃ s',
    (add_root call_listener m ;; remove_root call_listener m) s
      = Returned tt s' ∧
    _roots (self s') = _roots (self s) ∧
    _all_models (self s') = _all_models (self s) ∧
    closure_invariant s' ∧
    emitted s' =
      emitted s ++ [RootAddedEvent (doc_ref (self s)) m;
                    RootRemovedEvent (doc_ref (self s)) m] ∧
    (∀ x, x ∈ ModelCap.references (models s) m →
          x ∉ new_all_models_set s → document_of s' !! x = None).
Proof.
  intros Hobs Hcount Hinv Hm Hids. unfold bind.
  destruct (add_root_new call_listener m s Hobs Hm) as [b1 ->].
  rewrite bool_decide_eq_true_2 by done.
  set (s1 := after_trigger _ _).
  assert (closure_invariant s1) as Hinv1.
  { apply closure_invariant_after_trigger, recomputed_state_invariant.
    - exact Hids.
    - intros i x Hx _. by apply (proj2 Hinv i). }
  assert (m ∈ _roots (self s1)) as Hm1 by (subst s1; cbn; set_solver).
  destruct (remove_root_old call_listener m s1 Hobs Hm1) as [b2 ->].
  rewrite bool_decide_eq_true_2 by done.
  set (s1' := with_self _ s1).
  assert (_roots (self s1') = _roots (self s)) as Hroots
    by (subst s1' s1; cbn; set_solver).
  assert (closure_invariant (recomputed_state b2 s1')) as Hinv2.
  { apply recomputed_state_invariant.
    - rewrite Hroots. eapply distinct_ids_mono; [|exact Hids]. set_solver.
    - intros i x Hx _. by apply (proj2 Hinv1 i). }
  eexists. split; [done|]. split; [exact Hroots|].
  split; [|split; [exact Hinv2|split]].
  - apply (closure_invariant_table s (recomputed_state b2 s1') Hinv Hinv2);
      [exact Hroots|done].
  - subst s1' s1. cbn. by rewrite <-app_assoc.
  - intros x Hx Hnew. cbn [after_trigger document_of recomputed_state].
    rewrite lookup_reattached.
    assert (new_all_models_set s1' = new_all_models_set s) as Hset.
    { unfold new_all_models_set. by rewrite Hroots. }
    rewrite Hset.
    rewrite decide_False by set_solver.
    rewrite decide_True; [done|].
    apply elem_of_difference. split; [|done].
    apply elem_of_map_img. exists (id_of (models s) x).
    apply (proj1 Hinv1). split; [|done].
    exists m. split; [exact Hm1|exact Hx].
Qed.

(** Model [1] added to the new document and removed again: model [2],
    reachable through it, is detached again. *)
Lemma add_root_then_remove_root_witness :
  observers observer ∧
  closure_invariant new_document_state ∧
  distinct_ids (models new_document_state)
    ({[1%positive]} ∪ _roots (self new_document_state)) ∧
  ∃ s',
    (add_root observer 1%positive ;; remove_root observer 1%positive)
      new_document_state = Returned tt s' ∧
    _roots (self s') = ∅ ∧ _all_models (self s') = ∅ ∧
    document_of s' !! 2%positive = None.
Proof.
  assert (distinct_ids (models new_document_state)
            ({[1%positive]} ∪ _roots (self new_document_state))) as Hids.
  { eapply distinct_ids_mono; [|exact distinct_ids_two_models].
    cbn. set_solver. }
  split; [exact observer_observers|].
  split; [apply closure_invariant_new|]. split; [exact Hids|].
  destruct (add_root_then_remove_root observer 1%positive new_document_state
              observer_observers eq_refl
              (closure_invariant_new 0 None two_models ∅ 7 [] [])
              (not_elem_of_empty 1%positive) Hids)
    as (s' & Hrun & Hroots & Hall & _ & _ & Hdet).
  exists s'. split; [exact Hrun|]. split; [exact Hroots|].
  split; [exact Hall|].
  apply Hdet.
  - cbn [models new_document_state].
    rewrite references_two_models by set_solver. set_solver.
  - intros (r & Hr & _)%elem_of_new_all_models_set.
    by apply elem_of_empty in Hr.
Defined.

(** ** Patches: when they are made, and what is in them *)

Section patch_more.
Variable collect_models : gmap Model ModelObj -> Value -> gset Model.

Lemma patch_step_foreign (s : State) (acc : gset Model * list JsonEvent)
  (event : Event) :
  event_document event ≠ doc_ref (self s) →
  patch_step collect_models s acc event = Raise ValueError.
Proof. intros Hdoc. unfold patch_step. by rewrite bool_decide_eq_true_2. Qed.

Lemma patch_step_own (s : State) (acc : gset Model * list JsonEvent)
  (event : Event) :
  event_document event = doc_ref (self s) →
  patch_step collect_models s acc event =
  Ok (acc.1 ∪ event_references collect_models s event,
      acc.2 ++ event_records (models s) event).
Proof.
  intros Hdoc. unfold patch_step.
  rewrite bool_decide_eq_false_2 by (by intros []).
  destruct acc as [refs evs].
  destruct event; cbn [fst snd event_references event_records];
    rewrite ?app_nil_r, ?union_empty_r_L; reflexivity.
Qed.

Lemma patch_loop_raises (s : State) (events : list Event) :
  ∀ acc ex,
    patch_loop collect_models s events acc = Raise ex →
    ex = ValueError ∧
    Exists (λ e, event_document e ≠ doc_ref (self s)) events.
Proof.
  induction events as [|e events IH]; intros acc ex; cbn [patch_loop];
    [discriminate|].
  destruct (decide (event_document e = doc_ref (self s))) as [Hdoc|Hdoc].
  - rewrite patch_step_own by done. cbn [rbind]. intros Hloop.
    apply IH in Hloop as [-> Hex]. split; [done|]. by apply Exists_cons_tl.
  - rewrite patch_step_foreign by done. cbn [rbind]. intros [= <-].
    split; [done|]. by apply Exists_cons_hd.
Qed.

Lemma patch_loop_foreign (s : State) (events : list Event) :
  Exists (λ e, event_document e ≠ doc_ref (self s)) events →
  ∀ acc, patch_loop collect_models s events acc = Raise ValueError.
Proof.
  induction events as [|e events IH]; intros Hex acc;
    [by apply Exists_nil in Hex|].
  cbn [patch_loop].
  destruct (decide (event_document e = doc_ref (self s))) as [Hdoc|Hdoc].
  - rewrite patch_step_own by done. cbn [rbind]. apply IH.
    apply Exists_cons in Hex as [?|?]; done.
  - by rewrite patch_step_foreign by done.
Qed.

(** X18: [create_json_patch_string] raises exactly when one of the events
    belongs to another document, whatever the kind of that event and
    whatever comes before it, and what it raises is [ValueError]. *)
Theorem create_json_patch_string_raises_iff (events : list Event) (s : State) :
  (create_json_patch_string collect_models events s = Raise ValueError ↔
   Exists (λ e, event_document e ≠ doc_ref (self s)) events) ∧
  (∀ ex, create_json_patch_string collect_models events s = Raise ex →
         ex = ValueError).
Proof.
  unfold create_json_patch_string. split; [split|].
  - destruct (patch_loop collect_models s events (∅, [])) as [acc|ex] eqn:Hloop;
      cbn [rbind]; [discriminate|].
    intros _. by apply patch_loop_raises in Hloop as [_ ?].
  - intros Hex. by rewrite patch_loop_foreign.
  - intros ex.
    destruct (patch_loop collect_models s events (∅, [])) as [acc|ex'] eqn:Hloop;
      cbn [rbind]; [discriminate|].
    intros [= <-]. by apply patch_loop_raises in Hloop as [? _].
Qed.

Lemma patch_loop_content (s : State) (events : list Event) :
  ∀ acc acc',
    patch_loop collect_models s events acc = Ok acc' →
    acc'.2 = acc.2 ++ (events ≫= event_records (models s)) ∧
    ∀ x, x ∈ acc'.1 ↔
         x ∈ acc.1 ∨
         ∃ e, e ∈ events ∧ x ∈ event_references collect_models s e.
Proof.
  induction events as [|e events IH]; intros acc acc'; cbn [patch_loop].
  - intros [= <-]. cbn. rewrite app_nil_r. split; [done|].
    intros x. split; [by left|]. by intros [?|(e & ?%elem_of_nil & _)].
  - destruct (decide (event_document e = doc_ref (self s))) as [Hdoc|Hdoc].
    + rewrite patch_step_own by done. cbn [rbind]. intros Hloop.
      apply IH in Hloop as [Hevs Hrefs]. cbn [fst snd] in *. split.
      * rewrite Hevs. cbn. by rewrite <-app_assoc.
      * intros x. rewrite Hrefs, elem_of_union. split.
        -- intros [[?|?]|(e' & ? & ?)]; [by left| |].
           ++ right. exists e. split; [by left|done].
           ++ right. exists e'. split; [by right|done].
        -- intros [?|(e' & [->|?]%elem_of_cons & ?)].
           ++ by left; left.
           ++ by left; right.
           ++ right. by exists e'.
    + by rewrite patch_step_foreign by done.
Qed.

(** X19: the patch [create_json_patch_string] makes holds, in the order of
    the events, one record for every [ModelChangedEvent], [RootAddedEvent],
    [RootRemovedEvent] and [TitleChangedEvent], and the records of
    exactly these models: for a [RootAddedEvent] the model and all its
    references, for a [ModelChangedEvent] the models of the new value
    (without the changed model, unless it is the new value), and none for
    the other events. *)
Theorem create_json_patch_string_content (events : list Event) (s : State)
  (p : Patch) :
  create_json_patch_string collect_models events s = Ok p →
  patch_events p =
    map (serialize_event (models s)) (events ≫= event_records (models s)) ∧
  ∃ references : gset Model,
    patch_references p =
      serialize_references (models s)
        (_references_json (models s) (elements references)) ∧
    (∀ x, x ∈ references ↔
          ∃ e, e ∈ events ∧ x ∈ event_references collect_models s e) ∧
    (∀ document model, RootAddedEvent document model ∈ events →
       model ∈ references ∧
       ModelCap.references (models s) model ⊆ references).
Proof.
  unfold create_json_patch_string. intros Hp.
  destruct (patch_loop collect_models s events (∅, [])) as [acc|] eqn:Hloop;
    cbn in Hp; [|discriminate].
  injection Hp as <-. cbn [patch_events patch_references].
  apply patch_loop_content in Hloop as [Hevs Hrefs]. cbn [fst snd] in *.
  split; [by rewrite Hevs|].
  assert (∀ x, x ∈ acc.1 ↔
            ∃ e, e ∈ events ∧ x ∈ event_references collect_models s e)
    as Hiff.
  { intros x. rewrite Hrefs. split; [|by right].
    intros [?%elem_of_empty|?]; done. }
  exists acc.1. split; [done|]. split; [exact Hiff|].
  intros document model Hin.
  assert (ModelCap.references (models s) model ⊆ acc.1) as Hsub.
  { intros x Hx. apply Hiff. by exists (RootAddedEvent document model). }
  split; [|done]. apply Hsub, elem_of_references_self.
Qed.

End patch_more.

(** The patch for model [1] added as a root and a new title: it carries
    the records of both models, and two event records. *)
Lemma create_json_patch_string_content_witness :
  ∃ p, create_json_patch_string collect_in_value
         [RootAddedEvent 0 1%positive; TitleChangedEvent 0 "X"]
         new_document_state = Ok p ∧
       length (patch_events p) = 2 ∧
       ∃ references : gset Model,
         patch_references p =
           serialize_references two_models
             (_references_json two_models (elements references)) ∧
         2%positive ∈ references.
Proof.
  destruct (create_json_patch_string collect_in_value
              [RootAddedEvent 0 1%positive; TitleChangedEvent 0 "X"]
              new_document_state) as [p|] eqn:Hp; [|discriminate Hp].
  destruct (create_json_patch_string_content collect_in_value _ _ p Hp)
    as (Hevs & references & Hrefs & _ & Hroot).
  exists p. split; [reflexivity|]. split; [by rewrite Hevs|].
  exists references. split; [exact Hrefs|].
  destruct (Hroot 0 1%positive) as [_ Hsub]; [by left|].
  apply Hsub. cbn [models new_document_state].
  rewrite references_two_models by set_solver. set_solver.
Defined.

(** ** Session callbacks: registering and removing *)

Section pydict_more.
Context {K V : Type} `{EqDecision K}.

Lemma PyDict_get_set (k : K) (v : V) (d : list (K * V)) :
  PyDict.get k (PyDict.set k v d) = Some v.
Proof.
  induction d as [|[k' v'] d IH]; cbn.
  - by rewrite decide_True.
  - destruct (decide (k = k')) as [->|Hne]; cbn.
    + by rewrite decide_True.
    + by rewrite decide_False.
Qed.

Lemma PyDict_set_keys (k : K) (v : V) (d : list (K * V)) :
  k ∈ d.*1 → (PyDict.set k v d).*1 = d.*1.
Proof.
  induction d as [|[k' v'] d IH]; cbn; [by intros ?%elem_of_nil|].
  intros Hk. destruct (decide (k = k')) as [->|Hne]; cbn; [done|].
  f_equal. apply IH. by apply elem_of_cons in Hk as [?|?].
Qed.

Lemma PyDict_del_new (k : K) (v : V) (d : list (K * V)) :
  k ∉ d.*1 → PyDict.del k (d ++ [(k, v)]) = d.
Proof.
  induction d as [|[k' v'] d IH]; cbn.
  - intros _. by rewrite decide_True.
  - intros Hk. rewrite decide_False by (intros ->; apply Hk; by left).
    f_equal. apply IH. intros ?. apply Hk. by right.
Qed.

Lemma PyDict_get_new (k : K) (v : V) (d : list (K * V)) :
  k ∉ d.*1 → PyDict.get k (d ++ [(k, v)]) = Some v.
Proof.
  intros Hk. rewrite <-(PyDict_set_new k v d Hk). apply PyDict_get_set.
Qed.

Lemma PyDict_get_del (k : K) (d : list (K * V)) :
  NoDup d.*1 → PyDict.get k (PyDict.del k d) = None.
Proof.
  intros Hnd. rewrite PyDict_del_filter by done.
  apply PyDict_get_None.
  intros ([k' v] & Hk & [Hne _]%list_elem_of_filter)%list_elem_of_fmap.
  cbn in *. by subst.
Qed.

End pydict_more.

Lemma with_self_set_session_callbacks_id (s : State) :
  with_self (set_session_callbacks (_session_callbacks (self s))) s = s.
Proof. by destruct s as [[] ? ? ? ? ?]. Qed.

Section session_more.
Variable call_listener : Callable -> Event -> M unit.
Hypothesis Hobs : observers call_listener.

(** [_remove_session_callback] of a key that is there. *)
Lemma _remove_session_callback_known (callback : SessionKey)
  (cb : SessionCallback) (s : State) :
  PyDict.get callback (_session_callbacks (self s)) = Some cb →
  _remove_session_callback call_listener callback s =
  Returned tt
    (after_trigger (SessionCallbackRemoved (doc_ref (self s)) cb)
       (with_self
          (set_session_callbacks
             (PyDict.del callback (_session_callbacks (self s)))) s)).
Proof.
  intros Hget. unfold _remove_session_callback. rewrite Hget.
  unfold bind, modify. by rewrite _trigger_on_change_observers.
Qed.

Lemma add_periodic_callback_effect (uuid : string) (callback : Callable)
  (period : Z) (id : option string) (s : State) :
  let cb := mkSessionCallback (default uuid id) (doc_ref (self s))
              (mkWrapper (doc_ref (self s)) callback)
              (PeriodicCallback period) in
  add_periodic_callback call_listener uuid callback period id s =
  Returned cb
    (after_trigger (SessionCallbackAdded (doc_ref (self s)) cb)
       (with_self
          (set_session_callbacks
             (PyDict.set (KeyCallable callback) cb
                (_session_callbacks (self s)))) s)).
Proof.
  intros cb. unfold add_periodic_callback, bind, modify.
  by rewrite _trigger_on_change_observers.
Qed.

Lemma add_timeout_callback_effect (uuid : string) (callback : Callable)
  (timeout : Z) (id : option string) (s : State) :
  let cb := mkSessionCallback (default uuid id) (doc_ref (self s))
              (mkWrapper (doc_ref (self s)) callback)
              (TimeoutCallback timeout) in
  add_timeout_callback call_listener uuid callback timeout id s =
  Returned cb
    (after_trigger (SessionCallbackAdded (doc_ref (self s)) cb)
       (with_self
          (set_session_callbacks
             (PyDict.set (KeyCallable callback) cb
                (_session_callbacks (self s)))) s)).
Proof.
  intros cb. unfold add_timeout_callback, bind, modify.
  by rewrite _trigger_on_change_observers.
Qed.

End session_more.

(** X20: with listeners that only look, [add_periodic_callback] of a
    callable that is not registered returns a handle with the id handed
    over (or the generated one), this document, and the callable wrapped
    for this document; the handle is the last session callback;
    [remove_periodic_callback] of the callable, and just as well
    [remove_timeout_callback], then returns and leaves the table as it was
    before, with a [SessionCallbackAdded] and a [SessionCallbackRemoved]
    event for the handle emitted; removing the callable once more raises
    [KeyError]. *)
Theorem add_then_remove_session_callback
  (call_listener : Callable -> Event -> M unit)
  (uuid : string) (callback : Callable) (period : Z) (id : option string)
  (s : State) :
  observers call_listener →
  KeyCallable callback ∉ (_session_callbacks (self s)).*1 →
  ∃ s1 s2,
    let cb := mkSessionCallback (default uuid id) (doc_ref (self s))
                (mkWrapper (doc_ref (self s)) callback)
                (PeriodicCallback period) in
    add_periodic_callback call_listener uuid callback period id s
      = Returned cb s1 ∧
    session_callbacks s1 = session_callbacks s ++ [cb] ∧
    remove_periodic_callback call_listener callback s1 = Returned tt s2 ∧
    remove_timeout_callback call_listener callback s1 = Returned tt s2 ∧
    _session_callbacks (self s2) = _session_callbacks (self s) ∧
    emitted s2 =
      emitted s ++ [SessionCallbackAdded (doc_ref (self s)) cb;
                    SessionCallbackRemoved (doc_ref (self s)) cb] ∧
    remove_periodic_callback call_listener callback s2 = Raised KeyError s2.
Proof.
  intros Hobs Hnew.
  rewrite add_periodic_callback_effect by done. cbv zeta.
  set (cb := mkSessionCallback _ _ _ _).
  rewrite PyDict_set_new by done.
  set (s1 := after_trigger _ _).
  assert (PyDict.get (KeyCallable callback) (_session_callbacks (self s1))
          = Some cb) as Hget by (subst s1; cbn; by apply PyDict_get_new).
  assert (remove_periodic_callback call_listener callback s1 =
          Returned tt
            (after_trigger (SessionCallbackRemoved (doc_ref (self s1)) cb)
               (with_self
                  (set_session_callbacks
                     (PyDict.del (KeyCallable callback)
                        (_session_callbacks (self s1)))) s1))) as Hrem
    by (by apply _remove_session_callback_known).
  assert (PyDict.del (KeyCallable callback) (_session_callbacks (self s1))
          = _session_callbacks (self s)) as Hdel
    by (subst s1; cbn; by apply PyDict_del_new).
  rewrite Hdel in Hrem.
  set (s2 := after_trigger _ _) in Hrem.
  exists s1, s2. split; [done|]. split.
  { subst s1. unfold session_callbacks, PyDict.values. cbn.
    by rewrite map_app. }
  split; [exact Hrem|]. split; [exact Hrem|].
  split; [done|]. split.
  - subst s2 s1. cbn. by rewrite <-app_assoc.
  - apply _remove_session_callback_unknown.
    by apply PyDict_get_None.
Qed.

(** X21: registering the same callable a second time replaces its handle
    in place: with listeners that only look, after [add_periodic_callback]
    and [add_timeout_callback] of one callable the table has the second
    handle under the callable and as many entries as after the first call;
    two [SessionCallbackAdded] events and no [SessionCallbackRemoved] event
    were emitted; one removal of the callable then removes the second
    handle and leaves no entry for the callable. *)
Theorem add_session_callback_twice
  (call_listener : Callable -> Event -> M unit)
  (uuid1 uuid2 : string) (callback : Callable) (period timeout : Z)
  (id1 id2 : option string) (s : State) :
  observers call_listener →
  NoDup (_session_callbacks (self s)).*1 →
  ∃ s1 s2 s3,
    let cb1 := mkSessionCallback (default uuid1 id1) (doc_ref (self s))
                 (mkWrapper (doc_ref (self s)) callback)
                 (PeriodicCallback period) in
    let cb2 := mkSessionCallback (default uuid2 id2) (doc_ref (self s))
                 (mkWrapper (doc_ref (self s)) callback)
                 (TimeoutCallback timeout) in
    add_periodic_callback call_listener uuid1 callback period id1 s
      = Returned cb1 s1 ∧
    add_timeout_callback call_listener uuid2 callback timeout id2 s1
      = Returned cb2 s2 ∧
    PyDict.get (KeyCallable callback) (_session_callbacks (self s2))
      = Some cb2 ∧
    length (session_callbacks s2) = length (session_callbacks s1) ∧
    emitted s2 =
      emitted s ++ [SessionCallbackAdded (doc_ref (self s)) cb1;
                    SessionCallbackAdded (doc_ref (self s)) cb2] ∧
    remove_periodic_callback call_listener callback s2 = Returned tt s3 ∧
    emitted s3 =
      emitted s2 ++ [SessionCallbackRemoved (doc_ref (self s)) cb2] ∧
    PyDict.get (KeyCallable callback) (_session_callbacks (self s3)) = None.
Proof.
  intros Hobs Hnd.
  pose proof (add_periodic_callback_effect call_listener Hobs uuid1 callback
                period id1 s) as Hadd1. cbv zeta in Hadd1.
  set (cb1 := mkSessionCallback _ _ _ (PeriodicCallback period)) in *.
  set (s1 := after_trigger _ _) in Hadd1.
  pose proof (add_timeout_callback_effect call_listener Hobs uuid2 callback
                timeout id2 s1) as Hadd2. cbv zeta in Hadd2.
  change (doc_ref (self s1)) with (doc_ref (self s)) in Hadd2.
  set (cb2 := mkSessionCallback _ _ _ (TimeoutCallback timeout)) in *.
  set (s2 := after_trigger _ _) in Hadd2.
  assert (KeyCallable callback ∈ (_session_callbacks (self s1)).*1) as Hin.
  { apply PyDict_contains_true. unfold PyDict.contains.
    subst s1. cbn. by rewrite PyDict_get_set. }
  assert (PyDict.get (KeyCallable callback) (_session_callbacks (self s2))
          = Some cb2) as Hget by (subst s2; cbn; apply PyDict_get_set).
  assert ((_session_callbacks (self s2)).*1 = (_session_callbacks (self s1)).*1)
    as Hkeys by (subst s2; cbn; by apply PyDict_set_keys).
  assert (NoDup (_session_callbacks (self s1)).*1) as Hnd1.
  { subst s1. cbn.
    destruct (decide (KeyCallable callback ∈ (_session_callbacks (self s)).*1))
      as [Hk|Hk].
    - by rewrite PyDict_set_keys.
    - rewrite PyDict_set_new, fmap_app by done. apply NoDup_app.
      split; [done|]. split; [|apply NoDup_singleton].
      intros k Hk' ->%list_elem_of_singleton. done. }
  pose proof (_remove_session_callback_known call_listener Hobs
                (KeyCallable callback) cb2 s2 Hget) as Hrem.
  set (s3 := after_trigger _ _) in Hrem.
  exists s1, s2, s3. cbv zeta. split; [exact Hadd1|]. split; [exact Hadd2|].
  split; [exact Hget|]. split.
  { unfold session_callbacks, PyDict.values.
    rewrite !length_map, <-(length_fmap fst), Hkeys. by rewrite length_fmap. }
  split; [subst s2 s1; cbn; by rewrite <-app_assoc|].
  split; [exact Hrem|].
  split; [done|].
  subst s3. cbn [after_trigger self with_self set_session_callbacks
                 _session_callbacks].
  apply PyDict_get_del. by rewrite Hkeys.
Qed.

(** The callable [5] registered on the new document and removed again. *)
Lemma add_then_remove_session_callback_witness :
  observers observer ∧
  ∃ s1 s2,
    add_periodic_callback observer "u" 5 1000 None new_document_state
      = Returned a_handle s1 ∧
    remove_periodic_callback observer 5 s1 = Returned tt s2 ∧
    _session_callbacks (self s2) = [] ∧
    emitted s2 = [SessionCallbackAdded 0 a_handle;
                  SessionCallbackRemoved 0 a_handle] ∧
    remove_periodic_callback observer 5 s2 = Raised KeyError s2.
Proof.
  split; [exact observer_observers|].
  destruct (add_then_remove_session_callback observer "u" 5 1000 None
              new_document_state observer_observers)
    as (s1 & s2 & Hadd & _ & Hrem & _ & Htable & Hem & Hagain).
  { apply not_elem_of_nil. }
  exists s1, s2. split; [exact Hadd|]. split; [exact Hrem|].
  split; [exact Htable|]. split; [exact Hem|exact Hagain].
Defined.

(** The callable [5] registered twice on the new document, the second
    time as a timeout callback. *)
Lemma add_session_callback_twice_witness :
  observers observer ∧
  NoDup (_session_callbacks (self new_document_state)).*1 ∧
  ∃ s1 s2,
    add_periodic_callback observer "u" 5 1000 None new_document_state
      = Returned a_handle s1 ∧
    add_timeout_callback observer "v" 5 30 None s1
      = Returned (mkSessionCallback "v" 0 (mkWrapper 0 5) (TimeoutCallback 30))
          s2 ∧
    session_callbacks s2
      = [mkSessionCallback "v" 0 (mkWrapper 0 5) (TimeoutCallback 30)].
Proof.
  split; [exact observer_observers|]. split; [apply NoDup_nil_2|].
  destruct (add_session_callback_twice observer "u" "v" 5 1000 30 None None
              new_document_state observer_observers (NoDup_nil_2 (A:=SessionKey)))
    as (s1 & s2 & s3 & Hadd1 & Hadd2 & _).
  exists s1, s2. split; [exact Hadd1|]. split; [exact Hadd2|].
  vm_compute in Hadd1. injection Hadd1 as <-.
  vm_compute in Hadd2. injection Hadd2 as <-.
  reflexivity.
Defined.

(** ** Reading a document: what [from_json] needs and what it gives *)

Lemma same_but_models_refl (s : State) : same_but_models s s.
Proof. by repeat split. Qed.

Lemma same_but_models_trans (s1 s2 s3 : State) :
  same_but_models s1 s2 → same_but_models s2 s3 → same_but_models s1 s3.
Proof.
  intros (? & ? & ? & ? & ?) (? & ? & ? & ? & ?).
  repeat split; congruence.
Qed.

Section from_json_more.
Variable get_class : string -> option ModelClass.

(** The first phase returns only when every class is known; it makes new
    objects only, and enters one under the id of every record. *)
Lemma instantiate_loop_returns (references_json : list ReferenceJson) :
  ∀ acc s acc' s',
    instantiate_loop get_class references_json acc s = Returned acc' s' →
    same_but_models s s' ∧
    dom (models s) ⊆ dom (models s') ∧
    Forall (λ obj, is_Some (get_class (record_type obj))) references_json ∧
    dom acc' = dom acc ∪ list_to_set ((ref_id ∘ rj_ref) <$> references_json) ∧
    (∀ i m, acc' !! i = Some m →
            acc !! i = Some m ∨ m ∉ dom (models s)).
Proof.
  induction references_json as [|obj l IH]; intros acc s acc' s';
    cbn [instantiate_loop].
  - intros [= <- <-]. split; [apply same_but_models_refl|].
    split; [done|]. split; [done|]. split; [cbn; set_solver|]. by left.
  - unfold bind, instantiate_step at 1. fold (record_type obj).
    destruct (get_class (record_type obj)) as [cls|] eqn:Hcls; [|done].
    intros Hloop. apply IH in Hloop as (Hsame & Hdom & Hall & Hacc & Hfresh).
    unfold with_models in Hdom, Hfresh. cbn [models] in Hdom, Hfresh.
    rewrite dom_insert_L in Hdom. setoid_rewrite dom_insert_L in Hfresh.
    split; [exact Hsame|]. split; [set_solver|]. split.
    { apply Forall_cons. split; [by rewrite Hcls|done]. }
    split.
    { rewrite Hacc, dom_insert_L. cbn. set_solver. }
    intros i m Hm. destruct (Hfresh i m Hm) as [Hin|Hnew].
    + apply lookup_insert_Some in Hin as [[_ <-]|[_ Hin]]; [|by left].
      right. apply is_fresh.
    + right. set_solver.
Qed.

Lemma initialize_loop_returns (references : gmap string Model)
  (references_json : list ReferenceJson) :
  ∀ s u s',
    _initialize_references_json references_json references s
      = Returned u s' →
    same_but_models s s'.
Proof.
  unfold _initialize_references_json.
  induction references_json as [|obj l IH]; intros s u s'; cbn [for_each].
  - intros [= _ <-]. apply same_but_models_refl.
  - unfold bind, initialize_step at 1.
    destruct (references !! ref_id (rj_ref obj)) as [instance|]; [|done].
    destruct (foldl _ _ _) as [attrs|]; [|done].
    intros Hloop. apply IH in Hloop.
    eapply same_but_models_trans; [|exact Hloop]. by repeat split.
Qed.

End from_json_more.

(** A document without listeners: what it emits reaches nobody, so that
    the listeners' code does not matter. *)
Lemma add_root_nobody_listens (m : Model) (s : State) :
  _callbacks (self s) = [] →
  ∃ s',
    (∀ call_listener, add_root call_listener m s = Returned tt s') ∧
    _roots (self s') = {[m]} ∪ _roots (self s) ∧
    _callbacks (self s') = [] ∧
    _session_callbacks (self s') = _session_callbacks (self s) ∧
    _all_models_freeze_count (self s') = _all_models_freeze_count (self s) ∧
    _title (self s') = _title (self s) ∧
    doc_ref (self s') = doc_ref (self s) ∧
    models s' = models s ∧
    invoked s' = invoked s ∧ io_curdoc s' = io_curdoc s.
Proof.
  intros Hnone. destruct (decide (m ∈ _roots (self s))) as [Hin|Hnin].
  - exists s. split; [intros; by apply add_root_present|].
    split; [set_solver|]. by repeat split.
  - pose proof (frozen_roots_update (λ r, {[m]} ∪ r) s) as Hfrozen.
    destruct (_recompute_all_models_spec
                (with_self (set_roots ({[m]} ∪ _roots (self s))) s))
      as [by_name Hrec].
    cbv beta in Hfrozen. rewrite Hrec in Hfrozen.
    set (s1 := if bool_decide (_all_models_freeze_count (self s) = 0%Z)
               then recomputed_state by_name
                      (with_self (set_roots ({[m]} ∪ _roots (self s))) s)
               else with_self (set_roots ({[m]} ∪ _roots (self s))) s).
    assert ((_push_all_models_freeze ;;
             try_finally
               (modify (with_self (λ d, set_roots ({[m]} ∪ _roots d) d)))
               _pop_all_models_freeze) s = Returned tt s1) as Hmid
      by (rewrite Hfrozen; subst s1; by case_bool_decide).
    exists (record_emitted (RootAddedEvent (doc_ref (self s)) m) s1). split.
    + intros call_listener. unfold add_root.
      rewrite bool_decide_eq_false_2 by done.
      rewrite bind_assoc. unfold bind at 1. rewrite Hmid.
      apply _trigger_on_change_no_listeners.
      subst s1. by case_bool_decide.
    + subst s1. by case_bool_decide.
Qed.

Lemma add_roots_nobody_listens (references : gmap string Model)
  (root_ids : list string) :
  ∀ s,
    _callbacks (self s) = [] →
    ∃ o,
      (∀ call_listener,
         for_each root_ids
           (λ r, match references !! r with
                 | Some m => add_root call_listener m
                 | None => raise KeyError
                 end) s = o) ∧
      ∀ u s', o = Returned u s' →
        (∀ r, r ∈ root_ids → is_Some (references !! r)) ∧
        (∀ m, m ∈ _roots (self s') →
              m ∈ _roots (self s) ∨ ∃ r, references !! r = Some m) ∧
        _callbacks (self s') = [] ∧
        _session_callbacks (self s') = _session_callbacks (self s) ∧
        _all_models_freeze_count (self s')
          = _all_models_freeze_count (self s) ∧
        _title (self s') = _title (self s) ∧
        doc_ref (self s') = doc_ref (self s) ∧
        models s' = models s ∧
        invoked s' = invoked s ∧ io_curdoc s' = io_curdoc s.
Proof.
  induction root_ids as [|r l IH]; intros s Hnone.
  - exists (Returned tt s). split; [done|]. intros u s' [= _ <-].
    split; [by intros ? ?%elem_of_nil|]. split; [by left|]. by repeat split.
  - cbn [for_each]. destruct (references !! r) as [m|] eqn:Hr.
    + destruct (add_root_nobody_listens m s Hnone)
        as (s1 & Hadd & Hroots1 & Hnone1 & Hsc1 & Hc1 & Ht1 & Href1 & Hm1
            & Hi1 & Hcur1).
      destruct (IH s1 Hnone1) as (o & Hloop & Ho).
      exists o. split.
      * intros call_listener. unfold bind. rewrite Hadd. apply Hloop.
      * intros u s' Heq.
        destruct (Ho u s' Heq)
          as (Hall & Hroots & ? & ? & ? & ? & ? & ? & ? & ?).
        split.
        { intros r' [->|?]%elem_of_cons; [by rewrite Hr|by apply Hall]. }
        split.
        { intros x Hx. destruct (Hroots x Hx) as [Hx1|?]; [|by right].
          rewrite Hroots1 in Hx1.
          apply elem_of_union in Hx1 as [->%elem_of_singleton|?];
            [right; by exists r|by left]. }
        repeat split; congruence.
    + exists (Raised KeyError s). split; [done|]. by intros u s' [=].
Qed.

Lemma title_setter_nobody_listens (title : option string) (s : State) :
  _callbacks (self s) = [] →
  ∃ o,
    (∀ call_listener, title_setter call_listener title s = o) ∧
    ∀ u s', o = Returned u s' →
      _title (self s') = title ∧
      _roots (self s') = _roots (self s) ∧
      _callbacks (self s') = [] ∧
      _session_callbacks (self s') = _session_callbacks (self s) ∧
      _all_models_freeze_count (self s')
        = _all_models_freeze_count (self s) ∧
      doc_ref (self s') = doc_ref (self s) ∧
      models s' = models s ∧
      invoked s' = invoked s ∧ io_curdoc s' = io_curdoc s.
Proof.
  intros Hnone. destruct title as [t|].
  - destruct (decide (_title (self s) = Some t)) as [Heq|Hne].
    + exists (Returned tt s). split.
      * intros call_listener. unfold title_setter.
        by rewrite bool_decide_eq_false_2 by (by intros []).
      * intros u s' [= _ <-]. by repeat split.
    + eexists. split.
      * intros call_listener. unfold title_setter.
        rewrite bool_decide_eq_true_2 by done.
        unfold bind, modify.
        by rewrite _trigger_on_change_no_listeners by done.
      * intros u s' [= _ <-]. by repeat split.
  - exists (Raised ValueError s). split; [done|]. by intros u s' [=].
Qed.

Lemma from_json_unfold (call_listener : Callable -> Event -> M unit)
  (get_class : string -> option ModelClass) (doc : DocRef) (json : DocJson)
  (s : State) :
  from_json call_listener get_class doc json s =
  match instantiate_loop get_class (json_references json) ∅ s with
  | Returned references s1 =>
    match _initialize_references_json (json_references json)
            references s1 with
    | Returned _ s2 =>
      (for_each (json_root_ids json)
         (λ r, match references !! r with
               | Some m => add_root call_listener m
               | None => raise KeyError
               end) ;;
       title_setter call_listener (json_title json))
        (with_self (λ _, Document_init doc None) s2)
    | Raised e s2 => Raised e s2
    | OutOfFuel s2 => OutOfFuel s2
    end
  | Raised e s1 => Raised e s1
  | OutOfFuel s1 => OutOfFuel s1
  end.
Proof.
  unfold from_json, _instantiate_references_json. unfold bind at 1.
  destruct (instantiate_loop _ _ _ _) as [references s1|e s1|s1]; [|done..].
  unfold bind at 1.
  destruct (_initialize_references_json _ _ _) as [[] s2|e s2|s2];
    [|done..].
  unfold bind at 1. unfold modify at 1. reflexivity.
Qed.

(** The roots and the title of the new document. *)
Lemma from_json_rest (references : gmap string Model)
  (root_ids : list string) (title : option string) (s : State) :
  _callbacks (self s) = [] →
  ∃ o,
    (∀ call_listener,
       (for_each root_ids
          (λ r, match references !! r with
                | Some m => add_root call_listener m
                | None => raise KeyError
                end) ;;
        title_setter call_listener title) s = o) ∧
    ∀ u s', o = Returned u s' →
      is_Some title ∧
      (∀ r, r ∈ root_ids → is_Some (references !! r)) ∧
      (∀ m, m ∈ _roots (self s') →
            m ∈ _roots (self s) ∨ ∃ r, references !! r = Some m) ∧
      _title (self s') = title ∧
      _callbacks (self s') = [] ∧
      _session_callbacks (self s') = _session_callbacks (self s) ∧
      _all_models_freeze_count (self s')
        = _all_models_freeze_count (self s) ∧
      doc_ref (self s') = doc_ref (self s) ∧
      invoked s' = invoked s ∧ io_curdoc s' = io_curdoc s.
Proof.
  intros Hnone.
  destruct (add_roots_nobody_listens references root_ids s Hnone)
    as (o & Hloop & Ho).
  destruct o as [[] s4|e s4|s4].
  - destruct (Ho tt s4 eq_refl)
      as (Hall & Hroots & Hnone4 & Hsc4 & Hc4 & Ht4 & Href4 & Hm4 & Hi4
          & Hcur4).
    destruct (title_setter_nobody_listens title s4 Hnone4)
      as (o' & Htitle & Ho').
    exists o'. split.
    + intros call_listener. unfold bind. by rewrite Hloop.
    + intros u s' ->.
      destruct (Ho' u s' eq_refl)
        as (Ht5 & Hroots5 & Hnone5 & Hsc5 & Hc5 & Href5 & Hm5 & Hi5 & Hcur5).
      split.
      { destruct title as [t|]; [by eexists|].
        specialize (Htitle observer). cbn in Htitle. discriminate. }
      split; [exact Hall|]. split.
      { intros m Hm. rewrite Hroots5 in Hm. by apply Hroots. }
      repeat split; congruence.
  - exists (Raised e s4). split; [|by intros u s' [=]].
    intros call_listener. unfold bind. by rewrite Hloop.
  - exists (OutOfFuel s4). split; [|by intros u s' [=]].
    intros call_listener. unfold bind. by rewrite Hloop.
Qed.

(** What [from_json] needs to return, and what it returns. *)
Lemma from_json_returns
  (call_listener : Callable -> Event -> M unit)
  (get_class : string -> option ModelClass) (doc : DocRef) (json : DocJson)
  (s : State) :
  (∀ call_listener',
     from_json call_listener' get_class doc json s
       = from_json call_listener get_class doc json s) ∧
  (∀ u s',
     from_json call_listener get_class doc json s = Returned u s' →
     is_Some (json_title json) ∧
     (∀ r, r ∈ json_root_ids json →
           r ∈ (ref_id ∘ rj_ref) <$> json_references json) ∧
     Forall (λ obj, is_Some (get_class (record_type obj)))
            (json_references json) ∧
     doc_ref (self s') = doc ∧
     _title (self s') = json_title json ∧
     (∀ m, m ∈ _roots (self s') → m ∉ dom (models s)) ∧
     _callbacks (self s') = [] ∧
     _session_callbacks (self s') = [] ∧
     _all_models_freeze_count (self s') = 0%Z ∧
     invoked s' = invoked s ∧ io_curdoc s' = io_curdoc s).
Proof.
  destruct (instantiate_loop get_class (json_references json) ∅ s)
    as [references s1|e s1|s1] eqn:Hinst.
  2,3: by (split; [intros call'|intros u s']; rewrite !from_json_unfold, Hinst).
  destruct (_initialize_references_json (json_references json)
              references s1) as [[] s2|e s2|s2] eqn:Hinit.
  2,3: by (split; [intros call'|intros u s'];
           rewrite !from_json_unfold, Hinst, Hinit).
  set (s3 := with_self (λ _, Document_init doc None) s2).
  destruct (from_json_rest references (json_root_ids json) (json_title json)
              s3) as (o & Hrest & Ho); [done|].
  assert (∀ call, from_json call get_class doc json s = o) as Hrun.
  { intros call. rewrite from_json_unfold, Hinst, Hinit. apply Hrest. }
  split; [intros call'; by rewrite !Hrun|].
  rewrite Hrun. intros u s' ->.
  apply instantiate_loop_returns in Hinst
    as (Hsame1 & Hdom1 & Hcls & Hrefs & Hfresh).
  apply initialize_loop_returns in Hinit as Hsame2.
  destruct (Ho u s' eq_refl)
    as (Htitle & Hall & Hroots & Ht & Hnone & Hsc & Hc & Href & Hi & Hcur).
  destruct Hsame1 as (_ & _ & Hcur1 & _ & Hi1).
  destruct Hsame2 as (_ & _ & Hcur2 & _ & Hi2).
  split; [exact Htitle|]. split.
  { intros r Hr. apply Hall in Hr as [m Hm].
    assert (r ∈ dom references) as Hin by (apply elem_of_dom; by exists m).
    rewrite Hrefs in Hin. set_solver. }
  split; [exact Hcls|]. split; [by rewrite Href|]. split; [exact Ht|].
  split.
  { intros m Hm. destruct (Hroots m Hm) as [Hm3|[r Hr]].
    - subst s3. cbn in Hm3. by apply elem_of_empty in Hm3.
    - destruct (Hfresh r m Hr) as [Hin|?]; [|done].
      by rewrite lookup_empty in Hin. }
  split; [exact Hnone|]. split; [by rewrite Hsc|]. split; [by rewrite Hc|].
  split; [rewrite Hi; subst s3; cbn; congruence|].
  rewrite Hcur. subst s3. cbn. congruence.
Qed.

(** X22: [from_json] builds a new document that nobody listens to: what
    it does is the same whatever the listeners of the process would do,
    and no listener is called.  It returns only when the title of the JSON
    is not [None], every root id is the id of a record, and the class of
    every record is known; the document it returns has the identity
    handed over, the title of the JSON, roots that are all new objects,
    no listener, no session callback and the freeze counter at zero; the
    current document is as before. *)
Theorem from_json_new_document
  (call_listener : Callable -> Event -> M unit)
  (get_class : string -> option ModelClass) (doc : DocRef) (json : DocJson)
  (s : State) :
  (∀ call_listener',
     from_json call_listener' get_class doc json s
       = from_json call_listener get_class doc json s) ∧
  (∀ u s',
     from_json call_listener get_class doc json s = Returned u s' →
     is_Some (json_title json) ∧
     (∀ r, r ∈ json_root_ids json →
           r ∈ (ref_id ∘ rj_ref) <$> json_references json) ∧
     Forall (λ obj, is_Some (get_class (record_type obj)))
            (json_references json) ∧
     doc_ref (self s') = doc ∧
     _title (self s') = json_title json ∧
     (∀ m, m ∈ _roots (self s') → m ∉ dom (models s)) ∧
     _callbacks (self s') = [] ∧
     _session_callbacks (self s') = [] ∧
     _all_models_freeze_count (self s') = 0%Z ∧
     invoked s' = invoked s ∧ io_curdoc s' = io_curdoc s).
Proof.
  destruct (from_json_returns call_listener get_class doc json s)
    as [Hany Hret].
  split; [exact Hany|exact Hret].
Qed.

(** ** Moving the content of a document into another *)

(** What [clear] does, with the freeze counter at zero and listeners that
    only look. *)
Lemma clear_effect (call_listener : Callable -> Event -> M unit)
  (fuel : nat) (s : State) :
  observers call_listener →
  _all_models_freeze_count (self s) = 0%Z →
  size (_roots (self s)) ≤ fuel →
  ∃ s' rs,
    clear call_listener fuel s = Returned tt s' ∧
    rs ≡ₚ elements (_roots (self s)) ∧
    emitted s' = emitted s ++ map (RootRemovedEvent (doc_ref (self s))) rs ∧
    self s' = set_all_models ∅ ∅ (set_roots ∅ (self s)) ∧
    models s' = models s ∧
    io_curdoc s' = io_curdoc s ∧
    (∀ x, document_of s' !! x =
          if decide (x ∈ (map_img (_all_models (self s)) : gset Model))
          then None else document_of s !! x).
Proof.
  intros Hobs Hcount Hfuel.
  unfold clear, bind, _push_all_models_freeze, modify, try_finally.
  set (s0 := with_self _ s).
  destruct (clear_loop_emits call_listener Hobs fuel s0)
    as (rs & Hperm & ->).
  { subst s0. cbn. lia. }
  { done. }
  unfold _pop_all_models_freeze, bind, modify.
  set (s2 := with_self _ _).
  assert (_all_models_freeze_count (self s2) = 0%Z) as Hc2
    by (subst s2 s0; cbn; lia).
  rewrite bool_decide_eq_true_2 by done.
  rewrite _recompute_all_models_no_roots by done.
  eexists _, rs. split; [done|]. split; [exact Hperm|].
  split; [done|]. split; [|split; [done|split; [done|]]].
  - subst s2 s0. destruct s as [[] ? ? ? ? ?]. cbn in *. subst.
    reflexivity.
  - intros x. cbn [document_of]. rewrite lookup_foldl_delete.
    subst s2 s0. cbn. destruct (decide (x ∈ elements _)) as [Hx|Hx];
      rewrite elem_of_elements in Hx.
    + by rewrite decide_True.
    + by rewrite decide_False.
Qed.

Lemma with_self_const_with_self (d : Document) (f : Document -> Document)
  (s : State) :
  with_self (λ _, d) (with_self f s) = with_self (λ _, d) s.
Proof. done. Qed.

Lemma with_self_const_self (s : State) : with_self (λ _, self s) s = s.
Proof. by destruct s. Qed.

Lemma switch_switch (w : Docs) : switch (switch w) = w.
Proof. by destruct w as [[] ?]. Qed.

Lemma on_dest_returned {A} (m : M A) (w : Docs) (a : A) (s' : State) :
  m (with_self (λ _, dest_doc w) (this w)) = Returned a s' →
  on_dest m w =
  Returned2 a (mkDocs (with_self (λ _, self (this w)) s') (self s')).
Proof.
  intros Hm. unfold on_dest, on_this, switch. cbn [this dest_doc].
  by rewrite Hm.
Qed.

Lemma on_this_returned {A} (m : M A) (w : Docs) (a : A) (s' : State) :
  m (this w) = Returned a s' →
  on_this m w = Returned2 a (mkDocs s' (dest_doc w)).
Proof. intros Hm. unfold on_this. by rewrite Hm. Qed.

(** A document without roots and with an empty table satisfies the
    closure invariant. *)
Lemma closure_invariant_empty (s : State) :
  _roots (self s) = ∅ → _all_models (self s) = ∅ → closure_invariant s.
Proof.
  intros Hroots Hall. split; intros i m; rewrite Hall, lookup_empty; [|done].
  split; [done|]. rewrite Hroots. by intros [(r & ?%elem_of_empty & _) _].
Qed.

Section move_facts.
Variable call_listener : Callable -> Event -> M unit.
Hypothesis Hobs : observers call_listener.

(** [add_root] with the freeze counter at zero: the invariant, and what
    stays. *)
Lemma add_root_keeps (m : Model) (s : State) :
  _all_models_freeze_count (self s) = 0%Z →
  closure_invariant s →
  distinct_ids (models s) ({[m]} ∪ _roots (self s)) →
  ∃ s', add_root call_listener m s = Returned tt s' ∧
        closure_invariant s' ∧
        _roots (self s') = {[m]} ∪ _roots (self s) ∧
        _all_models_freeze_count (self s') = 0%Z ∧
        models s' = models s ∧
        _title (self s') = _title (self s) ∧
        _callbacks (self s') = _callbacks (self s) ∧
        _session_callbacks (self s') = _session_callbacks (self s) ∧
        doc_ref (self s') = doc_ref (self s) ∧
        io_curdoc s' = io_curdoc s.
Proof.
  intros Hcount Hinv Hids.
  destruct (decide (m ∈ _roots (self s))) as [Hin|Hnin].
  - exists s. rewrite add_root_present by done.
    split; [done|]. split; [done|]. split; [set_solver|]. by repeat split.
  - destruct (add_root_new call_listener m s Hobs Hnin) as [by_name ->].
    rewrite bool_decide_eq_true_2 by done.
    eexists. split; [done|]. split; [|by repeat split].
    apply closure_invariant_after_trigger, recomputed_state_invariant.
    + exact Hids.
    + intros i x Hx _. by apply (proj2 Hinv i).
Qed.

Lemma add_roots_keep (l : list Model) :
  ∀ s,
    _all_models_freeze_count (self s) = 0%Z →
    closure_invariant s →
    distinct_ids (models s) (list_to_set l ∪ _roots (self s)) →
    ∃ s', for_each l (add_root call_listener) s = Returned tt s' ∧
          closure_invariant s' ∧
          _roots (self s') = list_to_set l ∪ _roots (self s) ∧
          _all_models_freeze_count (self s') = 0%Z ∧
          models s' = models s ∧
          _title (self s') = _title (self s) ∧
          _callbacks (self s') = _callbacks (self s) ∧
          _session_callbacks (self s') = _session_callbacks (self s) ∧
          doc_ref (self s') = doc_ref (self s) ∧
          io_curdoc s' = io_curdoc s.
Proof.
  induction l as [|m l IH]; intros s Hcount Hinv Hids.
  - exists s. split; [done|]. split; [done|]. split; [cbn; set_solver|].
    by repeat split.
  - cbn [for_each]. unfold bind.
    destruct (add_root_keeps m s Hcount Hinv)
      as (s1 & -> & Hinv1 & Hr1 & Hc1 & Hm1 & Ht1 & Hcb1 & Hsc1 & Href1 & Hcur1).
    { eapply distinct_ids_mono; [|exact Hids]. cbn. set_solver. }
    destruct (IH s1 Hc1 Hinv1)
      as (s2 & Hloop & Hinv2 & Hr2 & Hc2 & Hm2 & Ht2 & Hcb2 & Hsc2 & Href2
          & Hcur2).
    { rewrite Hm1, Hr1. eapply distinct_ids_mono; [|exact Hids].
      cbn. set_solver. }
    exists s2. split; [exact Hloop|]. split; [done|].
    split; [rewrite Hr2, Hr1; cbn; set_solver|].
    repeat split; congruence.
Qed.

(** The setter of [title] with a string. *)
Lemma title_setter_keeps (t : string) (s : State) :
  ∃ s', title_setter call_listener (Some t) s = Returned tt s' ∧
        _title (self s') = Some t ∧
        _roots (self s') = _roots (self s) ∧
        _all_models (self s') = _all_models (self s) ∧
        _all_models_freeze_count (self s')
          = _all_models_freeze_count (self s) ∧
        _callbacks (self s') = _callbacks (self s) ∧
        _session_callbacks (self s') = _session_callbacks (self s) ∧
        doc_ref (self s') = doc_ref (self s) ∧
        models s' = models s ∧ document_of s' = document_of s ∧
        io_curdoc s' = io_curdoc s.
Proof.
  unfold title_setter. case_bool_decide as Hne.
  - unfold bind, modify. rewrite _trigger_on_change_observers by done.
    eexists. split; [done|]. by repeat split.
  - exists s. split; [done|]. split; [|by repeat split].
    destruct (decide (_title (self s) = Some t)); [done|]. by destruct Hne.
Qed.

(** The loop of [_destructively_move] in a frozen document: it removes
    the roots one by one and collects them. *)
Lemma move_loop_collects :
  ∀ fuel roots s,
    _all_models_freeze_count (self s) ≠ 0%Z →
    size (_roots (self s)) ≤ fuel →
    ∃ rs s',
      rs ≡ₚ elements (_roots (self s)) ∧
      move_loop call_listener fuel roots s = Returned (roots ++ rs) s' ∧
      self s' = set_roots ∅ (self s) ∧ models s' = models s ∧
      document_of s' = document_of s ∧ io_curdoc s' = io_curdoc s.
Proof.
  induction fuel as [|fuel IH]; intros roots s Hcount Hsize.
  - assert (_roots (self s) = ∅) as Hempty
      by (apply leibniz_equiv, size_empty_inv; lia).
    exists [], s. cbn [move_loop]. rewrite Hempty, elements_empty.
    rewrite app_nil_r. split; [done|]. split; [done|].
    split; [|done]. rewrite <-Hempty. by destruct s as [[] ? ? ? ? ?].
  - cbn [move_loop].
    destruct (elements (_roots (self s))) as [|r l] eqn:Hel.
    + apply elements_empty_inv, leibniz_equiv in Hel.
      exists [], s. rewrite app_nil_r. split; [done|]. split; [done|].
      split; [|done]. rewrite <-Hel. by destruct s as [[] ? ? ? ? ?].
    + assert (r ∈ _roots (self s)) as Hr
        by (apply elem_of_elements; rewrite Hel; by left).
      unfold bind. rewrite remove_root_frozen by done.
      set (s1 := after_trigger _ _).
      destruct (IH (roots ++ [r]) s1) as (rs & s' & Hperm & Hrun & Hrest).
      * done.
      * subst s1. cbn.
        assert (size (_roots (self s) ∖ {[r]}) < size (_roots (self s)))
          by (apply subset_size; set_solver). lia.
      * exists (r :: rs), s'. split; [|split].
        -- rewrite Hperm, <-Hel. subst s1. cbn.
           rewrite <-elements_union_singleton by set_solver.
           by rewrite <-union_difference_singleton_L.
        -- by rewrite Hrun, <-app_assoc.
        -- destruct Hrest as (Hself & ? & ? & ?). subst s1. cbn in *.
           split; [|done]. rewrite Hself.
           by destruct s as [[] ? ? ? ? ?].
Qed.

(** Collecting the roots, with the freeze counter at zero before: the
    document is left without roots and with empty tables, and the models
    of its table are detached. *)
Lemma move_roots_effect (fuel : nat) (s : State) :
  _all_models_freeze_count (self s) = 0%Z →
  size (_roots (self s)) ≤ fuel →
  ∃ rs s',
    rs ≡ₚ elements (_roots (self s)) ∧
    (_push_all_models_freeze ;;
     try_finally (move_loop call_listener fuel []) _pop_all_models_freeze) s
      = Returned rs s' ∧
    self s' = set_all_models ∅ ∅ (set_roots ∅ (self s)) ∧
    models s' = models s ∧ io_curdoc s' = io_curdoc s ∧
    (∀ x, x ∈ (map_img (_all_models (self s)) : gset Model) →
          document_of s' !! x = None).
Proof.
  intros Hcount Hfuel.
  unfold bind, _push_all_models_freeze, modify, try_finally.
  set (s0 := with_self _ s).
  destruct (move_loop_collects fuel [] s0)
    as (rs & s1 & Hperm & -> & Hself1 & Hm1 & Hd1 & Hcur1).
  { subst s0. cbn. lia. }
  { done. }
  unfold _pop_all_models_freeze, bind, modify.
  set (s2 := with_self _ s1).
  assert (_all_models_freeze_count (self s2) = 0%Z) as Hc2
    by (subst s2; cbn; rewrite Hself1; subst s0; cbn; lia).
  assert (_roots (self s2) = ∅) as Hr2
    by (subst s2; cbn; by rewrite Hself1).
  rewrite bool_decide_eq_true_2 by done.
  rewrite _recompute_all_models_no_roots by done.
  eexists rs, _. split; [exact Hperm|]. split; [done|].
  cbn [self models io_curdoc document_of].
  split; [|split; [|split]].
  - subst s2. cbn. rewrite Hself1. subst s0.
    destruct s as [[] ? ? ? ? ?]. cbn in *. subst. reflexivity.
  - subst s2. cbn. by rewrite Hm1.
  - subst s2. cbn. by rewrite Hcur1.
  - intros x Hx. rewrite lookup_foldl_delete.
    rewrite decide_True; [done|]. apply elem_of_elements.
    subst s2. cbn. rewrite Hself1. subst s0. by cbn.
Qed.

Lemma check_detached_passes (roots : list Model) (s : State) :
  (∀ r, r ∈ roots → document_of s !! r = None) →
  check_detached roots s = Returned tt s.
Proof.
  unfold check_detached. induction roots as [|r l IH]; intros Hnone; [done|].
  cbn [for_each]. unfold bind. rewrite Hnone by (by left).
  apply IH. intros x Hx. apply Hnone. by right.
Qed.

End move_facts.

(** [_destructively_move] into another document, up to the assignment of
    the title: the roots have moved. *)
Lemma _destructively_move_roots
  (call_listener : Callable -> Event -> M unit) (fuel : nat) (w : Docs) :
  observers call_listener →
  doc_ref (dest_doc w) ≠ doc_ref (self (this w)) →
  _all_models_freeze_count (self (this w)) = 0%Z →
  _all_models_freeze_count (dest_doc w) = 0%Z →
  closure_invariant (this w) →
  distinct_ids (models (this w)) (_roots (self (this w))) →
  size (_roots (self (this w))) ≤ fuel →
  size (_roots (dest_doc w)) ≤ fuel →
  ∃ w',
    _destructively_move call_listener fuel w =
      on_dest (title_setter call_listener (_title (self (this w)))) w' ∧
    self (this w') = set_all_models ∅ ∅ (set_roots ∅ (self (this w))) ∧
    _roots (dest_doc w') = _roots (self (this w)) ∧
    _title (dest_doc w') = _title (dest_doc w) ∧
    doc_ref (dest_doc w') = doc_ref (dest_doc w) ∧
    _callbacks (dest_doc w') = _callbacks (dest_doc w) ∧
    _session_callbacks (dest_doc w') = _session_callbacks (dest_doc w) ∧
    _all_models_freeze_count (dest_doc w') = 0%Z ∧
    models (this w') = models (this w) ∧
    io_curdoc (this w') = io_curdoc (this w) ∧
    closure_invariant (this (switch w')).
Proof.
  intros Hobs Hne HcT HcD Hinv Hids HfT HfD.
  destruct w as [sT D]. cbn [this dest_doc] in *.
  unfold _destructively_move. cbn [this dest_doc].
  rewrite bool_decide_eq_false_2 by done.
  (* dest_doc.clear() *)
  destruct (clear_effect call_listener fuel (with_self (λ _, D) sT))
    as (sD1 & rs0 & Hclear & _ & _ & HselfD1 & HmD1 & HcurD1 & _);
    [done..|].
  unfold bind2 at 1.
  rewrite (on_dest_returned _ (mkDocs sT D) tt sD1 Hclear).
  cbn [this dest_doc].
  set (sT1 := with_self (λ _, self sT) sD1).
  (* the roots are collected *)
  destruct (move_roots_effect call_listener Hobs fuel sT1)
    as (rs & sT2 & Hperm & Hmove & HselfT2 & HmT2 & HcurT2 & HdetT2);
    [done..|].
  unfold bind2 at 1.
  rewrite (on_this_returned _ (mkDocs sT1 (self sD1)) rs sT2 Hmove).
  assert (∀ r, r ∈ rs ↔ r ∈ _roots (self sT)) as Hrs.
  { intros r. rewrite Hperm. subst sT1. cbn. by rewrite elem_of_elements. }
  (* they are detached *)
  unfold bind2 at 1.
  rewrite (on_this_returned (check_detached rs) _ tt sT2).
  2:{ apply check_detached_passes. intros r Hr%Hrs. apply HdetT2.
      subst sT1. cbn. apply elem_of_map_img. exists (id_of (models sT) r).
      apply (proj1 Hinv). split; [|done].
      exists r. split; [done|]. apply elem_of_references_self. }
  (* the table is empty *)
  unfold bind2 at 1.
  rewrite (on_this_returned check_no_models _ tt sT2).
  2:{ unfold check_no_models. cbn [this]. rewrite HselfT2. cbn.
      by rewrite bool_decide_eq_false_2 by (rewrite map_size_empty; lia). }
  cbn [this dest_doc].
  (* the roots are added to the destination *)
  set (sD2 := with_self (λ _, self sD1) sT2).
  assert (list_to_set rs = _roots (self sT)) as Hset.
  { apply set_eq. intros r. by rewrite elem_of_list_to_set, Hrs. }
  destruct (add_roots_keep call_listener Hobs rs sD2)
    as (sD3 & Hadd & HinvD3 & HrD3 & HcD3 & HmD3 & HtD3 & HcbD3 & HscD3
        & HrefD3 & HcurD3).
  { subst sD2. cbn. by rewrite HselfD1. }
  { apply closure_invariant_empty; subst sD2; cbn; by rewrite HselfD1. }
  { subst sD2. cbn. rewrite HselfD1, HmT2. cbn. rewrite Hset.
    subst sT1. cbn. rewrite HmD1. cbn.
    eapply distinct_ids_mono; [|exact Hids]. set_solver. }
  unfold bind2 at 1.
  rewrite (on_dest_returned _ (mkDocs sT2 (self sD1)) tt sD3 Hadd).
  cbn [this dest_doc].
  (* the title *)
  unfold bind2 at 1.
  rewrite (on_this_returned (λ s, Returned (title s) s) _
             (_title (self sT)) (with_self (λ _, self sT2) sD3)).
  2:{ unfold title. cbn. rewrite HselfT2. cbn. subst sT1. by cbn. }
  eexists. split; [done|].
  cbn [this dest_doc self with_self models io_curdoc].
  split.
  { rewrite HselfT2. subst sT1. by cbn. }
  split.
  { rewrite HrD3. subst sD2. cbn. rewrite HselfD1. cbn.
    rewrite Hset. set_solver. }
  split.
  { rewrite HtD3. subst sD2. cbn. by rewrite HselfD1. }
  split.
  { rewrite HrefD3. subst sD2. cbn. by rewrite HselfD1. }
  split.
  { rewrite HcbD3. subst sD2. cbn. by rewrite HselfD1. }
  split.
  { rewrite HscD3. subst sD2. cbn. by rewrite HselfD1. }
  split; [exact HcD3|].
  split.
  { rewrite HmD3. subst sD2. cbn. rewrite HmT2. subst sT1. by cbn. }
  split.
  { rewrite HcurD3. subst sD2. cbn. rewrite HcurT2. subst sT1. by cbn. }
  unfold switch. cbn [this dest_doc].
  rewrite with_self_const_with_self, with_self_const_self.
  exact HinvD3.
Qed.


(** [_destructively_move] into another document, from a document with a
    title. *)
Lemma _destructively_move_returns
  (call_listener : Callable -> Event -> M unit) (fuel : nat) (w : Docs) :
  observers call_listener →
  doc_ref (dest_doc w) ≠ doc_ref (self (this w)) →
  _all_models_freeze_count (self (this w)) = 0%Z →
  _all_models_freeze_count (dest_doc w) = 0%Z →
  closure_invariant (this w) →
  distinct_ids (models (this w)) (_roots (self (this w))) →
  size (_roots (self (this w))) ≤ fuel →
  size (_roots (dest_doc w)) ≤ fuel →
  is_Some (_title (self (this w))) →
  ∃ w',
    _destructively_move call_listener fuel w = Returned2 tt w' ∧
    self (this w') = set_all_models ∅ ∅ (set_roots ∅ (self (this w))) ∧
    _roots (dest_doc w') = _roots (self (this w)) ∧
    _title (dest_doc w') = _title (self (this w)) ∧
    doc_ref (dest_doc w') = doc_ref (dest_doc w) ∧
    _callbacks (dest_doc w') = _callbacks (dest_doc w) ∧
    _session_callbacks (dest_doc w') = _session_callbacks (dest_doc w) ∧
    _all_models_freeze_count (dest_doc w') = 0%Z ∧
    models (this w') = models (this w) ∧
    io_curdoc (this w') = io_curdoc (this w) ∧
    closure_invariant (this (switch w')).
Proof.
  intros Hobs Hne HcT HcD Hinv Hids HfT HfD [t Ht].
  destruct (_destructively_move_roots call_listener fuel w)
    as (w3 & -> & HselfT & HrD & HtD & HrefD & HcbD & HscD & HcD3 & Hm & Hcur
        & HinvD); [done..|].
  rewrite Ht.
  destruct (title_setter_keeps call_listener Hobs t (this (switch w3)))
    as (sD4 & Htitle & HtD4 & HrD4 & HaD4 & HcD4 & HcbD4 & HscD4 & HrefD4
        & HmD4 & HdD4 & HcurD4).
  rewrite (on_dest_returned _ w3 tt sD4 Htitle).
  eexists. split; [done|].
  cbn [this dest_doc self with_self models io_curdoc].
  split; [exact HselfT|]. split; [by rewrite HrD4|].
  split; [by rewrite HtD4|]. split; [by rewrite HrefD4|].
  split; [by rewrite HcbD4|]. split; [by rewrite HscD4|].
  split; [by rewrite HcD4|]. split; [by rewrite HmD4|].
  split; [by rewrite HcurD4|].
  unfold switch. cbn [this dest_doc].
  rewrite with_self_const_with_self, with_self_const_self.
  eapply closure_invariant_ext; [..|exact HinvD]; done.
Qed.

(** X23: [_destructively_move] into the document itself raises
    [RuntimeError] and changes nothing.  Into another document, with
    listeners that only look, both freeze counters at zero, a source that
    satisfies the closure invariant, has distinct ids and a title, and a
    round of each loop for every root, it returns; the source is left
    without roots and with empty tables; the destination has the roots and
    the title of the source, keeps its identity, its listeners and its
    session callbacks, and satisfies the closure invariant: the models
    reachable from the moved roots are in its table and point back to
    it. *)
Theorem _destructively_move_moves
  (call_listener : Callable -> Event -> M unit) (fuel : nat) (w : Docs) :
  observers call_listener →
  (doc_ref (dest_doc w) = doc_ref (self (this w)) →
   _destructively_move call_listener fuel w = Raised2 RuntimeError w) ∧
  (doc_ref (dest_doc w) ≠ doc_ref (self (this w)) →
   _all_models_freeze_count (self (this w)) = 0%Z →
   _all_models_freeze_count (dest_doc w) = 0%Z →
   closure_invariant (this w) →
   distinct_ids (models (this w)) (_roots (self (this w))) →
   size (_roots (self (this w))) ≤ fuel →
   size (_roots (dest_doc w)) ≤ fuel →
   is_Some (_title (self (this w))) →
   ∃ w',
     _destructively_move call_listener fuel w = Returned2 tt w' ∧
     self (this w') = set_all_models ∅ ∅ (set_roots ∅ (self (this w))) ∧
     _roots (dest_doc w') = _roots (self (this w)) ∧
     _title (dest_doc w') = _title (self (this w)) ∧
     doc_ref (dest_doc w') = doc_ref (dest_doc w) ∧
     _callbacks (dest_doc w') = _callbacks (dest_doc w) ∧
     _session_callbacks (dest_doc w') = _session_callbacks (dest_doc w) ∧
     _all_models_freeze_count (dest_doc w') = 0%Z ∧
     models (this w') = models (this w) ∧
     io_curdoc (this w') = io_curdoc (this w) ∧
     closure_invariant (this (switch w'))).
Proof.
  intros Hobs. split.
  - intros Hsame. unfold _destructively_move.
    by rewrite bool_decide_eq_true_2.
  - intros Hne HcT HcD Hinv Hids HfT HfD Ht.
    by apply _destructively_move_returns.
Qed.

(** X24: [_destructively_move] from a document whose title is [None]
    raises [ValueError], and does so after the roots have moved: under the
    same conditions otherwise, the source is left without roots and with
    empty tables, and the destination has the roots of the source and its
    own title. *)
Theorem _destructively_move_without_title
  (call_listener : Callable -> Event -> M unit) (fuel : nat) (w : Docs) :
  observers call_listener →
  doc_ref (dest_doc w) ≠ doc_ref (self (this w)) →
  _all_models_freeze_count (self (this w)) = 0%Z →
  _all_models_freeze_count (dest_doc w) = 0%Z →
  closure_invariant (this w) →
  distinct_ids (models (this w)) (_roots (self (this w))) →
  size (_roots (self (this w))) ≤ fuel →
  size (_roots (dest_doc w)) ≤ fuel →
  _title (self (this w)) = None →
  ∃ w',
    _destructively_move call_listener fuel w = Raised2 ValueError w' ∧
    _roots (self (this w')) = ∅ ∧
    _all_models (self (this w')) = ∅ ∧
    _roots (dest_doc w') = _roots (self (this w)) ∧
    _title (dest_doc w') = _title (dest_doc w) ∧
    closure_invariant (this (switch w')).
Proof.
  intros Hobs Hne HcT HcD Hinv Hids HfT HfD Ht.
  destruct (_destructively_move_roots call_listener fuel w)
    as (w3 & -> & HselfT & HrD & HtD & _ & _ & _ & _ & _ & _ & HinvD);
    [done..|].
  rewrite Ht. exists w3. split.
  - by destruct w3 as [[] ?].
  - rewrite HselfT. cbn. split; [done|]. split; [done|].
    split; [exact HrD|]. split; [exact HtD|exact HinvD].
Qed.

(** *** Replacing the content of a document by a document read from JSON *)

(** The loop of [from_json] over the ids of the roots, when every id has
    its instance: the instances are added in order. *)
Lemma add_roots_by_id (call_listener : Callable -> Event -> M unit)
  (references : gmap string Model) (root_ids : list string) :
  (∀ r, r ∈ root_ids → is_Some (references !! r)) →
  ∀ s,
    for_each root_ids
      (λ r, match references !! r with
            | Some m => add_root call_listener m
            | None => raise KeyError
            end) s =
    for_each (omap (λ r, references !! r) root_ids)
      (add_root call_listener) s.
Proof.
  induction root_ids as [|r l IH]; intros Hall s; [done|].
  destruct (Hall r) as [m Hm]; [by left|].
  cbn [for_each omap list_omap]. rewrite Hm. cbn [for_each]. unfold bind.
  destruct (add_root call_listener m s); [|done..].
  apply IH. intros x Hx. apply Hall. by right.
Qed.

Lemma add_roots_list_nobody_listens (l : list Model) :
  ∀ s,
    _callbacks (self s) = [] →
    ∃ s',
      (∀ call_listener,
         for_each l (add_root call_listener) s = Returned tt s') ∧
      _roots (self s') = list_to_set l ∪ _roots (self s) ∧
      models s' = models s ∧ _callbacks (self s') = [].
Proof.
  induction l as [|m l IH]; intros s Hnone.
  - exists s. split; [done|]. split; [cbn; set_solver|done].
  - destruct (add_root_nobody_listens m s Hnone)
      as (s1 & Hadd & Hr1 & Hnone1 & _ & _ & _ & _ & Hm1 & _).
    destruct (IH s1 Hnone1) as (s2 & Hloop & Hr2 & Hm2 & Hnone2).
    exists s2. split; [|split; [|split]].
    + intros call_listener. cbn [for_each]. unfold bind.
      rewrite Hadd. apply Hloop.
    + rewrite Hr2, Hr1. cbn. set_solver.
    + congruence.
    + done.
Qed.

(** The document [from_json] returns satisfies the closure invariant
    when the models reachable from its roots have distinct ids. *)
Lemma from_json_closure (call_listener : Callable -> Event -> M unit)
  (get_class : string -> option ModelClass) (doc : DocRef) (json : DocJson)
  (s s1 : State) :
  from_json call_listener get_class doc json s = Returned tt s1 →
  distinct_ids (models s1) (_roots (self s1)) →
  closure_invariant s1.
Proof.
  rewrite from_json_unfold.
  destruct (instantiate_loop get_class (json_references json) ∅ s)
    as [references s2|e s2|s2]; [|done..].
  destruct (_initialize_references_json (json_references json) references s2)
    as [[] s3|e s3|s3]; [|done..].
  set (s4 := with_self (λ _, Document_init doc None) s3).
  unfold bind at 1.
  destruct (add_roots_nobody_listens references (json_root_ids json) s4)
    as (o & Hloop & Ho); [done|].
  rewrite Hloop. destruct o as [[] s5|e s5|s5]; [|done..].
  destruct (Ho tt s5 eq_refl) as (Hall & _ & Hnone5 & _).
  intros Htitle Hids.
  (* the roots, one by one *)
  specialize (Hloop observer). rewrite add_roots_by_id in Hloop by done.
  set (l := omap (λ r, references !! r) (json_root_ids json)) in Hloop.
  destruct (add_roots_list_nobody_listens l s4)
    as (s5' & Hl & Hr5 & Hm5 & _); [done|].
  rewrite Hl in Hloop. injection Hloop as ->.
  (* the title *)
  destruct (title_setter_nobody_listens (json_title json) s5 Hnone5)
    as (o' & Ht & Ho').
  rewrite Ht in Htitle. subst o'.
  destruct (Ho' tt s1 eq_refl) as (Ht1 & Hr1 & _ & _ & _ & _ & Hm1 & _).
  assert (is_Some (json_title json)) as [t Hjt].
  { destruct (json_title json) as [t|] eqn:Hjt; [by eexists|].
    specialize (Ht observer). cbn in Ht. discriminate. }
  rewrite Hjt in Ht.
  destruct (title_setter_keeps observer observer_observers t s5)
    as (s1' & Ht' & _ & Hr1' & Ha1' & _ & _ & _ & Href1' & Hm1' & Hd1' & _).
  rewrite Ht in Ht'. injection Ht' as <-.
  (* the invariant *)
  destruct (add_roots_keep observer observer_observers l s4)
    as (s5'' & Hl' & Hinv5 & _); [done|apply closure_invariant_new| |].
  { change (_roots (self s4)) with (∅ : gset Model).
    rewrite <-Hm5, <-Hm1.
    eapply distinct_ids_mono; [|exact Hids].
    rewrite Hr1, Hr5. done. }
  rewrite Hl in Hl'. injection Hl' as <-.
  by eapply closure_invariant_ext; [..|exact Hinv5].
Qed.

(** X25: [replace_with_json], with listeners that only look, on a
    document with the freeze counter at zero: when [from_json] reads the
    JSON, and the models read have distinct ids, it returns; the document
    keeps its identity, its listeners and its session callbacks, has the
    roots and the title of the document read, and satisfies the closure
    invariant; the models are those [from_json] left. *)
Theorem replace_with_json_replaces
  (call_listener : Callable -> Event -> M unit)
  (get_class : string -> option ModelClass) (fuel : nat) (doc : DocRef)
  (json : DocJson) (s s1 : State) :
  observers call_listener →
  doc ≠ doc_ref (self s) →
  _all_models_freeze_count (self s) = 0%Z →
  from_json call_listener get_class doc json s = Returned tt s1 →
  distinct_ids (models s1) (_roots (self s1)) →
  size (_roots (self s)) ≤ fuel →
  size (_roots (self s1)) ≤ fuel →
  ∃ s',
    replace_with_json call_listener get_class fuel doc json s
      = Returned tt s' ∧
    doc_ref (self s') = doc_ref (self s) ∧
    _callbacks (self s') = _callbacks (self s) ∧
    _session_callbacks (self s') = _session_callbacks (self s) ∧
    _roots (self s') = _roots (self s1) ∧
    _title (self s') = json_title json ∧
    _all_models_freeze_count (self s') = 0%Z ∧
    models s' = models s1 ∧
    io_curdoc s' = io_curdoc s ∧
    closure_invariant s'.
Proof.
  intros Hobs Hdoc Hcount Hread Hids Hfuel Hfuel1.
  destruct (from_json_returns call_listener get_class doc json s)
    as [_ Hret].
  destruct (Hret tt s1 Hread)
    as (Htitle & _ & _ & Href1 & Ht1 & _ & _ & _ & Hc1 & _ & Hcur1).
  pose proof (from_json_closure _ _ _ _ _ _ Hread Hids) as Hinv1.
  destruct (_destructively_move_returns call_listener fuel
              (mkDocs s1 (self s)))
    as (w' & Hmove & _ & Hr & Ht & Href & Hcb & Hsc & Hc & Hm & Hcur & Hinv);
    cbn [this dest_doc]; try done.
  { by rewrite Href1. }
  { by rewrite Ht1. }
  unfold replace_with_json. rewrite Hread, Hmove.
  eexists. split; [done|]. unfold switch.
  cbn [this dest_doc self with_self models io_curdoc].
  cbn [this dest_doc] in *.
  split; [exact Href|]. split; [exact Hcb|]. split; [exact Hsc|].
  split; [exact Hr|]. split; [by rewrite Ht|]. split; [exact Hc|].
  split; [exact Hm|]. split; [by rewrite Hcur|]. exact Hinv.
Qed.

(** *** The document with the two models, moved and replaced *)

Lemma distinct_ids_cycle :
  distinct_ids (models cycle_document_state)
    (_roots (self cycle_document_state)).
Proof.
  eapply distinct_ids_mono; [|exact distinct_ids_two_models].
  cbn. set_solver.
Qed.

Lemma size_roots_cycle : size (_roots (self cycle_document_state)) ≤ 1.
Proof. cbn. by rewrite size_singleton. Qed.

(** The document moved into itself, and into the new document. *)
Lemma _destructively_move_moves_witness :
  observers observer ∧
  _destructively_move observer 1
    (mkDocs cycle_document_state (self cycle_document_state))
    = Raised2 RuntimeError
        (mkDocs cycle_document_state (self cycle_document_state)) ∧
  ∃ w',
    _destructively_move observer 1 two_documents = Returned2 tt w' ∧
    _roots (self (this w')) = ∅ ∧ _all_models (self (this w')) = ∅ ∧
    _roots (dest_doc w') = {[1%positive]} ∧
    _title (dest_doc w') = Some DEFAULT_TITLE ∧
    closure_invariant (this (switch w')).
Proof.
  split; [exact observer_observers|]. split.
  - exact (proj1 (_destructively_move_moves observer 1
                    (mkDocs cycle_document_state (self cycle_document_state))
                    observer_observers) eq_refl).
  - destruct (proj2 (_destructively_move_moves observer 1 two_documents
                       observer_observers))
      as (w' & Hrun & Hself & Hroots & Htitle & _ & _ & _ & _ & _ & _ & Hinv).
    + discriminate.
    + reflexivity.
    + reflexivity.
    + exact closure_invariant_cycle.
    + exact distinct_ids_cycle.
    + exact size_roots_cycle.
    + cbn. rewrite size_empty. lia.
    + by eexists.
    + exists w'. split; [exact Hrun|]. rewrite Hself.
      split; [reflexivity|]. split; [reflexivity|].
      split; [exact Hroots|]. split; [exact Htitle|exact Hinv].
Defined.

(** The document without a title, moved into the new document. *)
Lemma _destructively_move_without_title_witness :
  observers observer ∧
  _title (self (this untitled_documents)) = None ∧
  ∃ w',
    _destructively_move observer 1 untitled_documents = Raised2 ValueError w' ∧
    _roots (self (this w')) = ∅ ∧
    _roots (dest_doc w') = {[1%positive]} ∧
    _title (dest_doc w') = Some DEFAULT_TITLE.
Proof.
  split; [exact observer_observers|]. split; [reflexivity|].
  destruct (_destructively_move_without_title observer 1 untitled_documents
              observer_observers)
    as (w' & Hrun & Hroots & _ & Hdest & Htitle & _).
  - discriminate.
  - reflexivity.
  - reflexivity.
  - exact closure_invariant_cycle.
  - exact distinct_ids_cycle.
  - exact size_roots_cycle.
  - cbn. rewrite size_empty. lia.
  - reflexivity.
  - exists w'. split; [exact Hrun|]. split; [exact Hroots|].
    split; [exact Hdest|exact Htitle].
Defined.

Lemma from_json_read_back :
  from_json observer get_class_Plot 1
    (to_json "0.11" cycle_document_state) cycle_document_state
    = Returned tt read_back_state.
Proof. vm_compute. reflexivity. Qed.

Lemma roots_read_back : _roots (self read_back_state) = {[3%positive]}.
Proof. vm_compute. reflexivity. Qed.

Lemma distinct_ids_read_back :
  distinct_ids (models read_back_state) (_roots (self read_back_state)).
Proof.
  rewrite roots_read_back.
  assert (ModelCap.references (models read_back_state) 3%positive
          = {[3%positive; 4%positive]}) as Hrefs
    by (vm_compute; reflexivity).
  intros r r' a b ->%elem_of_singleton ->%elem_of_singleton Ha Hb Hid.
  rewrite Hrefs in Ha, Hb.
  apply elem_of_union in Ha as [Ha%elem_of_singleton|Ha%elem_of_singleton];
    apply elem_of_union in Hb as [Hb%elem_of_singleton|Hb%elem_of_singleton];
    rewrite Ha, Hb; rewrite Ha, Hb in Hid; clear Ha Hb Hrefs;
    try reflexivity; vm_compute in Hid; discriminate Hid.
Qed.

(** The document whose root is model [1], replaced by what its own JSON
    reads as: its root is then the new object with id [a]. *)
Lemma replace_with_json_replaces_witness :
  observers observer ∧
  from_json observer get_class_Plot 1
    (to_json "0.11" cycle_document_state) cycle_document_state
    = Returned tt read_back_state ∧
  distinct_ids (models read_back_state) (_roots (self read_back_state)) ∧
  ∃ s',
    replace_with_json observer get_class_Plot 1 1
      (to_json "0.11" cycle_document_state) cycle_document_state
      = Returned tt s' ∧
    doc_ref (self s') = 0 ∧
    _roots (self s') = {[3%positive]} ∧
    _title (self s') = Some DEFAULT_TITLE ∧
    closure_invariant s'.
Proof.
  split; [exact observer_observers|]. split; [exact from_json_read_back|].
  split; [exact distinct_ids_read_back|].
  destruct (replace_with_json_replaces observer get_class_Plot 1 1
              (to_json "0.11" cycle_document_state) cycle_document_state
              read_back_state observer_observers)
    as (s' & Hrun & Href & _ & _ & Hroots & Htitle & _ & _ & _ & Hinv).
  - discriminate.
  - reflexivity.
  - exact from_json_read_back.
  - exact distinct_ids_read_back.
  - exact size_roots_cycle.
  - rewrite roots_read_back. by rewrite size_singleton.
  - exists s'. split; [exact Hrun|]. split; [exact Href|].
    split; [by rewrite Hroots, roots_read_back|].
    split; [exact Htitle|exact Hinv].
Defined.
